(** * AntiTheft: the bounded buffers, the detection filters and the alarm
    controller, embedded from the Python sources and verified.

    Conventions of the embedding.
    - Python [int] is [Z]; Python [float] (clock readings, areas, durations)
      is an exact rational [Q]: every binary64 value is a rational, and the
      model computes differences exactly.
    - A method that can raise is a computation in the monad [M S], whose
      outcome is either a returned value or a raised exception, each with the
      object state reached at that point (Python keeps the mutations made
      before a raise).
    - [time.time()], [datetime.now()] and the other answers of the environment
      are arguments of the method that asks for them, in the order asked.
    - [with self.lock:] blocks are critical sections of one call; a call is
      one atomic step of the model. *)

From Stdlib Require Import ZArith QArith Qround Qabs Lqa Lia.
From stdpp Require Import base decidable option list strings sorting.

Local Open Scope Z_scope.

(* ===================================================================== *)
(** ** Python runtime: exceptions, list indexing, integer remainder *)
(* ===================================================================== *)

Inductive exn : Type :=
  | ZeroDivisionError
  | IndexError
  | KeyError.

Inductive outcome (S A : Type) : Type :=
  | Return (a : A) (s : S)
  | Raise (e : exn) (s : S).
Arguments Return {S A} a s.
Arguments Raise {S A} e s.

Definition M (S A : Type) : Type := S -> outcome S A.

#[global] Instance M_ret {S} : MRet (M S) :=
  fun A (a : A) s => Return a s.
#[global] Instance M_bind {S} : MBind (M S) :=
  fun A B (f : A -> M S B) (m : M S A) s =>
    match m s with
    | Return a s' => f a s'
    | Raise e s' => Raise e s'
    end.

Definition ret {S A} (a : A) : M S A := mret a.
Definition raise {S A} (e : exn) : M S A := fun s => Raise e s.
(** The receiver of the method: [self]. *)
Definition this {S} : M S S := fun s => Return s s.
Definition modify {S} (f : S -> S) : M S unit := fun s => Return tt (f s).

(** What a finished call left behind, whether it returned or raised. *)
Definition state_of {S A} (o : outcome S A) : S :=
  match o with Return _ s => s | Raise _ s => s end.

Definition returned {S A} (o : outcome S A) : option A :=
  match o with Return a _ => Some a | Raise _ _ => None end.

(** [a % b]: Python raises on a zero divisor; otherwise the remainder takes
    the sign of the divisor, as [Z.modulo] does. *)
Definition py_mod {S} (a b : Z) : M S Z :=
  if bool_decide (b = 0) then raise ZeroDivisionError else ret (a mod b).

(** [a / b] on integers: true division, a float; Python raises on a zero
    divisor. *)
Definition py_truediv {S} (a b : Z) : M S Q :=
  if bool_decide (b = 0) then raise ZeroDivisionError
  else ret (inject_Z a / inject_Z b)%Q.

(** [threading.Lock] is not reentrant. A [with self.lock:] block entered
    while the calling thread already holds the lock waits for a release
    that cannot come; otherwise the block runs with the lock held, and the
    lock is free again when the block is left, by a return or by an
    exception. A method that takes the lock once and calls no other locking
    method is one atomic step; the methods that call a locking method from
    inside their own block are written with the lock explicit: [held] tells
    whether the calling thread holds the lock of the object. *)
Inductive locked (A : Type) : Type :=
  | Unlocked (a : A)
  | Failed (e : exn)
  | Waits.
Arguments Unlocked {A} a.
Arguments Failed {A} e.
Arguments Waits {A}.

Definition with_lock {A} (held : bool) (block : bool -> locked A) : locked A :=
  if held then Waits else block true.

(** The position a Python list subscript [i] denotes in a list of length
    [n]: negative subscripts count from the end, anything else is out of
    range. *)
Definition py_index (n : nat) (i : Z) : option nat :=
  if bool_decide (0 <= i < Z.of_nat n) then Some (Z.to_nat i)
  else if bool_decide (- Z.of_nat n <= i < 0) then Some (Z.to_nat (Z.of_nat n + i))
  else None.

(** [l[i]] *)
Definition py_getitem {S A} (l : list A) (i : Z) : M S A :=
  match py_index (length l) i with
  | Some k => match l !! k with
              | Some x => ret x
              | None => raise IndexError
              end
  | None => raise IndexError
  end.

(** [l[i] = x] *)
Definition py_setitem {S A} (l : list A) (i : Z) (x : A) : M S (list A) :=
  match py_index (length l) i with
  | Some k => ret (<[k:=x]> l)
  | None => raise IndexError
  end.

(* ===================================================================== *)
(** ** memory_management.py: CircularFrameBuffer *)
(* ===================================================================== *)

Module CircularFrameBuffer.
Section Buffer.
(** The payload type: a frame ([np.ndarray]). [frame.copy()] yields an
    array with the same contents, which is the same value here. *)
Context {Frame : Type}.

Record t : Type := mk {
  capacity : Z;
  buffer : list (option Frame);
  head : Z;
  tail : Z;
  size : Z;
  write_count : Z;
  read_count : Z;
  overflow_count : Z
}.

Definition set_buffer (b : list (option Frame)) (s : t) : t :=
  mk (capacity s) b (head s) (tail s) (size s)
     (write_count s) (read_count s) (overflow_count s).
Definition set_head (h : Z) (s : t) : t :=
  mk (capacity s) (buffer s) h (tail s) (size s)
     (write_count s) (read_count s) (overflow_count s).
Definition set_tail (x : Z) (s : t) : t :=
  mk (capacity s) (buffer s) (head s) x (size s)
     (write_count s) (read_count s) (overflow_count s).
Definition set_size (n : Z) (s : t) : t :=
  mk (capacity s) (buffer s) (head s) (tail s) n
     (write_count s) (read_count s) (overflow_count s).
Definition set_write_count (n : Z) (s : t) : t :=
  mk (capacity s) (buffer s) (head s) (tail s) (size s)
     n (read_count s) (overflow_count s).
Definition set_read_count (n : Z) (s : t) : t :=
  mk (capacity s) (buffer s) (head s) (tail s) (size s)
     (write_count s) n (overflow_count s).
Definition set_overflow_count (n : Z) (s : t) : t :=
  mk (capacity s) (buffer s) (head s) (tail s) (size s)
     (write_count s) (read_count s) n.

(** [__init__]: [[None] * capacity] is the empty list for a capacity that
    is zero or negative; nothing is checked. *)
Definition __init__ (cap : Z) : t :=
  mk cap (replicate (Z.to_nat cap) None) 0 0 0 0 0 0.

Definition write (frame : Frame) : M t bool :=
  (self ← this;
   (if bool_decide (size self = capacity self) then
      modify (fun s => set_overflow_count (overflow_count s + 1) s);;
      self ← this;
      x ← py_mod (tail self + 1) (capacity self);
      modify (set_tail x);;
      modify (fun s => set_size (size s - 1) s)
    else ret tt);;
   self ← this;
   b ← py_setitem (buffer self) (head self) (Some frame);
   modify (set_buffer b);;
   self ← this;
   h ← py_mod (head self + 1) (capacity self);
   modify (set_head h);;
   modify (fun s => set_size (size s + 1) s);;
   modify (fun s => set_write_count (write_count s + 1) s);;
   ret true).

Definition read : M t (option Frame) :=
  (self ← this;
   if bool_decide (size self = 0) then ret None
   else
     frame ← py_getitem (buffer self) (tail self);
     b ← py_setitem (buffer self) (tail self) None;
     modify (set_buffer b);;
     self ← this;
     x ← py_mod (tail self + 1) (capacity self);
     modify (set_tail x);;
     modify (fun s => set_size (size s - 1) s);;
     modify (fun s => set_read_count (read_count s + 1) s);;
     ret frame).

Definition peek : M t (option Frame) :=
  (self ← this;
   if bool_decide (size self = 0) then ret None
   else py_getitem (buffer self) (tail self)).

Definition get_latest : M t (option Frame) :=
  (self ← this;
   if bool_decide (size self = 0) then ret None
   else
     latest_idx ← py_mod (head self - 1) (capacity self);
     py_getitem (buffer self) latest_idx).

Definition is_full (self : t) : bool := bool_decide (size self = capacity self).
Definition is_empty (self : t) : bool := bool_decide (size self = 0).

Definition clear (self : t) : t :=
  set_size 0 (set_tail 0 (set_head 0
    (set_buffer (replicate (Z.to_nat (capacity self)) None) self))).

(** A run of calls, stopping at the first exception. *)
Fixpoint writes (frames : list Frame) : M t unit :=
  match frames with
  | [] => ret tt
  | f :: fs => (write f;; writes fs)
  end.

Fixpoint reads (n : nat) : M t (list (option Frame)) :=
  match n with
  | O => ret []
  | S n' => (x ← read; xs ← reads n'; ret (x :: xs))
  end.

(** [get_stats] *)
Record stats : Type := mk_stats {
  stat_capacity : Z;
  stat_current_size : Z;
  stat_utilization : Q;
  stat_write_count : Z;
  stat_read_count : Z;
  stat_overflow_count : Z;
  stat_head_position : Z;
  stat_tail_position : Z
}.

Definition get_stats : M t stats :=
  self ← this;
  ratio ← py_truediv (size self) (capacity self);
  ret (mk_stats (capacity self) (size self) (ratio * 100)%Q
         (write_count self) (read_count self) (overflow_count self)
         (head self) (tail self)).

(** The calls of a client of the buffer, what each answers, and a run of
    calls that stops at the first exception. *)
Inductive call : Type :=
  | Write (frame : Frame)
  | Read
  | Peek
  | GetLatest
  | IsFull
  | IsEmpty
  | Clear.

Inductive reply : Type :=
  | Written (ok : bool)
  | Fetched (frame : option Frame)
  | Flag (b : bool)
  | Cleared.

Definition perform (c : call) : M t reply :=
  match c with
  | Write frame => ok ← write frame; ret (Written ok)
  | Read => frame ← read; ret (Fetched frame)
  | Peek => frame ← peek; ret (Fetched frame)
  | GetLatest => frame ← get_latest; ret (Fetched frame)
  | IsFull => self ← this; ret (Flag (is_full self))
  | IsEmpty => self ← this; ret (Flag (is_empty self))
  | Clear => modify clear;; ret Cleared
  end.

Fixpoint perform_all (calls : list call) : M t (list reply) :=
  match calls with
  | [] => ret []
  | c :: calls' => r ← perform c; rs ← perform_all calls'; ret (r :: rs)
  end.

(** The bounded queue the buffer stands for: a list of frames, oldest
    first, of at most [cap] frames; a write to a full queue drops the
    oldest. *)
Definition queue_perform (cap : Z) (c : call) (q : list Frame)
  : reply * list Frame :=
  match c with
  | Write frame =>
      (Written true,
       (if bool_decide (Z.of_nat (length q) = cap) then drop 1 q else q) ++ [frame])
  | Read => (Fetched (q !! 0%nat), drop 1 q)
  | Peek => (Fetched (q !! 0%nat), q)
  | GetLatest => (Fetched (last q), q)
  | IsFull => (Flag (bool_decide (Z.of_nat (length q) = cap)), q)
  | IsEmpty => (Flag (bool_decide (q = [])), q)
  | Clear => (Cleared, [])
  end.

Fixpoint queue_perform_all (cap : Z) (calls : list call) (q : list Frame)
  : list reply * list Frame :=
  match calls with
  | [] => ([], q)
  | c :: calls' =>
      let '(r, q') := queue_perform cap c q in
      let '(rs, q'') := queue_perform_all cap calls' q' in
      (r :: rs, q'')
  end.

(** How many of the calls are writes. *)
Fixpoint count_writes (calls : list call) : Z :=
  match calls with
  | [] => 0
  | Write _ :: calls' => 1 + count_writes calls'
  | _ :: calls' => count_writes calls'
  end.

(** Whether [clear] is among the calls. *)
Fixpoint has_clear (calls : list call) : bool :=
  match calls with
  | [] => false
  | Clear :: _ => true
  | _ :: calls' => has_clear calls'
  end.

(** The frames written that are neither in the buffer, nor read, nor
    dropped by an overflow. *)
Definition unaccounted (self : t) : Z :=
  write_count self - read_count self - overflow_count self - size self.

(** [holds self q]: the buffer is well formed and its live frames, oldest
    first, are [q]: they sit in the [size] slots that start at [tail] and
    wrap around, and [head] is the slot after the newest. *)
Definition slot_of (self : t) (i : nat) : nat :=
  Z.to_nat ((tail self + Z.of_nat i) mod capacity self).

Definition holds (self : t) (q : list Frame) : Prop :=
  1 <= capacity self /\
  length (buffer self) = Z.to_nat (capacity self) /\
  0 <= tail self < capacity self /\
  size self = Z.of_nat (length q) /\
  size self <= capacity self /\
  head self = (tail self + size self) mod capacity self /\
  forall (i : nat) (x : Frame), q !! i = Some x ->
    buffer self !! slot_of self i = Some (Some x).

End Buffer.
Arguments t : clear implicits.
Arguments call : clear implicits.
Arguments reply : clear implicits.
End CircularFrameBuffer.


(* ===================================================================== *)
(** ** memory_management.py: LRUCache *)
(* ===================================================================== *)

(** [collections.OrderedDict] as the list of its items in iteration order:
    the first item is the oldest, the last one the newest. *)
Module OrderedDict.
Section Dict.
Context {K V : Type} `{EqDecision K}.

Definition keys (d : list (K * V)) : list K := d.*1.

(** [key in d] *)
Definition contains (key : K) (d : list (K * V)) : bool :=
  bool_decide (key ∈ keys d).

Fixpoint lookup_key (key : K) (d : list (K * V)) : option V :=
  match d with
  | [] => None
  | (k, v) :: d' => if decide (k = key) then Some v else lookup_key key d'
  end.

Definition remove_key (key : K) (d : list (K * V)) : list (K * V) :=
  filter (fun kv => kv.1 ≠ key) d.

(** [d.move_to_end(key)]: [None] stands for the [KeyError] of a missing
    key. *)
Definition move_to_end (key : K) (d : list (K * V)) : option (list (K * V)) :=
  match lookup_key key d with
  | Some v => Some (remove_key key d ++ [(key, v)])
  | None => None
  end.

(** [d.popitem(last=False)]: the oldest item and the rest; [None] stands for
    the [KeyError] of an empty dictionary. *)
Definition popitem_first (d : list (K * V)) : option ((K * V) * list (K * V)) :=
  match d with
  | [] => None
  | kv :: d' => Some (kv, d')
  end.

(** [d[key] = value]: an existing key keeps its position. *)
Fixpoint setitem (key : K) (value : V) (d : list (K * V)) : list (K * V) :=
  match d with
  | [] => [(key, value)]
  | (k, v) :: d' =>
      if decide (k = key) then (k, value) :: d' else (k, v) :: setitem key value d'
  end.

End Dict.
End OrderedDict.

Module LRUCache.
Section Cache.
Context {K V : Type} `{EqDecision K}.

Record t : Type := mk {
  capacity : Z;
  cache : list (K * V);
  hit_count : Z;
  miss_count : Z;
  eviction_count : Z;
  access_count : Z
}.

Definition set_cache (d : list (K * V)) (s : t) : t :=
  mk (capacity s) d (hit_count s) (miss_count s) (eviction_count s) (access_count s).
Definition set_hit_count (n : Z) (s : t) : t :=
  mk (capacity s) (cache s) n (miss_count s) (eviction_count s) (access_count s).
Definition set_miss_count (n : Z) (s : t) : t :=
  mk (capacity s) (cache s) (hit_count s) n (eviction_count s) (access_count s).
Definition set_eviction_count (n : Z) (s : t) : t :=
  mk (capacity s) (cache s) (hit_count s) (miss_count s) n (access_count s).
Definition set_access_count (n : Z) (s : t) : t :=
  mk (capacity s) (cache s) (hit_count s) (miss_count s) (eviction_count s) n.

(** [__init__]: the capacity is stored as given; nothing is checked. *)
Definition __init__ (cap : Z) : t := mk cap [] 0 0 0 0.

(** A dictionary operation that raises [KeyError] where the model of
    [OrderedDict] answers [None]. *)
Definition or_KeyError {A} (o : option A) : M t A :=
  match o with
  | Some a => ret a
  | None => raise KeyError
  end.

(** [get]: [None] is the miss sentinel. *)
Definition get (key : K) : M t (option V) :=
  modify (fun s => set_access_count (access_count s + 1) s);;
  self ← this;
  if OrderedDict.contains key (cache self) then
    d ← or_KeyError (OrderedDict.move_to_end key (cache self));
    modify (set_cache d);;
    modify (fun s => set_hit_count (hit_count s + 1) s);;
    self ← this;
    v ← or_KeyError (OrderedDict.lookup_key key (cache self));
    ret (Some v)
  else
    modify (fun s => set_miss_count (miss_count s + 1) s);;
    ret None.

Definition put (key : K) (value : V) : M t unit :=
  self ← this;
  (if OrderedDict.contains key (cache self) then
     d ← or_KeyError (OrderedDict.move_to_end key (cache self));
     modify (set_cache d)
   else
     if bool_decide (Z.of_nat (length (cache self)) >= capacity self) then
       r ← or_KeyError (OrderedDict.popitem_first (cache self));
       modify (set_cache r.2);;
       modify (fun s => set_eviction_count (eviction_count s + 1) s)
     else ret tt);;
  modify (fun s => set_cache (OrderedDict.setitem key value (cache s)) s).

Definition remove (key : K) : M t bool :=
  self ← this;
  if OrderedDict.contains key (cache self) then
    modify (set_cache (OrderedDict.remove_key key (cache self)));;
    ret true
  else ret false.

Definition clear (self : t) : t := mk (capacity self) [] 0 0 0 0.

(** The calls a client makes, and a run of them that stops at the first
    exception. *)
Inductive op : Type :=
  | Put (key : K) (value : V)
  | Get (key : K).

Definition step (o : op) : M t unit :=
  match o with
  | Put k v => put k v
  | Get k => get k;; ret tt
  end.

Fixpoint run (ops : list op) : M t unit :=
  match ops with
  | [] => ret tt
  | o :: ops' => step o;; run ops'
  end.

(** Which key a call touches in a given cache: [put] always touches its key,
    [get] touches its key on a hit only. *)
Definition touched (o : op) (self : t) : option K :=
  match o with
  | Put k _ => Some k
  | Get k => if OrderedDict.contains k (cache self) then Some k else None
  end.

(** [get_hit_rate]: a percentage, 0.0 before the first access. *)
Definition get_hit_rate (self : t) : Q :=
  if bool_decide (access_count self = 0) then 0%Q
  else (inject_Z (hit_count self) / inject_Z (access_count self) * 100)%Q.

(** [get_hit_rate] with its [with self.lock:] explicit. *)
Definition get_hit_rate_locked (held : bool) (self : t) : locked Q :=
  with_lock held (fun _ => Unlocked (get_hit_rate self)).

(** [get_stats]: the entries of the dictionary are evaluated in the order
    written, the utilization before the hit rate; the hit rate is asked of
    [get_hit_rate] from inside the block. *)
Record stats : Type := mk_stats {
  stat_capacity : Z;
  stat_current_size : Z;
  stat_utilization : Q;
  stat_hit_count : Z;
  stat_miss_count : Z;
  stat_eviction_count : Z;
  stat_access_count : Z;
  stat_hit_rate : Q
}.

Definition get_stats (held : bool) (self : t) : locked stats :=
  with_lock held (fun held =>
    let current_size := Z.of_nat (length (cache self)) in
    if bool_decide (capacity self = 0) then Failed ZeroDivisionError
    else
      let utilization :=
        (inject_Z current_size / inject_Z (capacity self) * 100)%Q in
      match get_hit_rate_locked held self with
      | Unlocked hit_rate =>
          Unlocked (mk_stats (capacity self) current_size utilization
                      (hit_count self) (miss_count self) (eviction_count self)
                      (access_count self) hit_rate)
      | Failed e => Failed e
      | Waits => Waits
      end).

(** All the calls of a client, what each answers, and a run of calls that
    stops at the first exception. *)
Inductive call : Type :=
  | CallPut (key : K) (value : V)
  | CallGet (key : K)
  | CallRemove (key : K)
  | CallClear.

Inductive reply : Type :=
  | Stored
  | Found (value : option V)
  | Removed (present : bool)
  | Emptied.

Definition perform (c : call) : M t reply :=
  match c with
  | CallPut key value => put key value;; ret Stored
  | CallGet key => r ← get key; ret (Found r)
  | CallRemove key => b ← remove key; ret (Removed b)
  | CallClear => modify clear;; ret Emptied
  end.

Fixpoint perform_all (calls : list call) : M t (list reply) :=
  match calls with
  | [] => ret []
  | c :: calls' => r ← perform c; rs ← perform_all calls'; ret (r :: rs)
  end.

(** The dictionary a cache without a bound would be after the calls: the
    value last put for each key and not removed since. *)
Definition dict_perform (c : call) (d : K -> option V) : K -> option V :=
  match c with
  | CallPut key value => fun k => if decide (k = key) then Some value else d k
  | CallGet _ => d
  | CallRemove key => fun k => if decide (k = key) then None else d k
  | CallClear => fun _ => None
  end.

Fixpoint dict_perform_all (calls : list call) (d : K -> option V) : K -> option V :=
  match calls with
  | [] => d
  | c :: calls' => dict_perform_all calls' (dict_perform c d)
  end.

(** The keys touched by a run, in the order of the touches. *)
Fixpoint touch_log (ops : list op) (self : t) : list K :=
  match ops with
  | [] => []
  | o :: ops' =>
      match touched o self with
      | Some k => k :: touch_log ops' (state_of (step o self))
      | None => touch_log ops' (state_of (step o self))
      end
  end.

End Cache.
Arguments t : clear implicits.
Arguments op : clear implicits.
Arguments call : clear implicits.
Arguments reply : clear implicits.
End LRUCache.

(* ===================================================================== *)
(** ** memory_management.py: MemoryHierarchy *)
(* ===================================================================== *)

Module MemoryHierarchy.
Section Hierarchy.
Context {Frame K V : Type} `{EqDecision K}.

(** [main_memory] is a dictionary that no method writes to; it stays
    empty. *)
Record t : Type := mk {
  l1_cache : CircularFrameBuffer.t Frame;
  l2_cache : LRUCache.t K V;
  total_accesses : Z
}.

Definition __init__ (l1_size l2_size : Z) : t :=
  mk (CircularFrameBuffer.__init__ l1_size) (LRUCache.__init__ l2_size) 0.

(** [get_memory_stats]: the statistics of the frame buffer, then those of
    the cache, the size of [main_memory] and the number of accesses. The
    hierarchy's own lock is not taken. *)
Definition get_memory_stats (self : t)
  : locked (CircularFrameBuffer.stats * LRUCache.stats * Z * Z) :=
  match CircularFrameBuffer.get_stats (l1_cache self) with
  | Raise e _ => Failed e
  | Return l1 _ =>
      match LRUCache.get_stats false (l2_cache self) with
      | Unlocked l2 => Unlocked (l1, l2, 0, total_accesses self)
      | Failed e => Failed e
      | Waits => Waits
      end
  end.

End Hierarchy.
Arguments t : clear implicits.
End MemoryHierarchy.


(* ===================================================================== *)
(** ** face_recognition_module.py: the temporal smoothing of FaceRecognizer *)
(* ===================================================================== *)

(** [int(x)] on a float: truncation toward zero. *)
Definition py_int (x : Q) : Z := Z.quot (Qnum x) (Zpos (Qden x)).

(** [np.median] of a list of integers: the middle element of the sorted
    list, or the mean of the two middle elements when the length is even.
    (numpy answers nan on the empty list; the smoothing never asks for it.) *)
Definition np_median (l : list Z) : Q :=
  let s := merge_sort Z.le l in
  let n := length s in
  if Nat.even n
  then (inject_Z (nth (n / 2 - 1) s 0) + inject_Z (nth (n / 2) s 0)) / 2
  else inject_Z (nth (n / 2) s 0).

Module FaceRecognizer.

(** A face location, in the [face_recognition] format
    [(top, right, bottom, left)]. *)
Definition location : Type := Z * Z * Z * Z.

(** One entry of [face_history]. *)
Record frame_data : Type := mk_frame_data {
  names : list string;
  locations : list location;
  count : Z
}.

(** The fields of [FaceRecognizer] that the smoothing reads and writes. *)
Record t : Type := mk {
  face_history : list frame_data;
  history_length : Z;
  min_confidence_frames : Z;
  last_stable_faces : list location;
  last_stable_names : list string
}.

(** The smoothing fields as [__init__] sets them. *)
Definition __init__ : t := mk [] 5 3 [] [].

Definition len {A} (l : list A) : Z := Z.of_nat (length l).

Definition _apply_temporal_smoothing
    (names_ : list string) (locations_ : list location) (self : t)
  : (list string * list location) * t :=
  (* Add current detection to history *)
  let history := face_history self ++ [mk_frame_data names_ locations_ (len names_)] in
  (* Keep only recent history *)
  let history :=
    if bool_decide (len history > history_length self) then drop 1 history
    else history in
  let self := mk history (history_length self) (min_confidence_frames self)
                 (last_stable_faces self) (last_stable_names self) in
  if bool_decide (len history < min_confidence_frames self) then
    ((names_, locations_),
     mk history (history_length self) (min_confidence_frames self)
        locations_ names_)
  else
    let face_counts := map count history in
    let stable_count := py_int (np_median face_counts) in
    let current_count := len names_ in
    if bool_decide (Z.abs (current_count - stable_count) <= 1) then
      ((names_, locations_),
       mk history (history_length self) (min_confidence_frames self)
          locations_ names_)
    else
      ((last_stable_names self, last_stable_faces self), self).

(** Feeding a sequence of raw detections, collecting the outputs. *)
Fixpoint smooth_all (raw : list (list string * list location)) (self : t)
  : list (list string * list location) * t :=
  match raw with
  | [] => ([], self)
  | (n, l) :: raw' =>
      let '(out, self') := _apply_temporal_smoothing n l self in
      let '(outs, self'') := smooth_all raw' self' in
      (out :: outs, self'')
  end.

(** [is_unknown_face_detected] *)
Definition is_unknown_face_detected (names_ : list string) : bool :=
  bool_decide ("Unknown" ∈ names_).

(** The recognizer around the smoothing: the frame counter, the detection
    interval and the metrics of [recognize_faces]. *)
Record recognizer : Type := mk_recognizer {
  smoothing : t;
  detection_interval : Z;
  frame_counter : Z;
  total_recognitions : Z;
  recognition_time_total : Q
}.

(** The recognizer as [__init__] sets it, for a configured
    [detection_interval] (1 when the key is absent). *)
Definition new_recognizer (cfg_detection_interval : option Z) : recognizer :=
  mk_recognizer __init__ (default 1 cfg_detection_interval) 0 0 0%Q.

(** [recognize_faces]: [raw] is what the recognition backend (the
    face_recognition library or the Haar cascade) answers for the frame,
    should it be asked; [start_time] and [end_time] are the readings of the
    clock. *)
Definition recognize_faces (raw : list string * list location)
    (start_time end_time : Q) : M recognizer (list string * list location) :=
  modify (fun s => mk_recognizer (smoothing s) (detection_interval s)
                     (frame_counter s + 1) (total_recognitions s)
                     (recognition_time_total s));;
  self ← this;
  remainder ← py_mod (frame_counter self) (detection_interval self);
  if bool_decide (remainder <> 0) then
    ret (last_stable_names (smoothing self), last_stable_faces (smoothing self))
  else
    let '(out, smoothed) :=
      _apply_temporal_smoothing raw.1 raw.2 (smoothing self) in
    let recognition_time := (end_time - start_time)%Q in
    modify (fun s => mk_recognizer smoothed (detection_interval s)
                       (frame_counter s) (total_recognitions s + 1)
                       (recognition_time_total s + recognition_time)%Q);;
    ret out.

Fixpoint recognize_all (frames : list ((list string * list location) * Q * Q))
  : M recognizer (list (list string * list location)) :=
  match frames with
  | [] => ret []
  | (raw, start_time, end_time) :: frames' =>
      out ← recognize_faces raw start_time end_time;
      outs ← recognize_all frames';
      ret (out :: outs)
  end.

(** The frames that reach the recognition backend when the frame counter
    stands at [counter]: those at which the incremented counter is a
    multiple of the interval. *)
Fixpoint sampled {A} (interval counter : Z) (frames : list A) : list A :=
  match frames with
  | [] => []
  | f :: frames' =>
      if bool_decide ((counter + 1) mod interval = 0)
      then f :: sampled interval (counter + 1) frames'
      else sampled interval (counter + 1) frames'
  end.

(** The stable result the recognizer has stored. *)
Definition stable (self : t) : list string * list location :=
  (last_stable_names self, last_stable_faces self).

(** The observation a raw detection adds to the history. *)
Definition observation (raw : list string * list location) : frame_data :=
  mk_frame_data raw.1 raw.2 (len raw.1).

End FaceRecognizer.


(* ===================================================================== *)
(** ** What the core hands to its collaborators *)
(* ===================================================================== *)

(** Console output, callbacks, threads, logging, storage and mail are the
    collaborators of the core. A call reports what it asked of them as a
    list of events, in order. *)
Inductive alarm_thread : Type := PlayAlarm | GenerateBeep.

Inductive event : Type :=
  | Printed (line : string)
  | CallbackRun (callback : nat)
  | ThreadStarted (target : alarm_thread)
  | LoggerWarning (message : string)
  | LoggerInfo (message : string)
  | LoggerError (message : string)
  | EventRecorded (kind message : string)
  | ImageSaved (filename subdir : string)
  | EmailSent (subject : string).

#[global] Instance alarm_thread_eq_dec : EqDecision alarm_thread.
Proof. solve_decision. Defined.

#[global] Instance event_eq_dec : EqDecision event.
Proof. solve_decision. Defined.

(** Comparisons of floats. *)
Definition Qgeb (x y : Q) : bool := Qle_bool y x.
Definition Qgtb (x y : Q) : bool := negb (Qle_bool x y).
Definition Qltb (x y : Q) : bool := negb (Qle_bool y x).

(* ===================================================================== *)
(** ** state_machine.py: SystemState, StateTransition, StateMachine *)
(* ===================================================================== *)

Inductive SystemState : Type := IDLE | MONITORING | ALERT | ALARM | COOLDOWN.

#[global] Instance SystemState_eq_dec : EqDecision SystemState.
Proof. solve_decision. Defined.

(** [state.value] *)
Definition value (s : SystemState) : string :=
  match s with
  | IDLE => "IDLE"
  | MONITORING => "MONITORING"
  | ALERT => "ALERT"
  | ALARM => "ALARM"
  | COOLDOWN => "COOLDOWN"
  end.

Module StateTransition.

Definition VALID_TRANSITIONS : list (SystemState * list SystemState) :=
  [ (IDLE, [MONITORING]);
    (MONITORING, [ALERT; IDLE]);
    (ALERT, [ALARM; MONITORING]);
    (ALARM, [COOLDOWN]);
    (COOLDOWN, [MONITORING; IDLE]) ].

Fixpoint table_lookup (s : SystemState) (table : list (SystemState * list SystemState))
  : option (list SystemState) :=
  match table with
  | [] => None
  | (k, targets) :: table' => if decide (k = s) then Some targets else table_lookup s table'
  end.

Definition is_valid_transition (from_state to_state : SystemState) : bool :=
  match table_lookup from_state VALID_TRANSITIONS with
  | None => false
  | Some targets => bool_decide (to_state ∈ targets)
  end.

End StateTransition.

Module StateMachine.

(** One entry of [state_history]. *)
Record entry : Type := mk_entry {
  e_state : string;
  e_timestamp : Q;
  e_datetime : string;
  e_reason : string
}.

(** What the clock answers while one entry is recorded: [time.time()] for
    the entry, [datetime.now()] formatted, and [time.time()] again for
    [state_enter_time]. *)
Record stamp : Type := mk_stamp {
  at_timestamp : Q;
  at_datetime : string;
  at_enter : Q
}.

Record t : Type := mk {
  current_state : SystemState;
  previous_state : option SystemState;
  state_enter_time : Q;
  state_history : list entry;
  transition_count : Z;
  (** the registered callbacks, by handle; a callback runs outside the
      machine, whose lock is held while it runs *)
  state_callbacks : SystemState -> option nat
}.

Definition _record_state_entry (state : SystemState) (reason : string)
    (ck : stamp) (self : t) : t :=
  let entry := mk_entry (value state) (at_timestamp ck) (at_datetime ck) reason in
  mk (current_state self) (previous_state self) (at_enter ck)
     (state_history self ++ [entry]) (transition_count self)
     (state_callbacks self).

(** [__init__]: [t0] is the first reading of the clock, overwritten when the
    initial state is recorded. *)
Definition __init__ (initial_state : SystemState) (t0 : Q) (ck : stamp) : t :=
  _record_state_entry initial_state ""
    ck (mk initial_state None t0 [] 0 (fun _ => None)).

(** [transition_to]: the returned flag, the machine afterwards, and the
    events of the call. *)
Definition transition_to (new_state : SystemState) (reason : string)
    (ck : stamp) (self : t) : bool * t * list event :=
  if negb (StateTransition.is_valid_transition (current_state self) new_state) then
    (false, self,
     [Printed ("Invalid transition: " +:+ value (current_state self)
               +:+ " -> " +:+ value new_state)])
  else
    let self := mk new_state (Some (current_state self)) (state_enter_time self)
                   (state_history self) (transition_count self + 1)
                   (state_callbacks self) in
    let self := _record_state_entry new_state reason ck self in
    let called :=
      match state_callbacks self new_state with
      | Some cb => [CallbackRun cb]
      | None => []
      end in
    (true, self,
     called ++
     [Printed ("State transition: "
               +:+ from_option value "" (previous_state self)
               +:+ " -> " +:+ value new_state +:+ " (" +:+ reason +:+ ")")]).


Definition get_current_state (self : t) : SystemState := current_state self.

(** [get_time_in_state], with the reading [now] of the clock. *)
Definition get_time_in_state (now : Q) (self : t) : Q :=
  (now - state_enter_time self)%Q.

(** A sequence of [transition_to] calls; the flags are collected. *)
Fixpoint transitions (calls : list (SystemState * string * stamp)) (self : t)
  : list bool * t :=
  match calls with
  | [] => ([], self)
  | (target, reason, ck) :: calls' =>
      let '(ok, self', _) := transition_to target reason ck self in
      let '(oks, self'') := transitions calls' self' in
      (ok :: oks, self'')
  end.

(** Whether each state of a list is followed by one of its valid
    successors. *)
Fixpoint is_path (states : list SystemState) : bool :=
  match states with
  | a :: (b :: _) as rest => StateTransition.is_valid_transition a b && is_path rest
  | _ => true
  end.

End StateMachine.

(* ===================================================================== *)
(** ** state_machine.py: AlarmSystem *)
(* ===================================================================== *)

Module AlarmSystem.

(** The [config] dictionary: an absent key is [None]. *)
Record config : Type := mk_config {
  cfg_enabled : option bool;
  cfg_sound_file : option string;
  cfg_duration : option Q;
  cfg_cooldown_period : option Q
}.

Record t : Type := mk {
  enabled : bool;
  sound_file : option string;
  duration : Q;
  cooldown_period : Q;
  is_active : bool;
  last_trigger_time : Q;
  trigger_count : Z;
  audio_available : bool
}.

(** [__init__]: [pygame_ok] tells whether the audio mixer could be
    initialised. *)
Definition __init__ (cfg : config) (pygame_ok : bool) : t :=
  let enabled := default true (cfg_enabled cfg) in
  mk enabled (cfg_sound_file cfg) (default 5%Q (cfg_duration cfg))
     (default 10%Q (cfg_cooldown_period cfg))
     false 0%Q 0
     (if enabled then pygame_ok else false).

(** [can_trigger], with the reading [current_time] of the clock. *)
Definition can_trigger (current_time : Q) (self : t) : bool :=
  if negb (enabled self) then false
  else
    let time_since_last := (current_time - last_trigger_time self)%Q in
    Qgeb time_since_last (cooldown_period self).

(** [trigger]: [t_check] is the clock as [can_trigger] reads it, [t_stamp]
    the clock when the trigger is stamped, [sound_exists] the answer of
    [os.path.exists(self.sound_file)]. *)
Definition trigger (t_check t_stamp : Q) (sound_exists : bool) (self : t)
  : t * list event :=
  if negb (can_trigger t_check self) then
    (self, [Printed "Alarm in cooldown period"])
  else
    let self := mk (enabled self) (sound_file self) (duration self)
                   (cooldown_period self) true t_stamp (trigger_count self + 1)
                   (audio_available self) in
    (self,
     [Printed "🚨 ALARM TRIGGERED! 🚨";
      if audio_available self && bool_decide (is_Some (sound_file self))
         && bool_decide (sound_file self ≠ Some "") && sound_exists
      then ThreadStarted PlayAlarm
      else ThreadStarted GenerateBeep]).

(** The end of the alarm thread ([finally: self.is_active = False]), and
    [stop]. *)
Definition thread_finished (self : t) : t :=
  mk (enabled self) (sound_file self) (duration self) (cooldown_period self)
     false (last_trigger_time self) (trigger_count self) (audio_available self).

Definition stop (self : t) : t := thread_finished self.

(** The calls made on the alarm over time: [trigger] with its answers of
    the environment, the end of an alarm thread, [stop]. *)
Inductive call : Type :=
  | Trigger (t_check t_stamp : Q) (sound_exists : bool)
  | ThreadFinished
  | Stop.

Definition perform (c : call) (self : t) : t :=
  match c with
  | Trigger t_check t_stamp sound_exists =>
      (trigger t_check t_stamp sound_exists self).1
  | ThreadFinished => thread_finished self
  | Stop => stop self
  end.

Fixpoint perform_all (calls : list call) (self : t) : t :=
  match calls with
  | [] => self
  | c :: calls' => perform_all calls' (perform c self)
  end.

(** The triggers of a run that fired, each with the clock as checked and as
    stamped. *)
Fixpoint fired (calls : list call) (self : t) : list (Q * Q) :=
  match calls with
  | [] => []
  | c :: calls' =>
      match c with
      | Trigger t_check t_stamp _ =>
          if can_trigger t_check self
          then (t_check, t_stamp) :: fired calls' (perform c self)
          else fired calls' (perform c self)
      | _ => fired calls' (perform c self)
      end
  end.

(** Each firing is checked at least [gap] after the stamp before it,
    starting from the stamp [previous]. *)
Fixpoint spaced (gap previous : Q) (firings : list (Q * Q)) : Prop :=
  match firings with
  | [] => True
  | (t_check, t_stamp) :: firings' =>
      (gap <= t_check - previous)%Q /\ spaced gap t_stamp firings'
  end.

End AlarmSystem.


(* ===================================================================== *)
(** ** motion_detection.py: BooleanLogic and MotionDetector *)
(* ===================================================================== *)

Module BooleanLogic.

Definition AND (a b : bool) : bool := a && b.
Definition OR (a b : bool) : bool := a || b.
Definition NOT (a : bool) : bool := negb a.
Definition XOR (a b : bool) : bool := negb (eqb a b).
Definition NAND (a b : bool) : bool := negb (a && b).
Definition NOR (a b : bool) : bool := negb (a || b).

Definition threshold_comparison (value threshold : Q) (operation : string) : bool :=
  if String.eqb operation "greater" then Qgtb value threshold
  else if String.eqb operation "less" then Qltb value threshold
  else if String.eqb operation "equal" then Qeq_bool value threshold
  else if String.eqb operation "greater_equal" then Qgeb value threshold
  else if String.eqb operation "less_equal" then Qle_bool value threshold
  else false.

Definition alarm_condition (motion_detected face_unknown system_armed : bool) : bool :=
  let detection := OR motion_detected face_unknown in
  let alarm := AND detection system_armed in
  alarm.

End BooleanLogic.

Module MotionDetector.
Section Detector.
(** The image types and the OpenCV operations of the pipeline: colour
    frames, grey images, contours; [cvtColor] followed by [GaussianBlur],
    [absdiff], [threshold], [dilate], [findContours], [contourArea]. *)
Context {Frame Gray Contour : Type}.
Variable cv2_gray_blur : Z -> Frame -> Gray.
Variable cv2_absdiff : Gray -> Gray -> Gray.
Variable cv2_threshold : Q -> Gray -> Gray.
Variable cv2_dilate : Z -> Gray -> Gray.
Variable cv2_findContours : Gray -> list Contour.
Variable cv2_contourArea : Contour -> Q.

Record config : Type := mk_config {
  cfg_threshold : option Q;
  cfg_min_contour_area : option Q;
  cfg_blur_kernel_size : option Z;
  cfg_dilation_iterations : option Z
}.

Record t : Type := mk {
  threshold : Q;
  min_contour_area : Q;
  blur_kernel_size : Z;
  dilation_iterations : Z;
  previous_frame : option Gray;
  total_frames_processed : Z;
  total_processing_time : Q;
  motion_detected_count : Z
}.

Definition __init__ (cfg : config) : t :=
  mk (default 25%Q (cfg_threshold cfg))
     (default 500%Q (cfg_min_contour_area cfg))
     (default 21 (cfg_blur_kernel_size cfg))
     (default 2 (cfg_dilation_iterations cfg))
     None 0 0%Q 0.

Definition set_previous_frame (g : Gray) (self : t) : t :=
  mk (threshold self) (min_contour_area self) (blur_kernel_size self)
     (dilation_iterations self) (Some g) (total_frames_processed self)
     (total_processing_time self) (motion_detected_count self).

Definition preprocess_frame (frame : Frame) (self : t) : Gray :=
  cv2_gray_blur (blur_kernel_size self) frame.

Definition compute_frame_difference (current_frame : Gray) (self : t)
  : option Gray * t :=
  match previous_frame self with
  | None => (None, set_previous_frame current_frame self)
  | Some previous =>
      let frame_diff := cv2_absdiff current_frame previous in
      (Some frame_diff, set_previous_frame current_frame self)
  end.

Definition apply_threshold (frame_diff : Gray) (self : t) : Gray :=
  cv2_threshold (threshold self) frame_diff.

Definition morphological_operations (thresh : Gray) (self : t) : Gray :=
  cv2_dilate (dilation_iterations self) thresh.

Definition find_contours (processed_frame : Gray) : list Contour :=
  cv2_findContours processed_frame.

Fixpoint filter_contours (contours : list Contour) (self : t) : list Contour :=
  match contours with
  | [] => []
  | contour :: rest =>
      let area := cv2_contourArea contour in
      if BooleanLogic.threshold_comparison area (min_contour_area self) "greater"
      then contour :: filter_contours rest self
      else filter_contours rest self
  end.

(** The [detection_info] dictionary of a processed frame. *)
Record detection_info : Type := mk_info {
  info_motion_detected : bool;
  num_contours : Z;
  processing_time_ms : Q;
  info_contours : list Contour
}.

(** [detect_motion]: [start_time] and [end_time] are the two readings of the
    clock. The answer for the first frame carries no measurements. *)
Definition detect_motion (frame : Frame) (start_time end_time : Q) (self : t)
  : bool * option detection_info * t :=
  let processed := preprocess_frame frame self in
  let '(frame_diff, self) := compute_frame_difference processed self in
  match frame_diff with
  | None => (false, None, self)
  | Some frame_diff =>
      let thresh := apply_threshold frame_diff self in
      let morphed := morphological_operations thresh self in
      let contours := find_contours morphed in
      let filtered_contours := filter_contours contours self in
      let motion_detected := bool_decide (Z.of_nat (length filtered_contours) > 0) in
      let processing_time := (end_time - start_time)%Q in
      let self :=
        mk (threshold self) (min_contour_area self) (blur_kernel_size self)
           (dilation_iterations self) (previous_frame self)
           (total_frames_processed self + 1)
           (total_processing_time self + processing_time)%Q
           (if motion_detected then motion_detected_count self + 1
            else motion_detected_count self) in
      (motion_detected,
       Some (mk_info motion_detected (Z.of_nat (length filtered_contours))
               (processing_time * 1000)%Q filtered_contours),
       self)
  end.

(** [get_performance_metrics]: the dictionary returned before any frame
    was processed has zeros only; afterwards it carries the averages. *)
Inductive metrics : Type :=
  | no_frames_processed
  | metrics_of (frames_processed : Z) (average_processing_time_ms fps : Q)
      (motion_detected_count_ : Z) (detection_rate_percent total_processing_time_s : Q).

Definition get_performance_metrics (self : t) : metrics :=
  if bool_decide (total_frames_processed self = 0) then no_frames_processed
  else
    let avg_processing_time :=
      (total_processing_time self / inject_Z (total_frames_processed self))%Q in
    let fps := if Qgtb avg_processing_time 0 then (1 / avg_processing_time)%Q else 0%Q in
    let detection_rate :=
      (inject_Z (motion_detected_count self)
       / inject_Z (total_frames_processed self) * 100)%Q in
    metrics_of (total_frames_processed self) (avg_processing_time * 1000)%Q fps
      (motion_detected_count self) detection_rate (total_processing_time self).

Definition reset_metrics (self : t) : t :=
  mk (threshold self) (min_contour_area self) (blur_kernel_size self)
     (dilation_iterations self) (previous_frame self) 0 0%Q 0.

Definition reset (self : t) : t :=
  reset_metrics
    (mk (threshold self) (min_contour_area self) (blur_kernel_size self)
        (dilation_iterations self) None (total_frames_processed self)
        (total_processing_time self) (motion_detected_count self)).

(** A run of [detect_motion] calls, each frame with its two clock
    readings; the decisions are collected. *)
Fixpoint detect_all (frames : list (Frame * Q * Q)) (self : t) : list bool * t :=
  match frames with
  | [] => ([], self)
  | (frame, start_time, end_time) :: frames' =>
      let '(motion_detected, _, self') :=
        detect_motion frame start_time end_time self in
      let '(decisions, self'') := detect_all frames' self' in
      (motion_detected :: decisions, self'')
  end.


End Detector.
Arguments t : clear implicits.
Arguments detection_info : clear implicits.
End MotionDetector.

(* ===================================================================== *)
(** ** main.py: the control step of AntiTheftSystem *)
(* ===================================================================== *)

Module AntiTheftSystem.

(** The parts of the system that the control step reads and writes. *)
Record t : Type := mk {
  state_machine : StateMachine.t;
  alarm_system : AlarmSystem.t;
  system_armed : bool
}.

(** What the environment answers during one control step, in the order
    asked: the clock for [get_time_in_state], the clock of the first
    transition, the clock of [can_trigger] and of the trigger stamp, whether
    the sound file exists, the path [save_image] returns, the clock of the
    second transition. *)
Record answers : Type := mk_answers {
  now : Q;
  first_stamp : StateMachine.stamp;
  trigger_check : Q;
  trigger_stamp : Q;
  sound_exists : bool;
  image_path : option string;
  second_stamp : StateMachine.stamp
}.

Definition _trigger_alarm (motion_detected unknown_face : bool)
    (env : answers) (self : t) : t * list event :=
  let '(alarm, ev_alarm) :=
    AlarmSystem.trigger (trigger_check env) (trigger_stamp env)
      (sound_exists env) (alarm_system self) in
  let ev_mail :=
    if bool_decide (is_Some (image_path env)) && bool_decide (image_path env ≠ Some "")
    then [EmailSent "🚨 ALARM: Intruder Detected!"]
    else [] in
  let '(_, machine, ev_fsm) :=
    StateMachine.transition_to COOLDOWN "Alarm triggered" (second_stamp env)
      (state_machine self) in
  (mk machine alarm (system_armed self),
   [Printed "🚨 ALARM TRIGGERED - INTRUDER DETECTED!"]
   ++ ev_alarm
   ++ [ImageSaved "intruder.jpg" "intruders";
       LoggerError "ALARM: Intruder detected";
       EventRecorded "ALARM" "Intruder detected"]
   ++ ev_mail ++ ev_fsm).

Definition with_machine (r : bool * StateMachine.t * list event) (self : t)
  : t * list event :=
  (mk r.1.2 (alarm_system self) (system_armed self), r.2).

Definition _handle_detection (alarm_trigger motion_detected unknown_face : bool)
    (env : answers) (self : t) : t * list event :=
  let current_state := StateMachine.get_current_state (state_machine self) in
  if alarm_trigger then
    (* Threat detected *)
    if decide (current_state = MONITORING) then
      let '(self, ev) :=
        with_machine (StateMachine.transition_to ALERT "Threat detected"
                        (first_stamp env) (state_machine self)) self in
      (self, ev ++ [LoggerWarning "Threat detected - entering ALERT state";
                    EventRecorded "ALERT" "Potential threat"])
    else if decide (current_state = ALERT) then
      if Qgtb (StateMachine.get_time_in_state (now env) (state_machine self)) 2 then
        let '(self, ev) :=
          with_machine (StateMachine.transition_to ALARM "Confirmed threat"
                          (first_stamp env) (state_machine self)) self in
        let '(self, ev') := _trigger_alarm motion_detected unknown_face env self in
        (self, ev ++ ev')
      else (self, [])
    else (self, [])
  else
    (* No threat *)
    if decide (current_state = ALERT) then
      let '(self, ev) :=
        with_machine (StateMachine.transition_to MONITORING "False alarm"
                        (first_stamp env) (state_machine self)) self in
      (self, ev ++ [LoggerInfo "False alarm - returning to MONITORING"])
    else if decide (current_state = COOLDOWN) then
      if Qgtb (StateMachine.get_time_in_state (now env) (state_machine self))
              (AlarmSystem.cooldown_period (alarm_system self)) then
        let '(self, ev) :=
          with_machine (StateMachine.transition_to MONITORING "Cooldown expired"
                          (first_stamp env) (state_machine self)) self in
        (self, ev ++ [LoggerInfo "Cooldown complete - MONITORING resumed"])
      else (self, [])
    else (self, []).

(** [_process_frame]: [motion_detected] and [face_names] are what the
    motion detector and the face recognizer answer for the frame. *)
Definition _process_frame (motion_detected : bool) (face_names : list string)
    (env : answers) (self : t) : t * list event :=
  let unknown_face := FaceRecognizer.is_unknown_face_detected face_names in
  let alarm_trigger :=
    BooleanLogic.alarm_condition motion_detected unknown_face (system_armed self) in
  _handle_detection alarm_trigger motion_detected unknown_face env self.

(** The frames of the main loop, one control step each; the events are
    collected in order. *)
Fixpoint process_all (frames : list (bool * list string * answers)) (self : t)
  : t * list event :=
  match frames with
  | [] => (self, [])
  | (motion_detected, face_names, env) :: frames' =>
      let '(self', ev) := _process_frame motion_detected face_names env self in
      let '(self'', ev') := process_all frames' self' in
      (self'', ev ++ ev')
  end.

End AntiTheftSystem.

(** The states in which the controller waits for the next frame. *)
Definition resting (s : SystemState) : bool :=
  match s with
  | MONITORING | ALERT | COOLDOWN => true
  | IDLE | ALARM => false
  end.

(** The events by which an alarm reaches the outside: the sound thread, the
    saved image, the e-mail. *)
Definition alarm_action (e : event) : bool :=
  match e with
  | ThreadStarted _ | ImageSaved _ _ | EmailSent _ => true
  | _ => false
  end.


(* ===================================================================== *)
(** ** Notions of the specification *)
(* ===================================================================== *)

(** The transition table as the specification writes it:
    Idle→{Monitoring}, Monitoring→{Alert, Idle}, Alert→{Alarm, Monitoring},
    Alarm→{Cooldown}, Cooldown→{Monitoring, Idle}. *)
Definition allowed_successor (source target : SystemState) : bool :=
  match source, target with
  | IDLE, MONITORING => true
  | MONITORING, ALERT | MONITORING, IDLE => true
  | ALERT, ALARM | ALERT, MONITORING => true
  | ALARM, COOLDOWN => true
  | COOLDOWN, MONITORING | COOLDOWN, IDLE => true
  | _, _ => false
  end.

(** The invariant that ties the history to the rest of the machine. *)
Definition history_agrees (m : StateMachine.t) : Prop :=
  StateMachine.state_history m <> [] /\
  StateMachine.e_state <$> last (StateMachine.state_history m)
    = Some (value (StateMachine.current_state m)) /\
  StateMachine.transition_count m
    = Z.of_nat (length (StateMachine.state_history m)) - 1.

(** Recency. In a log of touches, [b] was touched after the last touch of
    [a]: [a] is the less recently touched of the two. *)
Definition touched_after {K : Type} (log : list K) (a b : K) : Prop :=
  exists l1 l2, log = l1 ++ a :: l2 /\ (a ∉ l2) /\ (b ∈ l2).

(** Promotion of a key to most recently used, on the list of keys. *)
Definition promote {K : Type} `{EqDecision K} (k : K) (ks : list K) : list K :=
  filter (fun a => a <> k) ks ++ [k].

(** The keys of a cache agree with a log of touches: no key twice, every
    key touched, and the keys in the order of their last touches. *)
Definition by_recency {K : Type} (log : list K) (ks : list K) : Prop :=
  NoDup ks /\ Forall (fun a => a ∈ log) ks /\ StronglySorted (touched_after log) ks.

(** A cache agrees with a dictionary [dict]: its keys are distinct and
    within the capacity, every stored value is the dictionary's, and as
    long as no eviction is counted the cache stores all of the
    dictionary. *)
Definition agrees {K V : Type} `{EqDecision K}
    (self : LRUCache.t K V) (dict : K -> option V) : Prop :=
  1 <= LRUCache.capacity self /\
  NoDup (OrderedDict.keys (LRUCache.cache self)) /\
  Z.of_nat (length (OrderedDict.keys (LRUCache.cache self))) <= LRUCache.capacity self /\
  0 <= LRUCache.eviction_count self /\
  (forall k v, OrderedDict.lookup_key k (LRUCache.cache self) = Some v -> dict k = Some v) /\
  (LRUCache.eviction_count self = 0 ->
   forall k, OrderedDict.lookup_key k (LRUCache.cache self) = dict k).

(** What a reply may be, given the dictionary at the time of the call: a
    value found is the dictionary's value for the key, and a key reported
    as removed is a key of the dictionary. *)
Definition reply_sound {K V : Type} (c : LRUCache.call K V)
    (r : LRUCache.reply V) (dict : K -> option V) : Prop :=
  match c, r with
  | LRUCache.CallPut _ _, LRUCache.Stored => True
  | LRUCache.CallGet key, LRUCache.Found (Some v) => dict key = Some v
  | LRUCache.CallGet _, LRUCache.Found None => True
  | LRUCache.CallRemove key, LRUCache.Removed true => is_Some (dict key)
  | LRUCache.CallRemove _, LRUCache.Removed false => True
  | LRUCache.CallClear, LRUCache.Emptied => True
  | _, _ => False
  end.

Fixpoint replies_sound {K V : Type} `{EqDecision K}
    (calls : list (LRUCache.call K V)) (replies : list (LRUCache.reply V))
    (dict : K -> option V) : Prop :=
  match calls, replies with
  | [], [] => True
  | c :: calls', r :: replies' =>
      reply_sound c r dict /\
      replies_sound calls' replies' (LRUCache.dict_perform c dict)
  | _, _ => False
  end.

(** The access counters of a cache add up. *)
Definition accesses_add_up {K V : Type} (self : LRUCache.t K V) : Prop :=
  0 <= LRUCache.hit_count self /\
  0 <= LRUCache.miss_count self /\
  LRUCache.access_count self = LRUCache.hit_count self + LRUCache.miss_count self.

(* ===================================================================== *)
(** * Theorems *)
(* ===================================================================== *)

(* --------------------------------------------------------------------- *)
(** ** The state machine *)
(* --------------------------------------------------------------------- *)

Lemma is_valid_transition_table (source target : SystemState) :
  StateTransition.is_valid_transition source target = allowed_successor source target.
Proof. destruct source, target; reflexivity. Qed.

(** C1. [transition_to] on a target that the transition table does not allow
    from the current state returns false and leaves the machine as it was
    (current and previous state, counter, history, entry time); on an allowed
    target it returns true, records the previous state, moves to the target,
    adds one to the transition counter and appends one history entry with
    the new state, the timestamp and the reason. *)
Theorem transition_to_follows_table
    (self : StateMachine.t) (target : SystemState) (reason : string)
    (ck : StateMachine.stamp) :
  let r := StateMachine.transition_to target reason ck self in
  let ok := r.1.1 in
  let self' := r.1.2 in
  if allowed_successor (StateMachine.current_state self) target then
    ok = true /\
    StateMachine.previous_state self' = Some (StateMachine.current_state self) /\
    StateMachine.current_state self' = target /\
    StateMachine.transition_count self' = StateMachine.transition_count self + 1 /\
    StateMachine.state_history self' =
      StateMachine.state_history self ++
      [StateMachine.mk_entry (value target) (StateMachine.at_timestamp ck)
         (StateMachine.at_datetime ck) reason]
  else
    ok = false /\ self' = self.
Proof.
  cbv zeta. unfold StateMachine.transition_to.
  rewrite is_valid_transition_table.
  destruct (allowed_successor _ _); simpl; auto.
Qed.

Lemma history_agrees_init (initial : SystemState) (t0 : Q) (ck : StateMachine.stamp) :
  history_agrees (StateMachine.__init__ initial t0 ck).
Proof. repeat split; simpl; auto. Qed.

Lemma history_agrees_transition_to (m : StateMachine.t) target reason ck :
  history_agrees m ->
  history_agrees (StateMachine.transition_to target reason ck m).1.2.
Proof.
  intros (Hne & Hlast & Hcount). unfold StateMachine.transition_to.
  destruct (negb _); simpl; [repeat split; assumption |].
  repeat split; simpl.
  - intros H. by apply app_eq_nil in H as [_ ?].
  - by rewrite last_snoc.
  - rewrite length_app. simpl. lia.
Qed.

Lemma history_agrees_transitions calls : forall m,
  history_agrees m -> history_agrees (StateMachine.transitions calls m).2.
Proof.
  induction calls as [|[[target reason] ck] calls IH]; intros m Hm; [exact Hm|].
  simpl.
  pose proof (history_agrees_transition_to m target reason ck Hm) as Hstep.
  destruct (StateMachine.transition_to target reason ck m) as [[ok m'] ev].
  specialize (IH m' Hstep).
  destruct (StateMachine.transitions calls m') as [oks m'']. exact IH.
Qed.

(** C10. From construction onward, after any sequence of [transition_to]
    calls, the history is not empty, its last entry records the current
    state, and the transition counter is the length of the history minus
    one. The constructor leaves one entry (the initial state) and a counter
    of zero; a successful transition adds one entry and one to the counter,
    a failed one changes neither. *)
Theorem history_tracks_transitions
    (initial : SystemState) (t0 : Q) (ck0 : StateMachine.stamp)
    (calls : list (SystemState * string * StateMachine.stamp)) :
  let m0 := StateMachine.__init__ initial t0 ck0 in
  let m := (StateMachine.transitions calls m0).2 in
  (length (StateMachine.state_history m0) = 1%nat /\
   StateMachine.transition_count m0 = 0) /\
  (StateMachine.state_history m <> [] /\
   StateMachine.e_state <$> last (StateMachine.state_history m)
     = Some (value (StateMachine.current_state m)) /\
   StateMachine.transition_count m
     = Z.of_nat (length (StateMachine.state_history m)) - 1) /\
  (forall (m1 : StateMachine.t) target reason ck,
     let r := StateMachine.transition_to target reason ck m1 in
     let grown := if r.1.1 then 1 else 0 in
     Z.of_nat (length (StateMachine.state_history r.1.2))
       = Z.of_nat (length (StateMachine.state_history m1)) + grown /\
     StateMachine.transition_count r.1.2
       = StateMachine.transition_count m1 + grown).
Proof.
  cbv zeta. split; [split; reflexivity|]. split.
  - apply history_agrees_transitions, history_agrees_init.
  - intros m1 target reason ck. unfold StateMachine.transition_to.
    destruct (negb _); simpl; [lia|].
    rewrite length_app. simpl. lia.
Qed.

(* --------------------------------------------------------------------- *)
(** ** Comparisons of floats *)
(* --------------------------------------------------------------------- *)

Lemma Qgeb_le (x y : Q) : Qgeb x y = true <-> (y <= x)%Q.
Proof. unfold Qgeb. apply Qle_bool_iff. Qed.

Lemma Qgtb_lt (x y : Q) : Qgtb x y = true <-> (y < x)%Q.
Proof.
  unfold Qgtb. destruct (Qle_bool x y) eqn:E; simpl.
  - apply Qle_bool_iff in E. split; [discriminate | intros H; lra].
  - split; [intros _ | reflexivity].
    apply Qnot_le_lt. intros H. apply Qle_bool_iff in H. congruence.
Qed.

Lemma Qgeb_false_lt (x y : Q) : (x < y)%Q -> Qgeb x y = false.
Proof.
  intros H. destruct (Qgeb x y) eqn:E; [|reflexivity].
  apply Qgeb_le in E. lra.
Qed.

(* --------------------------------------------------------------------- *)
(** ** The alarm and its cooldown timer *)
(* --------------------------------------------------------------------- *)

Lemma can_trigger_iff (self : AlarmSystem.t) (now : Q) :
  AlarmSystem.can_trigger now self = true <->
  AlarmSystem.enabled self = true /\
  (AlarmSystem.cooldown_period self <= now - AlarmSystem.last_trigger_time self)%Q.
Proof.
  unfold AlarmSystem.can_trigger.
  destruct (AlarmSystem.enabled self); simpl.
  - rewrite Qgeb_le. tauto.
  - split; [discriminate | intros [? _]; discriminate].
Qed.

Lemma trigger_blocked (self : AlarmSystem.t) t_check t_stamp sound :
  AlarmSystem.can_trigger t_check self = false ->
  (AlarmSystem.trigger t_check t_stamp sound self).1 = self.
Proof. intros H. unfold AlarmSystem.trigger. by rewrite H. Qed.

Lemma trigger_fires (self : AlarmSystem.t) t_check t_stamp sound :
  AlarmSystem.can_trigger t_check self = true ->
  let self' := (AlarmSystem.trigger t_check t_stamp sound self).1 in
  AlarmSystem.is_active self' = true /\
  AlarmSystem.last_trigger_time self' = t_stamp /\
  AlarmSystem.trigger_count self' = AlarmSystem.trigger_count self + 1 /\
  AlarmSystem.enabled self' = AlarmSystem.enabled self /\
  AlarmSystem.cooldown_period self' = AlarmSystem.cooldown_period self.
Proof. intros H. unfold AlarmSystem.trigger. rewrite H. simpl. auto. Qed.

(** The alarm thread, when it ends, clears the active flag and nothing
    else. *)
Lemma thread_finished_keeps_timer (self : AlarmSystem.t) :
  let self' := AlarmSystem.thread_finished self in
  AlarmSystem.trigger_count self' = AlarmSystem.trigger_count self /\
  AlarmSystem.last_trigger_time self' = AlarmSystem.last_trigger_time self /\
  forall now, AlarmSystem.can_trigger now self' = AlarmSystem.can_trigger now self.
Proof. repeat split. Qed.

(** C5. [can_trigger] is true exactly when the timer is enabled and the time
    elapsed since [last_trigger_time] is at least the cooldown period.
    [trigger] changes nothing when [can_trigger] is false; otherwise it sets
    the active flag, stamps [last_trigger_time] and adds one to
    [trigger_count]. Hence, on a fresh timer whose first call fires, a second
    call within the cooldown window leaves [trigger_count] at 1 and a third
    call after the window brings it to 2. *)
Theorem cooldown_gates_trigger :
  (forall (self : AlarmSystem.t) (now : Q),
     AlarmSystem.can_trigger now self = true <->
     AlarmSystem.enabled self = true /\
     (AlarmSystem.cooldown_period self
        <= now - AlarmSystem.last_trigger_time self)%Q) /\
  (forall (self : AlarmSystem.t) (t_check t_stamp : Q) (sound : bool),
     let self' := (AlarmSystem.trigger t_check t_stamp sound self).1 in
     if AlarmSystem.can_trigger t_check self then
       AlarmSystem.is_active self' = true /\
       AlarmSystem.last_trigger_time self' = t_stamp /\
       AlarmSystem.trigger_count self' = AlarmSystem.trigger_count self + 1
     else self' = self) /\
  (forall (cfg : AlarmSystem.config) (pygame_ok : bool)
          (c1 s1 c2 s2 c3 s3 : Q) (x1 x2 x3 : bool),
     let a0 := AlarmSystem.__init__ cfg pygame_ok in
     let a1 := (AlarmSystem.trigger c1 s1 x1 a0).1 in
     let a2 := (AlarmSystem.trigger c2 s2 x2 a1).1 in
     let a3 := (AlarmSystem.trigger c3 s3 x3 a2).1 in
     AlarmSystem.can_trigger c1 a0 = true ->
     (c2 - s1 < AlarmSystem.cooldown_period a0)%Q ->
     (AlarmSystem.cooldown_period a0 <= c3 - s1)%Q ->
     AlarmSystem.trigger_count a1 = 1 /\
     AlarmSystem.trigger_count a2 = 1 /\
     AlarmSystem.trigger_count a3 = 2).
Proof.
  split; [exact can_trigger_iff|]. split.
  - intros self t_check t_stamp sound. cbv zeta.
    destruct (AlarmSystem.can_trigger t_check self) eqn:E.
    + pose proof (trigger_fires self t_check t_stamp sound E) as H.
      cbv zeta in H. tauto.
    + by apply trigger_blocked.
  - intros cfg pygame_ok c1 s1 c2 s2 c3 s3 x1 x2 x3 a0 a1 a2 a3 H1 H2 H3.
    pose proof (trigger_fires a0 c1 s1 x1 H1) as (_ & Hs1 & Hn1 & He1 & Hp1).
    fold a1 in Hs1, Hn1, He1, Hp1.
    assert (Hn0 : AlarmSystem.trigger_count a0 = 0) by reflexivity.
    assert (Hblocked : AlarmSystem.can_trigger c2 a1 = false).
    { unfold AlarmSystem.can_trigger. rewrite He1, Hs1, Hp1.
      destruct (AlarmSystem.enabled a0); simpl; [|reflexivity].
      by apply Qgeb_false_lt. }
    assert (Ha2 : a2 = a1) by (by apply trigger_blocked).
    assert (Hopen : AlarmSystem.can_trigger c3 a2 = true).
    { rewrite Ha2. apply can_trigger_iff. rewrite He1, Hs1, Hp1.
      apply can_trigger_iff in H1 as [? _]. auto. }
    pose proof (trigger_fires a2 c3 s3 x3 Hopen) as (_ & _ & Hn3 & _).
    fold a3 in Hn3. rewrite Ha2 in *. lia.
Qed.

(** An enabled timer with the default cooldown of 10 s: calls at 1000 s,
    1003 s and 1010 s. *)
Lemma cooldown_gates_trigger_witness :
  let a0 := AlarmSystem.__init__ (AlarmSystem.mk_config None None None None) false in
  let a1 := (AlarmSystem.trigger 1000 1000 false a0).1 in
  let a2 := (AlarmSystem.trigger 1003 1003 false a1).1 in
  let a3 := (AlarmSystem.trigger 1010 1010 false a2).1 in
  AlarmSystem.trigger_count a1 = 1 /\
  AlarmSystem.trigger_count a2 = 1 /\
  AlarmSystem.trigger_count a3 = 2.
Proof.
  apply (proj2 (proj2 cooldown_gates_trigger)
           (AlarmSystem.mk_config None None None None) false
           1000%Q 1000%Q 1003%Q 1003%Q 1010%Q 1010%Q false false false).
  - reflexivity.
  - reflexivity.
  - simpl. unfold Qle. simpl. lia.
Defined.

(* --------------------------------------------------------------------- *)
(** ** The area filter of the motion detector *)
(* --------------------------------------------------------------------- *)

Section AreaFilter.
Context {Frame Gray Contour : Type}.
Variable cv2_gray_blur : Z -> Frame -> Gray.
Variable cv2_absdiff : Gray -> Gray -> Gray.
Variable cv2_threshold : Q -> Gray -> Gray.
Variable cv2_dilate : Z -> Gray -> Gray.
Variable cv2_findContours : Gray -> list Contour.
Variable cv2_contourArea : Contour -> Q.

Abbreviation detector := (MotionDetector.t Gray).
Abbreviation filter_contours := (MotionDetector.filter_contours cv2_contourArea).
Abbreviation detect_motion :=
  (MotionDetector.detect_motion cv2_gray_blur cv2_absdiff cv2_threshold
     cv2_dilate cv2_findContours cv2_contourArea).

Lemma filter_contours_elem (contours : list Contour) (self : detector) (c : Contour) :
  c ∈ filter_contours contours self <->
  c ∈ contours /\ (MotionDetector.min_contour_area self < cv2_contourArea c)%Q.
Proof.
  induction contours as [|c' cs IH]; simpl.
  - split; [intros H | intros [H _]]; by apply elem_of_nil in H.
  - change (BooleanLogic.threshold_comparison (cv2_contourArea c')
              (MotionDetector.min_contour_area self) "greater")
      with (Qgtb (cv2_contourArea c') (MotionDetector.min_contour_area self)).
    destruct (Qgtb _ _) eqn:E.
    + apply Qgtb_lt in E. rewrite !elem_of_cons, IH.
      split; [intros [->|[? ?]]; auto | intros [[->|?] ?]; auto].
    + rewrite IH, elem_of_cons.
      split; [intros [? ?]; auto | intros [[->|?] ?]; auto].
      apply Qgtb_lt in H. congruence.
Qed.

Lemma filter_contours_sublist (contours : list Contour) (self : detector) :
  sublist (filter_contours contours self) contours.
Proof.
  induction contours as [|c cs IH]; simpl; [constructor|].
  destruct (BooleanLogic.threshold_comparison _ _ _); by constructor.
Qed.

Lemma filter_contours_same_minimum (contours : list Contour) (a b : detector) :
  MotionDetector.min_contour_area a = MotionDetector.min_contour_area b ->
  filter_contours contours a = filter_contours contours b.
Proof.
  intros H. induction contours as [|c cs IH]; simpl; [reflexivity|].
  by rewrite H, IH.
Qed.

(** C6, as the code has it. The area filter keeps, in their order, exactly
    the regions whose area is strictly greater than the configured minimum
    (500 unless configured): a region whose area equals the minimum is
    discarded along with the smaller ones. For a frame that has a
    predecessor the decision is [motion_present = (count of surviving
    regions) > 0], the survivors being those the filter keeps of the
    regions extracted from the frame; the first frame reports no motion. *)
Theorem area_filter_keeps_strictly_greater
    (contours : list Contour) (self : detector)
    (frame : Frame) (start_time end_time : Q) :
  (forall c : Contour,
     c ∈ filter_contours contours self <->
     c ∈ contours /\ (MotionDetector.min_contour_area self < cv2_contourArea c)%Q) /\
  sublist (filter_contours contours self) contours /\
  (forall c : Contour,
     (cv2_contourArea c == MotionDetector.min_contour_area self)%Q ->
     c ∉ filter_contours contours self) /\
  MotionDetector.min_contour_area
    (MotionDetector.__init__ (Gray := Gray)
       (MotionDetector.mk_config None None None None)) = 500%Q /\
  match MotionDetector.previous_frame self with
  | Some previous =>
      let regions :=
        cv2_findContours
          (cv2_dilate (MotionDetector.dilation_iterations self)
             (cv2_threshold (MotionDetector.threshold self)
                (cv2_absdiff
                   (cv2_gray_blur (MotionDetector.blur_kernel_size self) frame)
                   previous))) in
      let survivors := filter_contours regions self in
      (detect_motion frame start_time end_time self).1.1
        = bool_decide (Z.of_nat (length survivors) > 0)
  | None => (detect_motion frame start_time end_time self).1.1 = false
  end.
Proof.
  split; [intros c; apply filter_contours_elem|].
  split; [apply filter_contours_sublist|].
  split.
  { intros c Heq Hin. apply filter_contours_elem in Hin as [_ Hlt]. lra. }
  split; [reflexivity|].
  unfold MotionDetector.detect_motion, MotionDetector.compute_frame_difference.
  destruct (MotionDetector.previous_frame self) as [previous|] eqn:Hprev;
    cbn -[MotionDetector.filter_contours].
  - erewrite (filter_contours_same_minimum _ (MotionDetector.set_previous_frame _ self) self)
      by reflexivity.
    reflexivity.
  - reflexivity.
Qed.

End AreaFilter.

(** A single region of area 500 under the default configuration (a region
    is represented by its area). *)
Lemma area_filter_keeps_strictly_greater_witness :
  (500%Q : Q) ∉
    MotionDetector.filter_contours (fun area : Q => area) [500%Q]
      (MotionDetector.__init__ (Gray := unit)
         (MotionDetector.mk_config None None None None)).
Proof.
  refine (proj1 (proj2 (proj2
    (area_filter_keeps_strictly_greater (Frame := unit) (Gray := unit)
       (fun _ _ => tt) (fun _ _ => tt) (fun _ _ => tt) (fun _ _ => tt)
       (fun _ => []) (fun area : Q => area) [500%Q]
       (MotionDetector.__init__ (MotionDetector.mk_config None None None None))
       tt 0%Q 0%Q))) 500%Q _).
  reflexivity.
Defined.

(** C6, as stated, fails: with the default minimum of 500, a region whose
    area is exactly 500 is not below the minimum, and the filter discards
    it all the same. *)
Lemma area_equal_to_minimum_is_discarded :
  let self := MotionDetector.__init__ (Gray := unit)
                (MotionDetector.mk_config None None None None) in
  let region : Q := 500%Q in
  ~ (region < MotionDetector.min_contour_area self)%Q /\
  MotionDetector.filter_contours (fun area : Q => area) [region] self = [].
Proof.
  split; [|reflexivity].
  simpl. unfold Qlt. simpl. lia.
Qed.

(* --------------------------------------------------------------------- *)
(** ** The control step in the Cooldown state *)
(* --------------------------------------------------------------------- *)

(** C7, as the code has it. In the Cooldown state, with more time in the
    state than the cooldown period, a control step whose trigger is false
    moves the controller to Monitoring; a step whose trigger is true leaves
    the whole system as it is, in Cooldown. *)
Theorem cooldown_expires_without_trigger
    (self : AntiTheftSystem.t) (motion_detected unknown_face : bool)
    (env : AntiTheftSystem.answers) :
  StateMachine.current_state (AntiTheftSystem.state_machine self) = COOLDOWN ->
  (AlarmSystem.cooldown_period (AntiTheftSystem.alarm_system self)
     < AntiTheftSystem.now env
       - StateMachine.state_enter_time (AntiTheftSystem.state_machine self))%Q ->
  let quiet :=
    (AntiTheftSystem._handle_detection false motion_detected unknown_face env self).1 in
  let loud :=
    (AntiTheftSystem._handle_detection true motion_detected unknown_face env self).1 in
  StateMachine.current_state (AntiTheftSystem.state_machine quiet) = MONITORING /\
  StateMachine.previous_state (AntiTheftSystem.state_machine quiet) = Some COOLDOWN /\
  AntiTheftSystem.alarm_system quiet = AntiTheftSystem.alarm_system self /\
  loud = self.
Proof.
  intros Hstate Helapsed. cbv zeta.
  unfold AntiTheftSystem._handle_detection, StateMachine.get_current_state,
    StateMachine.get_time_in_state.
  rewrite Hstate.
  apply Qgtb_lt in Helapsed. rewrite Helapsed.
  destruct self as [m a armed]. simpl in *.
  unfold AntiTheftSystem.with_machine, StateMachine.transition_to.
  rewrite Hstate. simpl. auto.
Qed.

(** A controller brought to Cooldown through Monitoring, Alert and Alarm,
    with the default cooldown of 10 s, stepped 980 s after it entered
    Cooldown. *)
Lemma cooldown_expires_without_trigger_witness :
  let tick := StateMachine.mk_stamp 20 "2024-01-01 00:00:20" 20 in
  let machine :=
    (StateMachine.transitions
       [(MONITORING, "System started", tick); (ALERT, "Threat detected", tick);
        (ALARM, "Confirmed threat", tick); (COOLDOWN, "Alarm triggered", tick)]
       (StateMachine.__init__ IDLE 0 tick)).2 in
  let alarm := AlarmSystem.__init__ (AlarmSystem.mk_config None None None None) false in
  let self := AntiTheftSystem.mk machine alarm true in
  let later := StateMachine.mk_stamp 1000 "2024-01-01 00:16:40" 1000 in
  let env := AntiTheftSystem.mk_answers 1000 later 1000 1000 false None later in
  StateMachine.current_state
    (AntiTheftSystem.state_machine
       (AntiTheftSystem._handle_detection false false false env self).1) = MONITORING.
Proof.
  cbv zeta.
  refine (proj1 (cooldown_expires_without_trigger _ false false _ _ _));
    reflexivity.
Defined.

(** C7, as stated, fails for a true trigger: the same controller, in
    Cooldown for 980 s with a cooldown period of 10 s, stays in Cooldown
    when the step is taken with the trigger raised. *)
Lemma cooldown_persists_under_trigger :
  let tick := StateMachine.mk_stamp 20 "2024-01-01 00:00:20" 20 in
  let machine :=
    (StateMachine.transitions
       [(MONITORING, "System started", tick); (ALERT, "Threat detected", tick);
        (ALARM, "Confirmed threat", tick); (COOLDOWN, "Alarm triggered", tick)]
       (StateMachine.__init__ IDLE 0 tick)).2 in
  let alarm := AlarmSystem.__init__ (AlarmSystem.mk_config None None None None) false in
  let self := AntiTheftSystem.mk machine alarm true in
  let later := StateMachine.mk_stamp 1000 "2024-01-01 00:16:40" 1000 in
  let env := AntiTheftSystem.mk_answers 1000 later 1000 1000 false None later in
  StateMachine.current_state machine = COOLDOWN /\
  (AlarmSystem.cooldown_period alarm
     < AntiTheftSystem.now env - StateMachine.state_enter_time machine)%Q /\
  StateMachine.current_state
    (AntiTheftSystem.state_machine
       (AntiTheftSystem._handle_detection true true false env self).1) = COOLDOWN /\
  StateMachine.current_state
    (AntiTheftSystem.state_machine
       (AntiTheftSystem._handle_detection true true false env self).1) <> MONITORING.
Proof.
  cbv zeta. split; [reflexivity|]. split; [reflexivity|].
  split; [reflexivity | discriminate].
Qed.

(* --------------------------------------------------------------------- *)
(** ** Construction with a capacity out of range *)
(* --------------------------------------------------------------------- *)

(** C8, as the code has it. The constructors check nothing: a ring buffer
    and a cache of capacity zero (or less) are built like any other, and the
    error comes with the first use. [write] on a fresh buffer of capacity
    zero raises ZeroDivisionError, having already counted an overflow; on a
    fresh buffer of negative capacity it raises IndexError; [put] on a fresh
    cache of capacity zero or less raises KeyError. *)
Theorem zero_capacity_fails_at_first_use :
  (forall (Frame : Type) (frame : Frame),
     CircularFrameBuffer.write frame (CircularFrameBuffer.__init__ 0)
     = Raise ZeroDivisionError
         (CircularFrameBuffer.set_overflow_count 1 (CircularFrameBuffer.__init__ 0))) /\
  (forall (Frame : Type) (frame : Frame) (cap : Z),
     cap < 0 ->
     CircularFrameBuffer.write frame (CircularFrameBuffer.__init__ cap)
     = Raise IndexError (CircularFrameBuffer.__init__ cap)) /\
  (forall (K V : Type) (eq_dec : EqDecision K) (key : K) (val : V) (cap : Z),
     cap <= 0 ->
     LRUCache.put key val (LRUCache.__init__ cap)
     = Raise KeyError (LRUCache.__init__ cap)).
Proof.
  split; [reflexivity|]. split.
  - intros Frame frame cap Hcap.
    unfold CircularFrameBuffer.write, CircularFrameBuffer.__init__.
    unfold mbind, M_bind, this. simpl.
    rewrite bool_decide_eq_false_2 by lia. simpl.
    unfold py_setitem, py_index. rewrite length_replicate.
    rewrite bool_decide_eq_false_2 by lia.
    rewrite bool_decide_eq_false_2 by lia.
    reflexivity.
  - intros K V eq_dec key val cap Hcap.
    unfold LRUCache.put, LRUCache.__init__.
    unfold mbind, M_bind, this. simpl.
    rewrite bool_decide_eq_true_2 by lia. reflexivity.
Qed.

Lemma zero_capacity_fails_at_first_use_witness :
  CircularFrameBuffer.write 7%nat (CircularFrameBuffer.__init__ (-1))
    = Raise IndexError (CircularFrameBuffer.__init__ (-1)) /\
  LRUCache.put "face1" "John" (LRUCache.__init__ 0)
    = Raise KeyError (LRUCache.__init__ 0).
Proof.
  split.
  - apply (proj1 (proj2 zero_capacity_fails_at_first_use) nat 7%nat (-1)). lia.
  - apply (proj2 (proj2 zero_capacity_fails_at_first_use)
             string string _ "face1" "John" 0). lia.
Defined.

(** C8, as stated, fails: building a buffer and a cache of capacity zero
    raises nothing, and each fails inside its first operation. *)
Lemma zero_capacity_is_accepted :
  let buffer := CircularFrameBuffer.__init__ (Frame := nat) 0 in
  let cache := LRUCache.__init__ (K := string) (V := string) 0 in
  CircularFrameBuffer.capacity buffer = 0 /\
  LRUCache.capacity cache = 0 /\
  (exists s, CircularFrameBuffer.write 7%nat buffer = Raise ZeroDivisionError s) /\
  (exists s, LRUCache.put "face1" "John" cache = Raise KeyError s).
Proof.
  cbv zeta. split; [reflexivity|]. split; [reflexivity|].
  split; eexists; reflexivity.
Qed.

(* --------------------------------------------------------------------- *)
(** ** The ring buffer *)
(* --------------------------------------------------------------------- *)

Lemma mod_shift_inj (c t i j : Z) :
  1 <= c -> 0 <= i < c -> 0 <= j < c ->
  (t + i) mod c = (t + j) mod c -> i = j.
Proof.
  intros Hc Hi Hj Heq.
  pose proof (Z.div_mod (t + i) c ltac:(lia)) as Di.
  pose proof (Z.div_mod (t + j) c ltac:(lia)) as Dj.
  rewrite Heq in Di.
  assert ((t + i) `div` c = (t + j) `div` c) by nia.
  nia.
Qed.

Lemma py_index_in_range (n : nat) (i : Z) :
  0 <= i < Z.of_nat n -> py_index n i = Some (Z.to_nat i).
Proof. intros H. unfold py_index. by rewrite bool_decide_eq_true_2. Qed.

Section RingBufferFacts.
Context {Frame : Type}.
Implicit Types (self : CircularFrameBuffer.t Frame) (q : list Frame) (x : Frame).

Import CircularFrameBuffer.

(** What [write] does to a well-formed buffer, field by field. *)
Lemma write_returns self q x :
  holds self q ->
  let full := bool_decide (size self = capacity self) in
  write x self =
  Return true
    (mk (capacity self)
        (<[Z.to_nat (head self) := Some x]> (buffer self))
        ((head self + 1) mod capacity self)
        (if full then (tail self + 1) mod capacity self else tail self)
        (if full then size self - 1 + 1 else size self + 1)
        (write_count self + 1)
        (read_count self)
        (if full then overflow_count self + 1 else overflow_count self)).
Proof.
  intros (Hcap & Hlen & Htail & Hsize & Hle & Hhead & Hslots) full.
  assert (Hh : 0 <= head self < capacity self).
  { rewrite Hhead. apply Z.mod_pos_bound. lia. }
  unfold write, mbind, M_bind, this, modify, ret, mret, M_ret, py_mod, py_setitem.
  subst full. destruct self as [cap buf h tl sz wc rc oc]. simpl in *.
  case_bool_decide as Hfull; simpl.
  - rewrite (bool_decide_eq_false_2 (cap = 0)) by lia. simpl.
    rewrite py_index_in_range by lia. simpl.
    rewrite (bool_decide_eq_false_2 (cap = 0)) by lia. reflexivity.
  - rewrite py_index_in_range by lia. simpl.
    rewrite (bool_decide_eq_false_2 (cap = 0)) by lia. reflexivity.
Qed.


(** The live frames after a [write]: the new frame goes last, and a full
    buffer first loses its oldest frame. *)
Lemma write_holds self q x :
  holds self q ->
  holds (state_of (write x self))
        (if bool_decide (size self = capacity self) then drop 1 q ++ [x]
         else q ++ [x]).
Proof.
  intros H. rewrite (write_returns self q x H). simpl.
  destruct H as (Hcap & Hlen & Htail & Hsize & Hle & Hhead & Hslots).
  assert (Hh : 0 <= head self < capacity self).
  { rewrite Hhead. apply Z.mod_pos_bound. lia. }
  unfold holds, slot_of. simpl.
  case_bool_decide as Hfull.
  - (* full: the oldest frame is overwritten *)
    assert (Hht : head self = tail self).
    { rewrite Hhead, Hfull. rewrite <- (Z.mul_1_l (capacity self)) at 1.
      rewrite Z.mod_add by lia. apply Z.mod_small. lia. }
    assert (Hq : length (drop 1 q ++ [x]) = length q).
    { rewrite length_app, length_drop. simpl. lia. }
    split; [lia|]. split; [by rewrite length_insert|].
    split; [apply Z.mod_pos_bound; lia|].
    split; [rewrite Hq; lia|]. split; [lia|].
    split.
    { rewrite Hht. replace (size self - 1 + 1) with (1 * capacity self) by lia.
      rewrite Z.mod_add by lia. by rewrite Z.mod_mod by lia. }
    intros i y Hi.
    assert (Hilt : (i < length q)%nat).
    { apply lookup_lt_Some in Hi. lia. }
    rewrite Zplus_mod_idemp_l.
    destruct (decide (i = (length q - 1)%nat)) as [->|Hne].
    + rewrite lookup_app_r in Hi by (rewrite length_drop; lia).
      rewrite length_drop in Hi.
      replace (length q - 1 - (length q - 1))%nat with 0%nat in Hi by lia.
      simpl in Hi. injection Hi as <-.
      replace (tail self + 1 + Z.of_nat (length q - 1))
        with (tail self + 1 * capacity self) by lia.
      rewrite Z.mod_add by lia. rewrite Z.mod_small by lia.
      rewrite Hht. apply list_lookup_insert_eq. lia.
    + rewrite lookup_app_l in Hi by (rewrite length_drop; lia).
      rewrite lookup_drop in Hi.
      apply Hslots in Hi. unfold slot_of in Hi.
      replace (tail self + 1 + Z.of_nat i)
        with (tail self + Z.of_nat (1 + i)) by lia.
      rewrite list_lookup_insert_ne; [exact Hi|].
      rewrite Hht. intros Heq.
      assert (Hm : (tail self + 0) mod capacity self
                   = (tail self + Z.of_nat (1 + i)) mod capacity self).
      { rewrite Z.add_0_r, Z.mod_small by lia.
        apply Z2Nat.inj in Heq; [exact Heq | lia |].
        apply Z.mod_pos_bound. lia. }
      apply mod_shift_inj in Hm; lia.
  - (* room left: the frame is appended *)
    split; [lia|]. split; [by rewrite length_insert|].
    split; [lia|].
    split; [rewrite length_app; simpl; lia|]. split; [lia|].
    split.
    { rewrite Hhead, Zplus_mod_idemp_l. f_equal. lia. }
    intros i y Hi.
    destruct (decide (i = length q)) as [->|Hne].
    + rewrite lookup_app_r in Hi by lia.
      replace (length q - length q)%nat with 0%nat in Hi by lia.
      simpl in Hi. injection Hi as <-.
      rewrite <- Hsize, <- Hhead. apply list_lookup_insert_eq. lia.
    + assert (Hilt : (i < length q)%nat).
      { apply lookup_lt_Some in Hi. rewrite length_app in Hi. simpl in Hi. lia. }
      rewrite lookup_app_l in Hi by lia.
      apply Hslots in Hi. unfold slot_of in Hi.
      rewrite list_lookup_insert_ne; [exact Hi|].
      rewrite Hhead. intros Heq.
      apply Z2Nat.inj in Heq; [| apply Z.mod_pos_bound; lia | apply Z.mod_pos_bound; lia].
      apply mod_shift_inj in Heq; lia.
Qed.


Lemma write_counters self q x :
  holds self q ->
  let self' := state_of (write x self) in
  let full := bool_decide (size self = capacity self) in
  returned (write x self) = Some true /\
  capacity self' = capacity self /\
  size self' = (if full then size self else size self + 1) /\
  overflow_count self' = (if full then overflow_count self + 1 else overflow_count self) /\
  write_count self' = write_count self + 1 /\
  read_count self' = read_count self.
Proof.
  intros H. cbv zeta. rewrite (write_returns self q x H). simpl.
  case_bool_decide; repeat split; lia.
Qed.

(** What [read] does to a buffer that holds at least one frame. *)
Lemma read_returns self q x :
  holds self (x :: q) ->
  read self =
  Return (Some x)
    (mk (capacity self)
        (<[Z.to_nat (tail self) := None]> (buffer self))
        (head self)
        ((tail self + 1) mod capacity self)
        (size self - 1)
        (write_count self)
        (read_count self + 1)
        (overflow_count self)).
Proof.
  intros (Hcap & Hlen & Htail & Hsize & Hle & Hhead & Hslots).
  pose proof (Hslots 0%nat x eq_refl) as H0. unfold slot_of in H0.
  rewrite Z.add_0_r, Z.mod_small in H0 by lia.
  unfold read, mbind, M_bind, this, modify, ret, mret, M_ret, py_mod,
    py_getitem, py_setitem.
  destruct self as [cap buf h tl sz wc rc oc]. simpl in *.
  rewrite bool_decide_eq_false_2 by lia.
  rewrite py_index_in_range by lia. rewrite H0. simpl.
  rewrite (bool_decide_eq_false_2 (cap = 0)) by lia. reflexivity.
Qed.

Lemma read_holds self q x :
  holds self (x :: q) -> holds (state_of (read self)) q.
Proof.
  intros H. rewrite (read_returns self q x H). simpl.
  destruct H as (Hcap & Hlen & Htail & Hsize & Hle & Hhead & Hslots).
  simpl in Hsize.
  unfold holds, slot_of. simpl.
  split; [lia|]. split; [by rewrite length_insert|].
  split; [apply Z.mod_pos_bound; lia|].
  split; [lia|]. split; [lia|].
  split.
  { rewrite Hhead, Zplus_mod_idemp_l. f_equal. lia. }
  intros i y Hi.
  assert (Hilt : (i < length q)%nat) by (by apply lookup_lt_Some in Hi).
  rewrite Zplus_mod_idemp_l.
  pose proof (Hslots (S i) y Hi) as Hs. unfold slot_of in Hs.
  replace (tail self + 1 + Z.of_nat i) with (tail self + Z.of_nat (S i)) by lia.
  rewrite list_lookup_insert_ne; [exact Hs|].
  intros Heq.
  assert (Hm : (tail self + 0) mod capacity self
               = (tail self + Z.of_nat (S i)) mod capacity self).
  { rewrite Z.add_0_r, Z.mod_small by lia.
    apply Z2Nat.inj in Heq; [exact Heq | lia |].
    apply Z.mod_pos_bound. lia. }
  apply mod_shift_inj in Hm; lia.
Qed.

(** [get_latest] answers the newest frame and changes nothing. *)
Lemma get_latest_returns self q x :
  holds self (q ++ [x]) ->
  get_latest self = Return (Some x) self.
Proof.
  intros (Hcap & Hlen & Htail & Hsize & Hle & Hhead & Hslots).
  rewrite length_app in Hsize. simpl in Hsize.
  pose proof (Hslots (length q) x) as Hs.
  rewrite lookup_app_r, Nat.sub_diag in Hs by lia.
  specialize (Hs eq_refl). unfold slot_of in Hs.
  assert (Hidx : (head self - 1) mod capacity self
                 = (tail self + Z.of_nat (length q)) mod capacity self).
  { rewrite Hhead, Zminus_mod_idemp_l. f_equal. lia. }
  unfold get_latest, mbind, M_bind, this, ret, mret, M_ret, py_mod, py_getitem.
  rewrite bool_decide_eq_false_2 by lia.
  rewrite (bool_decide_eq_false_2 (capacity self = 0)) by lia. simpl.
  rewrite Hidx.
  rewrite py_index_in_range
    by (rewrite Hlen, Z2Nat.id by lia; apply Z.mod_pos_bound; lia).
  by rewrite Hs.
Qed.

Lemma init_holds (cap : Z) :
  1 <= cap -> holds (__init__ (Frame := Frame) cap) [].
Proof.
  intros Hcap. unfold holds, __init__. simpl.
  split; [lia|]. split; [by rewrite length_replicate|].
  split; [lia|]. split; [lia|]. split; [lia|].
  split; [by rewrite Z.mod_0_l by lia|].
  intros i y Hi. by rewrite lookup_nil in Hi.
Qed.

(** A run of writes on a well-formed buffer returns; the buffer ends with
    the newest [capacity] frames, and every write beyond the capacity is
    counted as one overflow. *)
Lemma writes_holds (frames : list Frame) : forall self q,
  holds self q ->
  let kept := q ++ frames in
  let excess := (length kept - Z.to_nat (capacity self))%nat in
  returned (writes frames self) = Some tt /\
  holds (state_of (writes frames self)) (drop excess kept) /\
  capacity (state_of (writes frames self)) = capacity self /\
  overflow_count (state_of (writes frames self))
    = overflow_count self + Z.of_nat excess.
Proof.
  induction frames as [|x xs IH]; intros self q H; cbv zeta.
  - simpl. rewrite app_nil_r.
    assert (Hfit : (length q - Z.to_nat (capacity self) = 0)%nat).
    { destruct H as (? & ? & ? & ? & ? & ?). lia. }
    rewrite Hfit. simpl.
    split; [reflexivity|]. split; [exact H|]. split; [reflexivity | lia].
  - pose proof (write_holds self q x H) as Hw.
    pose proof (write_counters self q x H) as (Hret & Hc & Hs & Ho & _).
    assert (Hsz : size self = Z.of_nat (length q) /\ 1 <= capacity self
                  /\ size self <= capacity self).
    { destruct H as (? & ? & ? & ? & ? & ?). auto. }
    destruct Hsz as (Hsz & Hcap & Hle).
    simpl. unfold mbind, M_bind.
    destruct (write x self) as [b self1|e self1]; [|discriminate Hret].
    simpl in *.
    specialize (IH self1 _ Hw). cbv zeta in IH.
    destruct IH as (IHret & IHholds & IHcap & IHover).
    rewrite Hc in *.
    split; [exact IHret|].
    case_bool_decide as Hfull.
    + (* the write overflowed *)
      destruct q as [|a q']; [simpl in *; lia|].
      assert (Hlen : S (length q') = Z.to_nat (capacity self))
        by (simpl in *; lia).
      rewrite <- app_assoc in IHholds, IHover.
      cbn [drop app length] in *.
      rewrite drop_0 in IHholds, IHover.
      rewrite length_app in *. cbn [length] in *.
      replace (S (length q' + S (length xs)) - Z.to_nat (capacity self))%nat
        with (S (length q' + S (length xs) - Z.to_nat (capacity self)))
        by lia.
      split; [exact IHholds|]. split; [exact IHcap | lia].
    + rewrite <- app_assoc in IHholds, IHover. simpl in IHholds, IHover.
      split; [exact IHholds|]. split; [exact IHcap | lia].
Qed.

(** Reading as many times as there are live frames returns them, oldest
    first, and empties the buffer. *)
Lemma reads_holds (q : list Frame) : forall self,
  holds self q ->
  returned (reads (length q) self) = Some (Some <$> q) /\
  holds (state_of (reads (length q) self)) [].
Proof.
  induction q as [|x q IH]; intros self H; [by split|].
  pose proof (read_holds self q x H) as Hr.
  simpl. unfold mbind, M_bind.
  rewrite (read_returns self q x H) in *. simpl in Hr.
  destruct (IH _ Hr) as (IHret & IHholds).
  destruct (reads (length q) _) as [outs self2|e self2]; [|discriminate IHret].
  simpl in *. injection IHret as ->. by split.
Qed.


(** C2, as the code has it. After M > N writes to a fresh buffer of
    capacity N >= 1, with no read in between: the run returns, [size] is N,
    [overflow_count] is M - N, [get_latest] answers the M-th frame, and the
    buffer holds the newest N frames. Each write to a full buffer drops the
    oldest frame, leaves [size] at N and adds one to [overflow_count]; like
    every write it also adds one to [write_count], and it leaves
    [read_count] alone. *)
Theorem overflow_keeps_newest (N : Z) (frames : list Frame) :
  1 <= N ->
  Z.of_nat (length frames) > N ->
  let M := Z.of_nat (length frames) in
  let result := writes frames (__init__ N) in
  let self := state_of result in
  (returned result = Some tt /\
   size self = N /\
   overflow_count self = M - N /\
   get_latest self = Return (last frames) self /\
   holds self (drop (Z.to_nat (M - N)) frames)) /\
  (forall (b : CircularFrameBuffer.t Frame) (q : list Frame) (x : Frame),
     holds b q ->
     size b = capacity b ->
     let b' := state_of (write x b) in
     returned (write x b) = Some true /\
     holds b' (drop 1 q ++ [x]) /\
     size b' = capacity b /\
     overflow_count b' = overflow_count b + 1 /\
     write_count b' = write_count b + 1 /\
     read_count b' = read_count b).
Proof.
  intros HN HM M result self. subst result self. split.
  - pose proof (writes_holds frames (__init__ N) [] (init_holds N HN)) as H.
    cbv zeta in H. simpl in H. destruct H as (Hret & Hholds & Hcap & Hover).
    set (self := state_of (writes frames (__init__ N))) in *.
    replace (length frames - Z.to_nat N)%nat with (Z.to_nat (M - N)) in *
      by (subst M; lia).
    assert (Hsize : size self = N).
    { destruct Hholds as (_ & _ & _ & Hs & _). rewrite Hs, length_drop.
      subst M. lia. }
    split; [exact Hret|]. split; [exact Hsize|].
    split; [rewrite Hover; subst M; lia|].
    split; [|exact Hholds].
    destruct (drop (Z.to_nat (M - N)) frames) as [|y l] eqn:Hd using rev_ind.
    { destruct Hholds as (_ & _ & _ & Hs & _). simpl in Hs. lia. }
    assert (Hlast : last frames = Some y).
    { rewrite <- (take_drop (Z.to_nat (M - N)) frames), Hd.
      by rewrite app_assoc, last_snoc. }
    rewrite Hlast. by apply (get_latest_returns self l y).
  - intros b q x Hb Hfull b'.
    pose proof (write_holds b q x Hb) as Hw.
    pose proof (write_counters b q x Hb) as Hc. cbv zeta in Hc.
    rewrite bool_decide_eq_true_2 in Hw, Hc by exact Hfull.
    subst b'. destruct Hc as (Hret & Hcap & Hsize & Hover & Hwc & Hrc).
    split; [exact Hret|]. split; [exact Hw|]. split; [lia|].
    split; [exact Hover|]. split; [exact Hwc | exact Hrc].
Qed.

(** C9. Writing N frames to a fresh buffer of capacity N >= 1 and reading
    N times returns exactly the frames written, in the order written;
    nothing was dropped and the buffer is empty again. *)
Theorem write_then_read_round_trip (N : Z) (frames : list Frame) :
  1 <= N ->
  Z.of_nat (length frames) = N ->
  let written := writes frames (__init__ N) in
  let drained := reads (length frames) (state_of written) in
  returned written = Some tt /\
  returned drained = Some (Some <$> frames) /\
  overflow_count (state_of drained) = 0 /\
  size (state_of drained) = 0.
Proof.
  intros HN HM written drained. subst written drained.
  pose proof (writes_holds frames (__init__ N) [] (init_holds N HN)) as H.
  cbv zeta in H. simpl in H. destruct H as (Hret & Hholds & Hcap & Hover).
  replace (length frames - Z.to_nat N)%nat with 0%nat in * by lia.
  rewrite drop_0 in Hholds.
  destruct (reads_holds frames _ Hholds) as (Hread & Hempty).
  split; [exact Hret|]. split; [exact Hread|]. split.
  - assert (Hkeep : forall (q : list Frame) b, holds b q ->
              overflow_count (state_of (reads (length q) b)) = overflow_count b).
    { clear. induction q as [|x q IH]; intros b Hb; [reflexivity|].
      pose proof (read_holds b q x Hb) as Hr.
      simpl. unfold mbind, M_bind.
      rewrite (read_returns b q x Hb) in *. simpl in Hr.
      specialize (IH _ Hr).
      destruct (reads (length q) _) as [outs b2|e b2]; simpl in *; exact IH. }
    rewrite (Hkeep frames _ Hholds). rewrite Hover. reflexivity.
  - by destruct Hempty as (_ & _ & _ & Hs & _).
Qed.

End RingBufferFacts.

(** Seven writes to a buffer of capacity five, and an eighth. *)
Lemma overflow_keeps_newest_witness :
  let self := state_of (CircularFrameBuffer.writes [1; 2; 3; 4; 5; 6; 7]
                          (CircularFrameBuffer.__init__ 5)) in
  let self' := state_of (CircularFrameBuffer.write 8 self) in
  (CircularFrameBuffer.size self = 5 /\
   CircularFrameBuffer.overflow_count self = 2 /\
   CircularFrameBuffer.get_latest self = Return (Some 7) self) /\
  (CircularFrameBuffer.holds self' [4; 5; 6; 7; 8] /\
   CircularFrameBuffer.size self' = 5 /\
   CircularFrameBuffer.overflow_count self' = 3).
Proof.
  pose proof (overflow_keeps_newest 5 [1; 2; 3; 4; 5; 6; 7]
                ltac:(lia) ltac:(simpl; lia)) as [H1 H2].
  cbv zeta in H1. destruct H1 as (_ & Hs & Ho & Hl & Hholds).
  split; [split; [exact Hs | split; [exact Ho | exact Hl]]|].
  specialize (H2 _ [3; 4; 5; 6; 7] 8 Hholds ltac:(reflexivity)).
  cbv zeta in H2. destruct H2 as (_ & Hh & Hs' & Ho' & _).
  split; [exact Hh|]. split; [exact Hs' | exact Ho'].
Defined.

(** Three frames through a buffer of capacity three. *)
Lemma write_then_read_round_trip_witness :
  returned
    (CircularFrameBuffer.reads 3
       (state_of (CircularFrameBuffer.writes ["a"; "b"; "c"]
                    (CircularFrameBuffer.__init__ 3))))
  = Some [Some "a"; Some "b"; Some "c"].
Proof.
  exact (proj1 (proj2 (write_then_read_round_trip 3 ["a"; "b"; "c"]
                         ltac:(lia) ltac:(reflexivity)))).
Defined.

(** C2, as stated, fails on "increments only the overflow counter": in a
    buffer of capacity one, the second write finds the buffer full, and it
    adds one to [write_count] as well as to [overflow_count]. *)
Lemma overflowing_write_counts_as_write :
  let b1 := state_of (CircularFrameBuffer.write "first" (CircularFrameBuffer.__init__ 1)) in
  let b2 := state_of (CircularFrameBuffer.write "second" b1) in
  CircularFrameBuffer.size b1 = CircularFrameBuffer.capacity b1 /\
  CircularFrameBuffer.overflow_count b2 = CircularFrameBuffer.overflow_count b1 + 1 /\
  CircularFrameBuffer.write_count b2 = CircularFrameBuffer.write_count b1 + 1 /\
  CircularFrameBuffer.write_count b2 <> CircularFrameBuffer.write_count b1.
Proof. cbv zeta. repeat split. discriminate. Qed.

(* --------------------------------------------------------------------- *)
(** ** The temporal smoothing of detections *)
(* --------------------------------------------------------------------- *)

(** The window after a call: the history with the new observation, less its
    oldest entry once it is longer than [history_length]. *)
Lemma smoothing_window (self : FaceRecognizer.t) names locs :
  let history :=
    FaceRecognizer.face_history self
    ++ [FaceRecognizer.mk_frame_data names locs (FaceRecognizer.len names)] in
  FaceRecognizer.face_history
    (FaceRecognizer._apply_temporal_smoothing names locs self).2
  = if bool_decide (FaceRecognizer.len history > FaceRecognizer.history_length self)
    then drop 1 history else history.
Proof.
  cbv zeta. unfold FaceRecognizer._apply_temporal_smoothing. simpl.
  repeat case_bool_decide; reflexivity.
Qed.

(** C4, as the code has it. With a window of 5 and a minimum of 3
    observations: once the window holds at least 3 observations, the raw
    observation becomes the stable result exactly when its count differs by
    at most 1 from the median count of the window truncated to an integer;
    otherwise the stable result of before is returned and kept. For the raw
    counts 0, 0, 0, 5, 0 the fourth observation is not accepted: the output
    stays the stable result of before, the third observation. *)
Theorem smoothing_follows_truncated_median
    (self : FaceRecognizer.t) (names : list string)
    (locs : list FaceRecognizer.location) :
  FaceRecognizer.history_length self = 5 ->
  FaceRecognizer.min_confidence_frames self = 3 ->
  let r := FaceRecognizer._apply_temporal_smoothing names locs self in
  let window := FaceRecognizer.face_history r.2 in
  3 <= FaceRecognizer.len window ->
  let stable_count := py_int (np_median (map FaceRecognizer.count window)) in
  (if bool_decide (Z.abs (FaceRecognizer.len names - stable_count) <= 1) then
     r.1 = (names, locs) /\
     FaceRecognizer.last_stable_names r.2 = names /\
     FaceRecognizer.last_stable_faces r.2 = locs
   else
     r.1 = (FaceRecognizer.last_stable_names self,
            FaceRecognizer.last_stable_faces self) /\
     FaceRecognizer.last_stable_names r.2 = FaceRecognizer.last_stable_names self /\
     FaceRecognizer.last_stable_faces r.2 = FaceRecognizer.last_stable_faces self) /\
  (forall (l1 l2 l3 l4 l5 : list FaceRecognizer.location)
          (n1 n2 n3 n4 n5 : string),
     let raw := [([], l1); ([], l2); ([], l3);
                 ([n1; n2; n3; n4; n5], l4); ([], l5)] in
     let outs := (FaceRecognizer.smooth_all raw FaceRecognizer.__init__).1 in
     let after4 := (FaceRecognizer.smooth_all (take 4 raw) FaceRecognizer.__init__).2 in
     outs !! 3%nat = Some ([], l3) /\
     outs !! 2%nat = Some ([], l3) /\
     FaceRecognizer.last_stable_names after4 = [] /\
     FaceRecognizer.last_stable_faces after4 = l3).
Proof.
  intros Hlen Hmin r window Hwin stable_count. split.
  - subst stable_count window r.
    pose proof (smoothing_window self names locs) as Hw. cbv zeta in Hw.
    revert Hwin. rewrite Hw. clear Hw.
    unfold FaceRecognizer._apply_temporal_smoothing. simpl.
    set (history := if bool_decide _ then _ else _).
    intros Hwin. rewrite Hmin.
    rewrite (bool_decide_eq_false_2 (FaceRecognizer.len history < 3)) by lia.
    case_bool_decide; simpl; auto.
  - intros. cbv zeta. repeat split.
Qed.

(** The third zero of the counts 0, 0, 0: the window then holds three
    observations and the raw one is accepted. *)
Lemma smoothing_follows_truncated_median_witness :
  let self :=
    (FaceRecognizer.smooth_all [([], []); ([], [])] FaceRecognizer.__init__).2 in
  let r := FaceRecognizer._apply_temporal_smoothing [] [] self in
  r.1 = ([], []) /\
  FaceRecognizer.last_stable_names r.2 = [] /\
  FaceRecognizer.last_stable_faces r.2 = [].
Proof.
  cbv zeta.
  pose proof (proj1 (smoothing_follows_truncated_median
    (FaceRecognizer.smooth_all [([], []); ([], [])] FaceRecognizer.__init__).2
    [] [] eq_refl eq_refl ltac:(vm_compute; discriminate))) as H.
  exact H.
Defined.

(** C4, as stated, fails where the median is not an integer. For the raw
    counts 1, 2, 5, 0 the window at the fourth observation is [1; 2; 5; 0],
    whose median is 3/2; the count 0 differs from it by more than 1, and the
    observation is accepted all the same, replacing the stable result of
    before (the second observation), because the code compares with
    [int(3/2) = 1]. *)
Lemma half_integer_median_is_truncated :
  let at_ (k : Z) : FaceRecognizer.location := (k, k, k, k) in
  let raw := [(["a"], [at_ 1]);
              (["a"; "b"], [at_ 1; at_ 2]);
              (["a"; "b"; "c"; "d"; "e"], [at_ 1; at_ 2; at_ 3; at_ 4; at_ 5])] in
  let before := (FaceRecognizer.smooth_all raw FaceRecognizer.__init__).2 in
  let r := FaceRecognizer._apply_temporal_smoothing [] [] before in
  let window := map FaceRecognizer.count (FaceRecognizer.face_history r.2) in
  window = [1; 2; 5; 0] /\
  (np_median window == 3 # 2)%Q /\
  ~ (Qabs (inject_Z (FaceRecognizer.len ([] : list string)) - np_median window) <= 1)%Q /\
  FaceRecognizer.last_stable_names before = ["a"; "b"] /\
  r.1 = ([], []) /\
  FaceRecognizer.last_stable_names r.2 = [].
Proof.
  cbv zeta. split; [reflexivity|]. split; [reflexivity|].
  split; [|repeat split].
  vm_compute. intros H. apply H. reflexivity.
Qed.

(* --------------------------------------------------------------------- *)
(** ** The LRU cache *)
(* --------------------------------------------------------------------- *)

Section OrderedDictFacts.
Context {K V : Type} `{EqDecision K}.
Implicit Types (d : list (K * V)) (k : K) (v : V).

Import OrderedDict.

Lemma filter_absent (k : K) (ks : list K) :
  k ∉ ks -> filter (fun a => a <> k) ks = ks.
Proof.
  induction ks as [|a ks IH]; intros Hk; [reflexivity|].
  apply not_elem_of_cons in Hk as [Hne Hk].
  rewrite filter_cons_True by congruence. by rewrite IH.
Qed.

Lemma keys_remove_key d k :
  keys (remove_key k d) = filter (fun a => a <> k) (keys d).
Proof.
  unfold keys, remove_key. induction d as [|[a v] d IH]; [reflexivity|].
  rewrite fmap_cons. simpl.
  destruct (decide (a = k)) as [->|Hne].
  - rewrite filter_cons_False by (simpl; auto).
    rewrite filter_cons_False by auto. exact IH.
  - rewrite filter_cons_True by (simpl; auto).
    rewrite filter_cons_True by auto. rewrite fmap_cons. simpl. by rewrite IH.
Qed.

Lemma lookup_key_present d k :
  k ∈ keys d -> exists v, lookup_key k d = Some v.
Proof.
  unfold keys. induction d as [|[a v] d IH]; simpl.
  - intros Hk. by apply elem_of_nil in Hk.
  - intros Hk. destruct (decide (a = k)) as [->|Hne]; [eauto|].
    apply elem_of_cons in Hk as [Hk|Hk]; [congruence | auto].
Qed.

Lemma lookup_key_last d k v :
  k ∉ keys d -> lookup_key k (d ++ [(k, v)]) = Some v.
Proof.
  unfold keys. induction d as [|[a w] d IH]; simpl; intros Hk.
  - by rewrite decide_True.
  - apply not_elem_of_cons in Hk as [Hne Hk].
    rewrite decide_False by congruence. auto.
Qed.

Lemma setitem_absent d k v :
  k ∉ keys d -> setitem k v d = d ++ [(k, v)].
Proof.
  unfold keys. induction d as [|[a w] d IH]; simpl; intros Hk; [reflexivity|].
  apply not_elem_of_cons in Hk as [Hne Hk].
  rewrite decide_False by congruence. by rewrite IH.
Qed.

Lemma setitem_last d k v w :
  k ∉ keys d -> setitem k v (d ++ [(k, w)]) = d ++ [(k, v)].
Proof.
  unfold keys. induction d as [|[a u] d IH]; simpl; intros Hk.
  - by rewrite decide_True.
  - apply not_elem_of_cons in Hk as [Hne Hk].
    rewrite decide_False by congruence. by rewrite IH.
Qed.

Lemma keys_setitem_present d k v :
  k ∈ keys d -> keys (setitem k v d) = keys d.
Proof.
  unfold keys. induction d as [|[a w] d IH]; simpl; intros Hk.
  - by apply elem_of_nil in Hk.
  - destruct (decide (a = k)) as [->|Hne]; [reflexivity|].
    apply elem_of_cons in Hk as [Hk|Hk]; [congruence|].
    rewrite !fmap_cons. simpl. f_equal. auto.
Qed.

Lemma not_elem_of_remove_key d k : k ∉ keys (remove_key k d).
Proof.
  rewrite keys_remove_key. intros Hk.
  apply list_elem_of_filter in Hk as [Hk _]. congruence.
Qed.

End OrderedDictFacts.

Section LRUCacheFacts.
Context {K V : Type} `{EqDecision K}.
Implicit Types (self : LRUCache.t K V) (k key : K) (v : V) (ks : list K).

Import LRUCache.
Abbreviation keys_of self := (OrderedDict.keys (cache self)).

(** What [put] does when the capacity is at least one: it returns; the key
    is promoted to most recently used; a new key arriving at a full cache
    first evicts the oldest key, and this is the only case counted as an
    eviction. *)
Lemma put_returns self key v :
  1 <= capacity self ->
  let ks := keys_of self in
  let evicts :=
    bool_decide (key ∉ ks) && bool_decide (Z.of_nat (length ks) >= capacity self) in
  exists self',
    put key v self = Return tt self' /\
    capacity self' = capacity self /\
    keys_of self' = promote key (if evicts then drop 1 ks else ks) /\
    eviction_count self'
      = (if evicts then eviction_count self + 1 else eviction_count self) /\
    OrderedDict.lookup_key key (cache self') = Some v.
Proof.
  intros Hcap ks evicts. subst ks evicts.
  unfold put, mbind, M_bind, this, modify, ret, mret, M_ret, or_KeyError.
  unfold OrderedDict.contains, OrderedDict.move_to_end.
  destruct self as [cap d hc mc ec ac]. simpl in *.
  case_bool_decide as Hin; simpl.
  - rewrite bool_decide_eq_false_2 by auto. simpl.
    destruct (lookup_key_present d key Hin) as [w Hw]. rewrite Hw. simpl.
    eexists. split; [reflexivity|]. simpl.
    split; [reflexivity|].
    assert (Hlast : key ∈ OrderedDict.keys (OrderedDict.remove_key key d ++ [(key, w)])).
    { unfold OrderedDict.keys. rewrite fmap_app. apply elem_of_app. right.
      simpl. apply list_elem_of_here. }
    split; [|split; [reflexivity|]].
    + rewrite keys_setitem_present by exact Hlast.
      unfold OrderedDict.keys at 1. rewrite fmap_app.
      fold (OrderedDict.keys (OrderedDict.remove_key key d)).
      by rewrite keys_remove_key.
    + clear Hlast. pose proof (not_elem_of_remove_key d key) as Hout.
      rewrite setitem_last by exact Hout.
      by apply lookup_key_last.
  - rewrite (bool_decide_eq_true_2 (key ∉ _)) by auto. simpl.
    unfold OrderedDict.keys in *.
    rewrite length_fmap.
    case_bool_decide as Hfull; simpl.
    + destruct d as [|[a w] d']; [simpl in *; lia|]. simpl.
      rewrite fmap_cons in Hin. apply not_elem_of_cons in Hin as [Hne Hin].
      eexists. split; [reflexivity|]. simpl.
      rewrite setitem_absent by exact Hin.
      split; [reflexivity|]. split; [|split; [reflexivity|]].
      * rewrite fmap_app. unfold promote. simpl. by rewrite drop_0, filter_absent.
      * by apply lookup_key_last.
    + eexists. split; [reflexivity|]. simpl.
      rewrite setitem_absent by exact Hin.
      split; [reflexivity|]. split; [|split; [reflexivity|]].
      * rewrite fmap_app. unfold promote. by rewrite filter_absent.
      * by apply lookup_key_last.
Qed.


(** What [get] does: it returns the stored value or the miss sentinel; a hit
    promotes the key; nothing is evicted. *)
Lemma get_returns self key :
  let ks := keys_of self in
  exists self',
    get key self = Return (OrderedDict.lookup_key key (cache self)) self' /\
    capacity self' = capacity self /\
    keys_of self' = (if bool_decide (key ∈ ks) then promote key ks else ks) /\
    eviction_count self' = eviction_count self.
Proof.
  cbv zeta.
  unfold get, mbind, M_bind, this, modify, ret, mret, M_ret, or_KeyError.
  unfold OrderedDict.contains, OrderedDict.move_to_end.
  destruct self as [cap d hc mc ec ac]. simpl in *.
  case_bool_decide as Hin; simpl.
  - destruct (lookup_key_present d key Hin) as [w Hw]. rewrite Hw. simpl.
    rewrite lookup_key_last by apply not_elem_of_remove_key. simpl.
    eexists. split; [reflexivity|]. simpl.
    split; [reflexivity|]. split; [|reflexivity].
    unfold OrderedDict.keys at 1. rewrite fmap_app.
    fold (OrderedDict.keys (OrderedDict.remove_key key d)).
    by rewrite keys_remove_key.
  - assert (Hnone : OrderedDict.lookup_key key d = None).
    { destruct (OrderedDict.lookup_key key d) eqn:E; [|reflexivity].
      exfalso. apply Hin. clear Hin. unfold OrderedDict.keys.
      induction d as [|[a w] d IH]; simpl in *; [discriminate|].
      destruct (decide (a = key)) as [->|]; [apply list_elem_of_here|].
      apply list_elem_of_further. auto. }
    rewrite Hnone. eexists. split; [reflexivity|]. simpl. auto.
Qed.

(** ** Size *)

Lemma length_promote_present k ks :
  k ∈ ks -> (length (promote k ks) <= length ks)%nat.
Proof.
  intros Hk. unfold promote. rewrite length_app. simpl.
  pose proof (length_filter_lt (fun a => a <> k) ks k Hk) as Hlt.
  assert ((length (filter (fun a => a <> k) ks) < length ks)%nat); [|lia].
  apply Hlt. auto.
Qed.

Lemma length_promote_absent k ks :
  k ∉ ks -> length (promote k ks) = S (length ks).
Proof.
  intros Hk. unfold promote. rewrite filter_absent by exact Hk.
  rewrite length_app. simpl. lia.
Qed.

Lemma put_bounded self key v :
  1 <= capacity self ->
  Z.of_nat (length (keys_of self)) <= capacity self ->
  Z.of_nat (length (keys_of (state_of (put key v self)))) <= capacity self.
Proof.
  intros Hcap Hle.
  destruct (put_returns self key v Hcap) as (self' & -> & _ & Hk & _).
  simpl. rewrite Hk. clear Hk.
  case_bool_decide as Hin; simpl.
  - case_bool_decide as Hfull.
    + assert (Hout : key ∉ drop 1 (keys_of self)).
      { intros Hd. apply Hin. by apply (subseteq_drop 1). }
      rewrite length_promote_absent by exact Hout.
      rewrite length_drop. lia.
    + rewrite length_promote_absent by exact Hin. lia.
  - pose proof (length_promote_present key _ Hin). lia.
Qed.

(** ** Recency *)

Lemma touched_after_later (log : list K) (a b k : K) :
  a <> k -> touched_after log a b -> touched_after (log ++ [k]) a b.
Proof.
  intros Hne (l1 & l2 & -> & Ha & Hb).
  exists l1, (l2 ++ [k]). rewrite <- app_assoc. simpl.
  split; [reflexivity|]. split.
  - rewrite elem_of_app, list_elem_of_singleton. tauto.
  - apply elem_of_app. by left.
Qed.

Lemma touched_after_new (log : list K) (a k : K) :
  a <> k -> a ∈ log -> touched_after (log ++ [k]) a k.
Proof.
  intros Hne Ha.
  destruct (list_elem_of_split_r log a Ha) as (l1 & l2 & -> & Hout).
  exists l1, (l2 ++ [k]). rewrite <- app_assoc. simpl.
  split; [reflexivity|]. split.
  - rewrite elem_of_app, list_elem_of_singleton. tauto.
  - apply elem_of_app. right. apply list_elem_of_here.
Qed.

Lemma by_recency_drop (log ks : list K) :
  by_recency log ks -> by_recency log (drop 1 ks).
Proof.
  intros (Hnd & Hin & Hss). destruct ks as [|a ks]; [by repeat split|].
  simpl. rewrite drop_0.
  apply NoDup_cons in Hnd as [_ Hnd].
  apply Forall_cons in Hin as [_ Hin].
  apply StronglySorted_cons in Hss as [_ Hss].
  by repeat split.
Qed.

Lemma by_recency_promote (log ks : list K) (k : K) :
  by_recency log ks -> by_recency (log ++ [k]) (promote k ks).
Proof.
  intros (Hnd & Hin & Hss). unfold promote. split; [|split].
  - apply NoDup_app. split; [by apply NoDup_filter|]. split.
    + intros a Ha Hk. apply list_elem_of_singleton in Hk as ->.
      apply list_elem_of_filter in Ha as [Ha _]. congruence.
    + apply NoDup_singleton.
  - apply Forall_app. split.
    + apply Forall_forall. intros a Ha.
      apply list_elem_of_filter in Ha as [_ Ha].
      rewrite Forall_forall in Hin. apply elem_of_app. left. auto.
    + apply Forall_singleton. apply elem_of_app. right. apply list_elem_of_here.
  - clear Hnd. induction ks as [|a ks IH]; simpl.
    { apply StronglySorted_cons. split; constructor. }
    apply Forall_cons in Hin as [Ha Hin].
    apply StronglySorted_cons in Hss as [Hfa Hss].
    specialize (IH Hin Hss).
    rewrite filter_cons. destruct (decide (a <> k)) as [Hne|Heq]; [|exact IH].
    simpl. apply StronglySorted_cons. split; [|exact IH].
    apply Forall_app. split.
    + apply Forall_forall. intros b Hb.
      apply list_elem_of_filter in Hb as [_ Hb].
      rewrite Forall_forall in Hfa. apply touched_after_later; auto.
    + apply Forall_singleton. by apply touched_after_new.
Qed.


(** ** Runs *)

(** A run of [put] and [get] calls on a cache of capacity at least one
    returns; it keeps the capacity, the bound on the number of keys, and the
    agreement of the keys with the log of touches. *)
Lemma run_invariant (ops : list (op K V)) : forall self (log : list K),
  1 <= capacity self ->
  Z.of_nat (length (keys_of self)) <= capacity self ->
  by_recency log (keys_of self) ->
  let self' := state_of (run ops self) in
  returned (run ops self) = Some tt /\
  capacity self' = capacity self /\
  Z.of_nat (length (keys_of self')) <= capacity self /\
  by_recency (log ++ touch_log ops self) (keys_of self').
Proof.
  induction ops as [|o ops IH]; intros self log Hcap Hle Hrec; cbv zeta.
  { simpl. rewrite app_nil_r. auto. }
  assert (Hstep : exists self1,
            step o self = Return tt self1 /\
            capacity self1 = capacity self /\
            Z.of_nat (length (keys_of self1)) <= capacity self /\
            by_recency (log ++ from_option (fun k => [k]) [] (touched o self))
                       (keys_of self1)).
  { destruct o as [k v|k]; simpl.
    - pose proof (put_bounded self k v Hcap Hle) as Hb.
      destruct (put_returns self k v Hcap) as (self1 & Hput & Hc & Hk & _).
      rewrite Hput in Hb. simpl in Hb.
      exists self1. split; [exact Hput|]. split; [exact Hc|].
      split; [exact Hb|]. rewrite Hk.
      apply by_recency_promote.
      destruct (_ && _); [by apply by_recency_drop | exact Hrec].
    - destruct (get_returns self k) as (self1 & Hget & Hc & Hk & _).
      unfold mbind, M_bind. rewrite Hget. simpl.
      exists self1. split; [reflexivity|]. split; [exact Hc|].
      rewrite Hk. unfold OrderedDict.contains.
      case_bool_decide as Hin; simpl.
      + split; [|by apply by_recency_promote].
        pose proof (length_promote_present k _ Hin). lia.
      + rewrite app_nil_r. auto. }
  destruct Hstep as (self1 & Hs & Hc1 & Hle1 & Hrec1).
  rewrite <- Hc1 in Hle1, Hcap.
  specialize (IH self1 _ Hcap Hle1 Hrec1). cbv zeta in IH.
  destruct IH as (IHret & IHcap & IHle & IHrec).
  simpl. unfold mbind, M_bind. rewrite Hs. simpl.
  rewrite Hc1 in *.
  split; [exact IHret|]. split; [exact IHcap|]. split; [exact IHle|].
  replace (state_of (step o self)) with self1 by (by rewrite Hs).
  destruct (touched o self) as [k|]; simpl in *.
  - by rewrite <- app_assoc in IHrec.
  - by rewrite app_nil_r in IHrec.
Qed.

(** ** A key that was just used outlives the next insertions *)

Lemma put_keeps_recent self key k v (l1 l2 : list K) :
  1 <= capacity self ->
  keys_of self = l1 ++ key :: l2 ->
  k <> key ->
  Z.of_nat (length l2) < capacity self - 1 ->
  exists (self' : LRUCache.t K V) (l1' l2' : list K),
    put k v self = Return tt self' /\
    capacity self' = capacity self /\
    keys_of self' = l1' ++ key :: l2' /\
    (length l2' <= S (length l2))%nat.
Proof.
  intros Hcap Hks Hne Hfew.
  destruct (put_returns self k v Hcap) as (self' & Hput & Hc & Hk & _).
  exists self'. rewrite Hk, Hks. clear Hk.
  assert (Hpromote : forall l : list K,
            promote k (l ++ key :: l2)
            = filter (fun a => a <> k) l
              ++ key :: (filter (fun a => a <> k) l2 ++ [k])).
  { intros l. unfold promote.
    rewrite filter_app, filter_cons_True by congruence.
    by rewrite <- app_assoc. }
  assert (Hlen : (length (filter (fun a => a <> k) l2 ++ [k]) <= S (length l2))%nat).
  { rewrite length_app. simpl.
    pose proof (length_filter (fun a => a <> k) l2). lia. }
  destruct (_ && _) eqn:Hev.
  - apply andb_true_iff in Hev as [_ Hfull].
    apply bool_decide_eq_true in Hfull.
    rewrite length_app in Hfull. simpl in Hfull.
    destruct l1 as [|a l1]; [simpl in Hfull; lia|].
    simpl. rewrite drop_0. rewrite Hpromote. eauto 10.
  - rewrite Hpromote. eauto 10.
Qed.

Lemma puts_keep_recent (puts : list (K * V)) key :
  forall self (l1 l2 : list K),
  1 <= capacity self ->
  keys_of self = l1 ++ key :: l2 ->
  Forall (fun kv => kv.1 <> key) puts ->
  Z.of_nat (length l2) + Z.of_nat (length puts) <= capacity self - 1 ->
  key ∈ keys_of (state_of (run (map (fun kv => Put kv.1 kv.2) puts) self)).
Proof.
  induction puts as [|[k v] puts IH]; intros self l1 l2 Hcap Hks Hne Hfew.
  - simpl. rewrite Hks. apply elem_of_app. right. apply list_elem_of_here.
  - apply Forall_cons in Hne as [Hk Hne]. simpl in Hk, Hfew.
    destruct (put_keeps_recent self key k v l1 l2 Hcap Hks Hk ltac:(lia))
      as (self' & l1' & l2' & Hput & Hc & Hks' & Hlen).
    simpl. unfold mbind, M_bind. rewrite Hput.
    apply (IH self' l1' l2'); [lia | exact Hks' | exact Hne | lia].
Qed.


(** C3. For any run of [put] and [get] calls on a fresh cache of capacity
    C >= 1: the run returns, the stored keys are distinct and at most C.
    When the cache holds C keys, a [put] of a new key evicts one key, the
    oldest in the cache, counts one eviction and stores the new key as
    newest; every other stored key was touched after the last touch of the
    evicted one. A [get] hit and a [put] of a stored key promote the key to
    newest and evict nothing. After a [get] hit on a key, up to C - 1 [put]
    calls on other keys leave that key in the cache. *)
Theorem lru_cache_policy (C : Z) (ops : list (op K V)) :
  1 <= C ->
  let start := __init__ C in
  let self := state_of (run ops start) in
  let log := touch_log ops start in
  let ks := keys_of self in
  returned (run ops start) = Some tt /\
  (NoDup ks /\ Z.of_nat (length ks) <= C) /\
  (forall (key : K) (v : V),
     Z.of_nat (length ks) = C ->
     key ∉ ks ->
     exists (victim : K) (rest : list K) (self' : LRUCache.t K V),
       ks = victim :: rest /\
       put key v self = Return tt self' /\
       keys_of self' = rest ++ [key] /\
       eviction_count self' = eviction_count self + 1 /\
       forall k : K, k ∈ rest -> touched_after log victim k) /\
  (forall key : K,
     key ∈ ks ->
     keys_of (state_of (get key self)) = promote key ks /\
     eviction_count (state_of (get key self)) = eviction_count self /\
     forall v : V,
       keys_of (state_of (put key v self)) = promote key ks /\
       eviction_count (state_of (put key v self)) = eviction_count self) /\
  (forall (key : K) (puts : list (K * V)),
     key ∈ ks ->
     Forall (fun kv => kv.1 <> key) puts ->
     Z.of_nat (length puts) <= C - 1 ->
     key ∈ keys_of (state_of (run (map (fun kv => Put kv.1 kv.2) puts)
                               (state_of (get key self))))).
Proof.
  intros HC start self log ks.
  assert (Hstart : by_recency [] (keys_of start)).
  { split; [apply NoDup_nil_2|]. split; constructor. }
  pose proof (run_invariant ops start [] HC ltac:(simpl; lia) Hstart) as Hinv.
  cbv zeta in Hinv. simpl in Hinv.
  destruct Hinv as (Hret & Hcap & Hle & Hnd & Hlog & Hss).
  fold self in Hcap, Hle, Hnd, Hlog, Hss. fold ks in Hle, Hnd, Hlog, Hss.
  fold start log in Hss, Hlog.
  split; [exact Hret|]. split; [by split|]. split; [|split].
  - intros key v Hfull Hnew.
    destruct (put_returns self key v ltac:(lia)) as (self' & Hput & _ & Hk & He & _).
    fold ks in Hk, He.
    rewrite (bool_decide_eq_true_2 (key ∉ ks)) in Hk, He by exact Hnew.
    rewrite bool_decide_eq_true_2 in Hk, He by lia. simpl in Hk, He.
    destruct ks as [|victim rest] eqn:Hks; [simpl in Hfull; lia|].
    exists victim, rest, self'.
    split; [reflexivity|]. split; [exact Hput|].
    simpl in Hk. rewrite drop_0 in Hk.
    apply not_elem_of_cons in Hnew as [_ Hnew].
    unfold promote in Hk. rewrite filter_absent in Hk by exact Hnew.
    split; [exact Hk|]. split; [exact He|].
    apply StronglySorted_cons in Hss as [Hfa _].
    rewrite Forall_forall in Hfa. exact Hfa.
  - intros key Hin.
    destruct (get_returns self key) as (self1 & Hget & _ & Hk & He).
    fold ks in Hk. rewrite bool_decide_eq_true_2 in Hk by exact Hin.
    rewrite Hget. simpl. split; [exact Hk|]. split; [exact He|].
    intros v.
    destruct (put_returns self key v ltac:(lia)) as (self2 & Hput & _ & Hk2 & He2 & _).
    fold ks in Hk2, He2.
    rewrite (bool_decide_eq_false_2 (key ∉ ks)) in Hk2, He2 by auto.
    simpl in Hk2, He2. rewrite Hput. simpl. by split.
  - intros key puts Hin Hothers Hfew.
    destruct (get_returns self key) as (self1 & Hget & Hc1 & Hk & _).
    fold ks in Hk. rewrite bool_decide_eq_true_2 in Hk by exact Hin.
    rewrite Hget. simpl.
    apply (puts_keep_recent puts key self1 (filter (fun a => a <> key) ks) []).
    + lia.
    + exact Hk.
    + exact Hothers.
    + simpl. lia.
Qed.

End LRUCacheFacts.

(** The cache of the demonstration: capacity 3; face1, face2, face3 are
    stored and face1 is looked up; storing face4 then evicts face2, the
    least recently touched key. *)
Lemma lru_cache_policy_witness :
  let ops := [LRUCache.Put "face1" "John"; LRUCache.Put "face2" "Jane";
              LRUCache.Put "face3" "Bob"; LRUCache.Get "face1"] in
  let self := state_of (LRUCache.run ops (LRUCache.__init__ 3)) in
  exists (rest : list string) (self' : LRUCache.t string string),
    OrderedDict.keys (LRUCache.cache self) = "face2" :: rest /\
    LRUCache.put "face4" "Alice" self = Return tt self' /\
    OrderedDict.keys (LRUCache.cache self') = rest ++ ["face4"] /\
    LRUCache.eviction_count self' = LRUCache.eviction_count self + 1.
Proof.
  cbv zeta.
  pose proof (lru_cache_policy 3
    [LRUCache.Put "face1" "John"; LRUCache.Put "face2" "Jane";
     LRUCache.Put "face3" "Bob"; LRUCache.Get "face1"] ltac:(lia)) as H.
  cbv zeta in H. destruct H as (_ & _ & Hevict & _).
  destruct (Hevict "face4" "Alice" ltac:(reflexivity)
              ltac:(refine (bool_decide_unpack _ _); vm_compute; exact I))
    as (victim & rest & self' & Hks & Hput & Hkeys & Hcount & _).
  injection Hks as <- <-.
  eexists _, self'. split; [reflexivity|].
  split; [exact Hput|]. split; [exact Hkeys | exact Hcount].
Defined.

(* ===================================================================== *)
(** * Further properties of the code *)
(* ===================================================================== *)

(* --------------------------------------------------------------------- *)
(** ** The ring buffer as a bounded queue *)
(* --------------------------------------------------------------------- *)

Section RingBufferQueue.
Context {Frame : Type}.
Implicit Types (self : CircularFrameBuffer.t Frame) (q : list Frame) (x : Frame).

Import CircularFrameBuffer.

Lemma read_empty self :
  size self = 0 -> read self = Return None self.
Proof.
  intros H. unfold read, mbind, M_bind, this, ret, mret, M_ret.
  by rewrite bool_decide_eq_true_2.
Qed.

Lemma peek_empty self :
  size self = 0 -> peek self = Return None self.
Proof.
  intros H. unfold peek, mbind, M_bind, this, ret, mret, M_ret.
  by rewrite bool_decide_eq_true_2.
Qed.

Lemma get_latest_empty self :
  size self = 0 -> get_latest self = Return None self.
Proof.
  intros H. unfold get_latest, mbind, M_bind, this, ret, mret, M_ret.
  by rewrite bool_decide_eq_true_2.
Qed.

Lemma peek_returns self q x :
  holds self (x :: q) -> peek self = Return (Some x) self.
Proof.
  intros (Hcap & Hlen & Htail & Hsize & Hle & Hhead & Hslots).
  pose proof (Hslots 0%nat x eq_refl) as H0. unfold slot_of in H0.
  rewrite Z.add_0_r, Z.mod_small in H0 by lia.
  unfold peek, mbind, M_bind, this, ret, mret, M_ret, py_getitem.
  simpl in Hsize. rewrite bool_decide_eq_false_2 by lia.
  rewrite py_index_in_range by lia. by rewrite H0.
Qed.

Lemma clear_holds self :
  1 <= capacity self -> holds (clear self) [].
Proof.
  intros Hcap. unfold holds, clear. simpl.
  split; [lia|]. split; [by rewrite length_replicate|].
  split; [lia|]. split; [lia|]. split; [lia|].
  split; [by rewrite Z.mod_0_l by lia|].
  intros i y Hi. by rewrite lookup_nil in Hi.
Qed.

Lemma holds_size self q : holds self q -> size self = Z.of_nat (length q).
Proof. by intros (_ & _ & _ & H & _). Qed.

Lemma holds_capacity self q : holds self q -> 1 <= capacity self.
Proof. by intros (H & _). Qed.

(** One call on a well-formed buffer returns what the queue answers and
    leaves a buffer that holds the queue's frames; the capacity stays. *)
Lemma perform_holds self q (c : call Frame) :
  holds self q ->
  returned (perform c self) = Some (queue_perform (capacity self) c q).1 /\
  holds (state_of (perform c self)) (queue_perform (capacity self) c q).2 /\
  capacity (state_of (perform c self)) = capacity self.
Proof.
  intros H.
  pose proof (holds_size self q H) as Hsize.
  pose proof (holds_capacity self q H) as Hcap.
  destruct c as [x| | | | | |]; simpl; unfold mbind, M_bind.
  - pose proof (write_holds self q x H) as Hw.
    pose proof (write_counters self q x H) as (Hret & Hc & _).
    destruct (write x self) as [b self1|e self1]; [|discriminate Hret].
    simpl in *. injection Hret as ->. rewrite <- Hsize.
    split; [reflexivity|]. split; [|exact Hc].
    destruct (bool_decide (size self = capacity self)); exact Hw.
  - destruct q as [|x q].
    + rewrite read_empty by exact Hsize. simpl. auto.
    + pose proof (read_holds self q x H) as Hr.
      rewrite (read_returns self q x H) in *. simpl in *.
      rewrite drop_0. auto.
  - destruct q as [|x q].
    + rewrite peek_empty by exact Hsize. simpl. auto.
    + rewrite (peek_returns self q x H). simpl. auto.
  - destruct q as [|x q _] using rev_ind.
    + rewrite get_latest_empty by exact Hsize. simpl. auto.
    + rewrite (get_latest_returns self q x H). simpl.
      rewrite last_snoc. auto.
  - unfold this, is_full. simpl. rewrite Hsize. auto.
  - unfold this, is_empty. simpl. split; [|auto].
    rewrite Hsize. do 2 f_equal.
    destruct q; simpl; repeat case_bool_decide; try reflexivity;
      (lia || discriminate || congruence).
  - unfold modify. simpl. split; [reflexivity|].
    split; [by apply clear_holds | reflexivity].
Qed.

Lemma perform_all_holds (calls : list (call Frame)) : forall self q,
  holds self q ->
  returned (perform_all calls self)
    = Some (queue_perform_all (capacity self) calls q).1 /\
  holds (state_of (perform_all calls self))
        (queue_perform_all (capacity self) calls q).2.
Proof.
  induction calls as [|c calls IH]; intros self q H; [by split|].
  destruct (perform_holds self q c H) as (Hret & Hholds & Hcap).
  simpl. unfold mbind, M_bind.
  destruct (perform c self) as [r self1|e self1]; [|discriminate Hret].
  simpl in *. injection Hret as ->.
  destruct (queue_perform (capacity self) c q) as [r q1]. simpl in *.
  destruct (IH self1 q1 Hholds) as (IHret & IHholds).
  rewrite Hcap in *.
  destruct (queue_perform_all (capacity self) calls q1) as [rs q2].
  destruct (perform_all calls self1) as [rs' self2|e self2];
    [|discriminate IHret].
  simpl in *. injection IHret as ->. by split.
Qed.

(** X1. Whatever calls a client makes on a fresh buffer of capacity N >= 1
    (write, read, peek, get_latest, is_full, is_empty, clear, in any
    order), no call raises, every call answers what a queue bounded by N
    answers (first in, first out, a write to a full queue dropping the
    oldest frame), and the buffer ends holding that queue's frames. *)
Theorem ring_buffer_is_bounded_queue (N : Z) (calls : list (call Frame)) :
  1 <= N ->
  let run := perform_all calls (__init__ N) in
  let model := queue_perform_all N calls [] in
  returned run = Some model.1 /\
  holds (state_of run) model.2 /\
  size (state_of run) = Z.of_nat (length model.2) /\
  Z.of_nat (length model.2) <= N.
Proof.
  intros HN run model. subst run model.
  destruct (perform_all_holds calls (__init__ N) [] (init_holds N HN))
    as (Hret & Hholds).
  simpl in *. split; [exact Hret|]. split; [exact Hholds|].
  split; [by apply holds_size|].
  assert (Hcap : capacity (state_of (perform_all calls (__init__ N))) = N).
  { clear Hret Hholds.
    assert (Hgen : forall self q, holds self q ->
              capacity (state_of (perform_all calls self)) = capacity self).
    { induction calls as [|c calls IH]; intros self q H; [reflexivity|].
      destruct (perform_holds self q c H) as (Hret & Hholds & Hcap).
      simpl. unfold mbind, M_bind.
      destruct (perform c self) as [r self1|e self1]; [|discriminate Hret].
      simpl in *. specialize (IH self1 _ Hholds).
      destruct (perform_all calls self1); simpl in *; congruence. }
    by rewrite (Hgen _ [] (init_holds N HN)). }
  destruct Hholds as (_ & _ & _ & Hs & Hle & _). lia.
Qed.

End RingBufferQueue.

(** A buffer of capacity two: three writes, then reads past the end. *)
Lemma ring_buffer_is_bounded_queue_witness :
  returned
    (CircularFrameBuffer.perform_all
       [CircularFrameBuffer.Write "a"; CircularFrameBuffer.Write "b";
        CircularFrameBuffer.Write "c"; CircularFrameBuffer.Peek;
        CircularFrameBuffer.Read; CircularFrameBuffer.GetLatest;
        CircularFrameBuffer.Read; CircularFrameBuffer.Read;
        CircularFrameBuffer.IsEmpty]
       (CircularFrameBuffer.__init__ 2))
  = Some [CircularFrameBuffer.Written true; CircularFrameBuffer.Written true;
          CircularFrameBuffer.Written true; CircularFrameBuffer.Fetched (Some "b");
          CircularFrameBuffer.Fetched (Some "b"); CircularFrameBuffer.Fetched (Some "c");
          CircularFrameBuffer.Fetched (Some "c"); CircularFrameBuffer.Fetched None;
          CircularFrameBuffer.Flag true].
Proof.
  exact (proj1 (ring_buffer_is_bounded_queue 2
    [CircularFrameBuffer.Write "a"; CircularFrameBuffer.Write "b";
     CircularFrameBuffer.Write "c"; CircularFrameBuffer.Peek;
     CircularFrameBuffer.Read; CircularFrameBuffer.GetLatest;
     CircularFrameBuffer.Read; CircularFrameBuffer.Read;
     CircularFrameBuffer.IsEmpty] ltac:(lia))).
Defined.

(* --------------------------------------------------------------------- *)
(** ** The counters of the ring buffer *)
(* --------------------------------------------------------------------- *)

Section RingBufferCounters.
Context {Frame : Type}.
Implicit Types (self : CircularFrameBuffer.t Frame) (q : list Frame) (x : Frame).

Import CircularFrameBuffer.

Lemma perform_counters self q (c : call Frame) :
  holds self q ->
  let self' := state_of (perform c self) in
  write_count self' = write_count self + count_writes [c] /\
  read_count self <= read_count self' /\
  overflow_count self <= overflow_count self' /\
  match c with
  | Clear => unaccounted self' = unaccounted self + size self
  | _ => unaccounted self' = unaccounted self
  end.
Proof.
  intros H. cbv zeta.
  pose proof (holds_size self q H) as Hsize.
  destruct c as [x| | | | | |]; simpl; unfold mbind, M_bind, unaccounted.
  - pose proof (write_counters self q x H) as (Hret & _ & Hs & Ho & Hw & Hr).
    destruct (write x self) as [b self1|e self1]; [|discriminate Hret].
    simpl in *. case_bool_decide; lia.
  - destruct q as [|x q].
    + rewrite read_empty by exact Hsize. simpl. lia.
    + rewrite (read_returns self q x H). simpl. lia.
  - destruct q as [|x q].
    + rewrite peek_empty by exact Hsize. simpl. lia.
    + rewrite (peek_returns self q x H). simpl. lia.
  - destruct q as [|x q _] using rev_ind.
    + rewrite get_latest_empty by exact Hsize. simpl. lia.
    + rewrite (get_latest_returns self q x H). simpl. lia.
  - simpl. lia.
  - simpl. lia.
  - simpl. lia.
Qed.

Lemma perform_all_counters (calls : list (call Frame)) : forall self q,
  holds self q ->
  let self' := state_of (perform_all calls self) in
  write_count self' = write_count self + count_writes calls /\
  read_count self <= read_count self' /\
  overflow_count self <= overflow_count self' /\
  unaccounted self <= unaccounted self' /\
  (has_clear calls = false -> unaccounted self' = unaccounted self).
Proof.
  induction calls as [|c calls IH]; intros self q H; cbv zeta.
  { simpl. repeat split; lia. }
  destruct (perform_holds self q c H) as (Hret & Hholds & _).
  pose proof (perform_counters self q c H) as (Hw & Hr & Ho & Hu).
  pose proof (holds_size self q H) as Hsize.
  simpl perform_all. unfold mbind, M_bind.
  destruct (perform c self) as [r self1|e self1]; [|discriminate Hret].
  simpl in Hholds, Hw, Hr, Ho, Hu.
  specialize (IH self1 _ Hholds). cbv zeta in IH.
  destruct IH as (IHw & IHr & IHo & IHu & IHe).
  assert (Hst : forall o : outcome (t Frame) (list (reply Frame)),
            state_of match o with
                     | Return a s' => ret (r :: a) s'
                     | Raise e s' => Raise e s'
                     end = state_of o) by (by intros []).
  rewrite Hst. clear Hst.
  destruct c; simpl in *;
    (split; [lia|]); (split; [lia|]); (split; [lia|]); (split; [lia|]);
    intros Hno; try discriminate Hno; rewrite IHe by exact Hno; lia.
Qed.

(** X2. After any calls on a fresh buffer of capacity N >= 1, [write_count]
    is the number of writes made, and the frames in the buffer are at most
    the frames written less those read and those dropped:
    [size <= write_count - read_count - overflow_count]; with no [clear]
    among the calls the two are equal. ([clear] empties the buffer and
    keeps the counters.) *)
Theorem ring_buffer_counters_balance (N : Z) (calls : list (call Frame)) :
  1 <= N ->
  let self := state_of (perform_all calls (__init__ N)) in
  write_count self = count_writes calls /\
  0 <= read_count self /\
  0 <= overflow_count self /\
  size self <= write_count self - read_count self - overflow_count self /\
  (has_clear calls = false ->
   size self = write_count self - read_count self - overflow_count self).
Proof.
  intros HN self. subst self.
  pose proof (perform_all_counters calls (__init__ N) [] (init_holds N HN)) as H.
  cbv zeta in H. unfold unaccounted in H. simpl in H.
  destruct H as (Hw & Hr & Ho & Hu & He).
  split; [lia|]. split; [lia|]. split; [lia|]. split; [lia|].
  intros Hno. specialize (He Hno). lia.
Qed.


End RingBufferCounters.

(** Five writes and two reads through a buffer of capacity three. *)
Lemma ring_buffer_counters_balance_witness :
  let self :=
    state_of (CircularFrameBuffer.perform_all
                [CircularFrameBuffer.Write 1; CircularFrameBuffer.Write 2;
                 CircularFrameBuffer.Write 3; CircularFrameBuffer.Write 4;
                 CircularFrameBuffer.Read; CircularFrameBuffer.Write 5;
                 CircularFrameBuffer.Read]
                (CircularFrameBuffer.__init__ 3)) in
  CircularFrameBuffer.size self
  = CircularFrameBuffer.write_count self - CircularFrameBuffer.read_count self
    - CircularFrameBuffer.overflow_count self.
Proof.
  refine (proj2 (proj2 (proj2 (proj2 (ring_buffer_counters_balance 3
    [CircularFrameBuffer.Write 1; CircularFrameBuffer.Write 2;
     CircularFrameBuffer.Write 3; CircularFrameBuffer.Write 4;
     CircularFrameBuffer.Read; CircularFrameBuffer.Write 5;
     CircularFrameBuffer.Read] ltac:(lia))))) _).
  reflexivity.
Defined.


(* --------------------------------------------------------------------- *)
(** ** The LRU cache as a dictionary *)
(* --------------------------------------------------------------------- *)

Section OrderedDictLookups.
Context {K V : Type} `{EqDecision K}.
Implicit Types (d : list (K * V)) (k key : K) (v : V).

Import OrderedDict.

Lemma lookup_key_None d k : lookup_key k d = None <-> k ∉ keys d.
Proof.
  unfold keys. induction d as [|[a w] d IH]; simpl.
  - split; [intros _ Hin; by apply elem_of_nil in Hin | reflexivity].
  - rewrite not_elem_of_cons. destruct (decide (a = k)) as [->|Hne].
    + split; [discriminate | intros [Hk _]; by destruct Hk].
    + rewrite IH. split; [intros ?; split; [intros ->; by apply Hne | assumption] | tauto].
Qed.

Lemma keys_snoc d k v : keys (d ++ [(k, v)]) = keys d ++ [k].
Proof. unfold keys. by rewrite fmap_app. Qed.

Lemma lookup_key_snoc_ne d k key v :
  k <> key -> lookup_key k (d ++ [(key, v)]) = lookup_key k d.
Proof.
  intros Hne. induction d as [|[a w] d IH]; simpl.
  - by rewrite decide_False by congruence.
  - by rewrite IH.
Qed.

Lemma lookup_key_remove_ne d k key :
  k <> key -> lookup_key k (remove_key key d) = lookup_key k d.
Proof.
  intros Hne. unfold remove_key. induction d as [|[a w] d IH]; [reflexivity|].
  rewrite filter_cons. simpl.
  destruct (decide (a <> key)) as [Ha|Ha]; simpl.
  - by rewrite IH.
  - apply dec_stable in Ha. subst a. by rewrite decide_False by congruence.
Qed.

Lemma lookup_key_remove_eq d key : lookup_key key (remove_key key d) = None.
Proof. apply lookup_key_None, not_elem_of_remove_key. Qed.

End OrderedDictLookups.

Section LRUCacheDict.
Context {K V : Type} `{EqDecision K}.
Implicit Types (self : LRUCache.t K V) (k key : K) (v : V) (ks : list K).

Import LRUCache.
Abbreviation stored self := (OrderedDict.keys (cache self)).
Abbreviation value_of k self := (OrderedDict.lookup_key k (cache self)).

(** [put] touches the dictionary and the eviction counter only; the values
    of the other keys stay, except for the key evicted. *)
Lemma put_lookup self key v :
  1 <= capacity self ->
  NoDup (stored self) ->
  let evicts :=
    bool_decide (key ∉ stored self)
    && bool_decide (Z.of_nat (length (stored self)) >= capacity self) in
  exists d',
    put key v self
    = Return tt (mk (capacity self) d' (hit_count self) (miss_count self)
                    (if evicts then eviction_count self + 1 else eviction_count self)
                    (access_count self)) /\
    forall k,
      OrderedDict.lookup_key k d'
      = if decide (k = key) then Some v
        else if evicts && bool_decide (stored self !! 0%nat = Some k) then None
        else value_of k self.
Proof.
  intros Hcap Hnd evicts. subst evicts.
  unfold put, mbind, M_bind, this, modify, ret, mret, M_ret, or_KeyError.
  unfold OrderedDict.contains, OrderedDict.move_to_end.
  destruct self as [cap d hc mc ec ac]. simpl in *.
  case_bool_decide as Hin; simpl.
  - rewrite bool_decide_eq_false_2 by auto. simpl.
    destruct (lookup_key_present d key Hin) as [w Hw]. rewrite Hw. simpl.
    rewrite setitem_last by apply not_elem_of_remove_key.
    eexists. split; [reflexivity|]. intros k.
    destruct (decide (k = key)) as [->|Hne].
    + apply lookup_key_last, not_elem_of_remove_key.
    + rewrite lookup_key_snoc_ne by exact Hne. by apply lookup_key_remove_ne.
  - rewrite (bool_decide_eq_true_2 (key ∉ _)) by auto. simpl.
    unfold OrderedDict.keys in *. rewrite length_fmap.
    case_bool_decide as Hfull; simpl.
    + destruct d as [|[a w] d']; [simpl in *; lia|]. simpl.
      rewrite fmap_cons in Hin, Hnd. simpl in Hin, Hnd.
      apply not_elem_of_cons in Hin as [Hne Hin].
      apply NoDup_cons in Hnd as [Ha Hnd].
      rewrite setitem_absent by exact Hin.
      eexists. split; [reflexivity|]. intros k.
      destruct (decide (k = key)) as [->|Hk].
      * by apply lookup_key_last.
      * rewrite lookup_key_snoc_ne by exact Hk.
        case_bool_decide as Hhead.
        -- injection Hhead as ->. by apply lookup_key_None.
        -- rewrite decide_False; [reflexivity|]. intros ->. by apply Hhead.
    + rewrite setitem_absent by exact Hin.
      eexists. split; [reflexivity|]. intros k.
      destruct (decide (k = key)) as [->|Hk].
      * by apply lookup_key_last.
      * by rewrite lookup_key_snoc_ne.
Qed.

(** [get] answers the value stored for the key, counts the access as a hit
    or a miss, and leaves every stored value as it is. *)
Lemma get_lookup self key :
  exists d',
    get key self
    = Return (value_of key self)
        (mk (capacity self) d'
            (if bool_decide (key ∈ stored self) then hit_count self + 1 else hit_count self)
            (if bool_decide (key ∈ stored self) then miss_count self else miss_count self + 1)
            (eviction_count self) (access_count self + 1)) /\
    OrderedDict.keys d'
    = (if bool_decide (key ∈ stored self) then promote key (stored self)
       else stored self) /\
    forall k, OrderedDict.lookup_key k d' = value_of k self.
Proof.
  unfold get, mbind, M_bind, this, modify, ret, mret, M_ret, or_KeyError.
  unfold OrderedDict.contains, OrderedDict.move_to_end.
  destruct self as [cap d hc mc ec ac]. simpl in *.
  case_bool_decide as Hin; simpl.
  - destruct (lookup_key_present d key Hin) as [w Hw]. rewrite Hw. simpl.
    rewrite lookup_key_last by apply not_elem_of_remove_key. simpl.
    exists (OrderedDict.remove_key key d ++ [(key, w)]).
    split; [reflexivity|]. split.
    + by rewrite keys_snoc, keys_remove_key.
    + intros k. destruct (decide (k = key)) as [->|Hne].
      * rewrite lookup_key_last by apply not_elem_of_remove_key. by rewrite Hw.
      * rewrite lookup_key_snoc_ne by exact Hne. by apply lookup_key_remove_ne.
  - apply lookup_key_None in Hin. rewrite Hin.
    exists d. split; [reflexivity|]. auto.
Qed.

(** [remove] tells whether the key was stored, deletes it, and touches
    nothing else. *)
Lemma remove_lookup self key :
  remove key self
  = Return (bool_decide (key ∈ stored self))
      (mk (capacity self) (OrderedDict.remove_key key (cache self))
          (hit_count self) (miss_count self)
          (eviction_count self) (access_count self)).
Proof.
  unfold remove, mbind, M_bind, this, modify, ret, mret, M_ret.
  unfold OrderedDict.contains.
  destruct self as [cap d hc mc ec ac]. simpl.
  case_bool_decide as Hin; simpl; [reflexivity|].
  do 2 f_equal. unfold OrderedDict.remove_key.
  clear -Hin. unfold OrderedDict.keys in Hin.
  induction d as [|[a w] d IH]; [reflexivity|].
  rewrite fmap_cons in Hin. apply not_elem_of_cons in Hin as [Hne Hin].
  rewrite filter_cons_True by (simpl; intros ->; by apply Hne). by rewrite <- IH.
Qed.

Lemma NoDup_promote k ks : NoDup ks -> NoDup (promote k ks).
Proof.
  intros Hnd. unfold promote. apply NoDup_app.
  split; [by apply NoDup_filter|]. split; [|apply NoDup_singleton].
  intros a Ha Hk. apply list_elem_of_singleton in Hk as ->.
  apply list_elem_of_filter in Ha as [Ha _]. congruence.
Qed.

Lemma length_filter_NoDup k ks :
  NoDup ks ->
  Z.of_nat (length (filter (fun a => a <> k) ks))
  = Z.of_nat (length ks) - (if bool_decide (k ∈ ks) then 1 else 0).
Proof.
  intros Hnd. case_bool_decide as Hin.
  - destruct (list_elem_of_split _ _ Hin) as (l1 & l2 & ->).
    apply NoDup_app in Hnd as (_ & Hdis & Hnd2).
    apply NoDup_cons in Hnd2 as [Hout2 _].
    assert (Hout1 : k ∉ l1).
    { intros H1. apply (Hdis k H1). apply list_elem_of_here. }
    rewrite filter_app, filter_cons_False by auto.
    rewrite !filter_absent by assumption.
    rewrite !length_app. simpl. lia.
  - rewrite filter_absent by exact Hin. lia.
Qed.

Lemma NoDup_drop1 ks : NoDup ks -> NoDup (drop 1 ks).
Proof.
  destruct ks as [|a ks]; [auto|]. simpl. rewrite drop_0.
  by intros [_ ?]%NoDup_cons.
Qed.


(** One call on a cache that agrees with a dictionary returns a sound
    reply and leaves a cache that agrees with the dictionary after the
    call; the access counters keep adding up. *)
Lemma perform_agrees self (dict : K -> option V) (c : call K V) :
  agrees self dict ->
  accesses_add_up self ->
  exists (r : reply V) (self' : LRUCache.t K V),
    perform c self = Return r self' /\
    reply_sound c r dict /\
    agrees self' (dict_perform c dict) /\
    accesses_add_up self' /\
    capacity self' = capacity self.
Proof.
  intros (Hcap & Hnd & Hle & Hev & Hsound & Hfull) (Hh & Hm & Ha).
  destruct c as [key v|key|key|]; simpl; unfold mbind, M_bind.
  - destruct (put_lookup self key v Hcap Hnd) as (d' & Hput & Hlook).
    destruct (put_returns self key v Hcap) as (self1 & Hput' & _ & Hkeys & _).
    pose proof (put_bounded self key v Hcap Hle) as Hb.
    rewrite Hput in Hput', Hb |- *. injection Hput' as <-. simpl in Hkeys, Hb.
    eexists _, _. split; [reflexivity|]. split; [exact I|].
    split; [|split; [by repeat split|reflexivity]].
    unfold agrees. simpl.
    split; [exact Hcap|]. split.
    { rewrite Hkeys. apply NoDup_promote.
      destruct (_ && _); [by apply NoDup_drop1 | exact Hnd]. }
    split; [exact Hb|]. split; [destruct (_ && _); lia|]. split.
    + intros k w. rewrite Hlook.
      destruct (decide (k = key)) as [->|Hne]; [done|].
      destruct (_ && bool_decide (_ !! _ = _)); [discriminate | apply Hsound].
    + intros Hzero k. rewrite Hlook.
      destruct (decide (k = key)) as [->|Hne]; [done|].
      destruct (bool_decide (key ∉ stored self) && _) eqn:Hev'; [lia|].
      simpl. by apply Hfull.
  - destruct (get_lookup self key) as (d' & Hget & Hkeys & Hlook).
    rewrite Hget. simpl.
    eexists _, _. split; [reflexivity|]. split.
    { destruct (value_of key self) eqn:E; [by apply Hsound | exact I]. }
    split; [|split; [|reflexivity]].
    + unfold agrees. simpl. rewrite Hkeys.
      split; [exact Hcap|]. split.
      { case_bool_decide; [by apply NoDup_promote | exact Hnd]. }
      split.
      { case_bool_decide as Hin; [|exact Hle].
        pose proof (length_promote_present key _ Hin). lia. }
      split; [exact Hev|]. split.
      * intros k w. rewrite Hlook. apply Hsound.
      * intros Hzero k. rewrite Hlook. by apply Hfull.
    + unfold accesses_add_up. simpl. case_bool_decide; lia.
  - rewrite remove_lookup. simpl.
    eexists _, _. split; [reflexivity|]. split.
    { case_bool_decide as Hin; [|exact I].
      destruct (lookup_key_present _ key Hin) as [w Hw].
      rewrite (Hsound _ _ Hw). by eexists. }
    split; [|split; [by repeat split|reflexivity]].
    unfold agrees. simpl. rewrite keys_remove_key.
    split; [exact Hcap|]. split; [by apply NoDup_filter|].
    split.
    { pose proof (length_filter (fun a => a <> key) (stored self)). lia. }
    split; [exact Hev|]. split.
    + intros k w. destruct (decide (k = key)) as [->|Hne].
      * by rewrite lookup_key_remove_eq.
      * rewrite lookup_key_remove_ne by exact Hne. apply Hsound.
    + intros Hzero k. destruct (decide (k = key)) as [->|Hne].
      * by rewrite lookup_key_remove_eq.
      * rewrite lookup_key_remove_ne by exact Hne. by apply Hfull.
  - unfold modify. simpl.
    eexists _, _. split; [reflexivity|]. split; [exact I|].
    split; [|split; [|reflexivity]].
    + unfold agrees, clear. simpl.
      split; [exact Hcap|]. split; [apply NoDup_nil_2|].
      split; [lia|]. split; [lia|]. split; [discriminate | reflexivity].
    + unfold accesses_add_up, clear. simpl. lia.
Qed.

Lemma perform_all_agrees (calls : list (call K V)) :
  forall self (dict : K -> option V),
  agrees self dict ->
  accesses_add_up self ->
  exists (rs : list (reply V)) (self' : LRUCache.t K V),
    perform_all calls self = Return rs self' /\
    replies_sound calls rs dict /\
    agrees self' (dict_perform_all calls dict) /\
    accesses_add_up self' /\
    capacity self' = capacity self.
Proof.
  induction calls as [|c calls IH]; intros self dict Hag Hacc.
  { exists [], self. simpl.
    split; [reflexivity|]. split; [exact I|]. split; [exact Hag|].
    split; [exact Hacc | reflexivity]. }
  destruct (perform_agrees self dict c Hag Hacc)
    as (r & self1 & Hp & Hr & Hag1 & Hacc1 & Hc1).
  destruct (IH self1 _ Hag1 Hacc1) as (rs & self2 & Hps & Hrs & Hag2 & Hacc2 & Hc2).
  exists (r :: rs), self2. simpl. unfold mbind, M_bind.
  rewrite Hp, Hps. simpl.
  split; [reflexivity|]. split; [by split|].
  split; [exact Hag2|]. split; [exact Hacc2 | congruence].
Qed.

Lemma init_agrees (C : Z) :
  1 <= C ->
  agrees (__init__ (K := K) (V := V) C) (fun _ => None)
  /\ accesses_add_up (__init__ (K := K) (V := V) C).
Proof.
  intros HC. split.
  - unfold agrees. simpl. split; [exact HC|]. split; [apply NoDup_nil_2|].
    split; [lia|]. split; [lia|]. split; [discriminate | reflexivity].
  - unfold accesses_add_up. simpl. lia.
Qed.


(** X4. Whatever calls a client makes on a fresh cache of capacity C >= 1
    (put, get, remove, clear, in any order), no call raises; the stored keys
    stay distinct and at most C; every value the cache holds or returns is
    the value last put for that key and not removed since, and only keys
    that were put are reported as removed; and as long as no eviction has
    been counted since the last clear, the cache holds exactly what a
    dictionary without a bound would hold. *)
Theorem lru_cache_is_sound_dictionary (C : Z) (calls : list (call K V)) :
  1 <= C ->
  let dict := dict_perform_all calls (fun _ => None) in
  exists (replies : list (reply V)) (self : LRUCache.t K V),
    perform_all calls (__init__ C) = Return replies self /\
    replies_sound calls replies (fun _ => None) /\
    NoDup (stored self) /\
    Z.of_nat (length (stored self)) <= C /\
    (forall k v, value_of k self = Some v -> dict k = Some v) /\
    (eviction_count self = 0 -> forall k, value_of k self = dict k).
Proof.
  intros HC dict.
  destruct (init_agrees C HC) as (Hag & Hacc).
  destruct (perform_all_agrees calls _ _ Hag Hacc)
    as (rs & self & Hp & Hrs & Hag' & _ & Hcap).
  exists rs, self. split; [exact Hp|]. split; [exact Hrs|].
  destruct Hag' as (_ & Hnd & Hle & _ & Hsound & Hfull). simpl in Hcap.
  rewrite Hcap in Hle. auto.
Qed.


(** X6. On a cache reached by any calls on a fresh cache of capacity
    C >= 1, a [put] followed by a [get] of the same key returns the value
    just put and counts a hit; the [put] evicts at most one key, and none
    when the key was stored already. *)
Theorem put_then_get_hits (C : Z) (calls : list (call K V)) (key : K) (v : V) :
  1 <= C ->
  let self := state_of (perform_all calls (__init__ C)) in
  let after_put := state_of (put key v self) in
  let after_get := state_of (get key after_put) in
  returned (put key v self) = Some tt /\
  returned (get key after_put) = Some (Some v) /\
  hit_count after_get = hit_count self + 1 /\
  miss_count after_get = miss_count self /\
  eviction_count self <= eviction_count after_put <= eviction_count self + 1 /\
  (key ∈ stored self -> eviction_count after_put = eviction_count self).
Proof.
  intros HC self after_put after_get. subst after_get after_put self.
  destruct (init_agrees C HC) as (Hag & Hacc).
  destruct (perform_all_agrees calls _ _ Hag Hacc)
    as (rs & self & Hp & _ & (Hcap & Hnd & _) & _ & _).
  rewrite Hp. simpl.
  destruct (put_lookup self key v Hcap Hnd) as (d' & Hput & Hlook).
  destruct (put_returns self key v Hcap) as (self1 & Hput' & _ & Hkeys & _).
  rewrite Hput in Hput' |- *. injection Hput' as <-. simpl in Hkeys. simpl.
  set (s1 := mk _ d' _ _ _ _).
  destruct (get_lookup s1 key) as (d2 & Hget & _).
  assert (Hin : key ∈ stored s1).
  { subst s1. simpl. rewrite Hkeys. unfold promote.
    apply elem_of_app. right. apply list_elem_of_here. }
  rewrite Hget. simpl. rewrite bool_decide_eq_true_2 by exact Hin.
  split; [reflexivity|]. split.
  { f_equal. specialize (Hlook key). by rewrite decide_True in Hlook. }
  split; [reflexivity|]. split; [reflexivity|]. split.
  - destruct (_ && _); lia.
  - intros Hstored. by rewrite (bool_decide_eq_false_2 (key ∉ _)) by auto.
Qed.

(** X7. On a cache reached by any calls on a fresh cache of capacity
    C >= 1, [remove] answers whether the key was stored; afterwards a
    [get] of the key is a miss, the other keys keep their order and their
    values, the size is one less if the key was stored and the same if not,
    and no counter has moved. *)
Theorem remove_then_get_misses (C : Z) (calls : list (call K V)) (key : K) :
  1 <= C ->
  let self := state_of (perform_all calls (__init__ C)) in
  let after := state_of (remove key self) in
  returned (remove key self) = Some (bool_decide (key ∈ stored self)) /\
  returned (get key after) = Some None /\
  stored after = filter (fun k => k <> key) (stored self) /\
  (forall k, k <> key -> value_of k after = value_of k self) /\
  Z.of_nat (length (stored after))
    = Z.of_nat (length (stored self))
      - (if bool_decide (key ∈ stored self) then 1 else 0) /\
  (hit_count after, miss_count after, eviction_count after, access_count after)
    = (hit_count self, miss_count self, eviction_count self, access_count self).
Proof.
  intros HC self after. subst after self.
  destruct (init_agrees C HC) as (Hag & Hacc).
  destruct (perform_all_agrees calls _ _ Hag Hacc)
    as (rs & self & Hp & _ & (Hcap & Hnd & _) & _ & _).
  rewrite Hp. simpl. rewrite remove_lookup. simpl.
  set (s1 := mk _ _ _ _ _ _).
  destruct (get_lookup s1 key) as (d2 & Hget & _).
  rewrite Hget. subst s1. simpl.
  split; [reflexivity|]. split; [by rewrite lookup_key_remove_eq|].
  split; [apply keys_remove_key|].
  split; [intros k Hne; by apply lookup_key_remove_ne|].
  split; [|reflexivity].
  rewrite keys_remove_key. by apply length_filter_NoDup.
Qed.

End LRUCacheDict.

(** The cache of the demonstration, then a removal and a clear. *)
Lemma lru_cache_is_sound_dictionary_witness :
  exists self : LRUCache.t string string,
    LRUCache.perform_all
      [LRUCache.CallPut "face1" "John"; LRUCache.CallPut "face2" "Jane";
       LRUCache.CallPut "face3" "Bob"; LRUCache.CallGet "face1";
       LRUCache.CallPut "face4" "Alice"; LRUCache.CallGet "face2";
       LRUCache.CallRemove "face3"; LRUCache.CallGet "face4"]
      (LRUCache.__init__ 3)
    = Return [LRUCache.Stored; LRUCache.Stored; LRUCache.Stored;
              LRUCache.Found (Some "John"); LRUCache.Stored;
              LRUCache.Found None; LRUCache.Removed true;
              LRUCache.Found (Some "Alice")] self /\
    Z.of_nat (length (OrderedDict.keys (LRUCache.cache self))) <= 3.
Proof.
  destruct (lru_cache_is_sound_dictionary 3
    [LRUCache.CallPut "face1" "John"; LRUCache.CallPut "face2" "Jane";
     LRUCache.CallPut "face3" "Bob"; LRUCache.CallGet "face1";
     LRUCache.CallPut "face4" "Alice"; LRUCache.CallGet "face2";
     LRUCache.CallRemove "face3"; LRUCache.CallGet "face4"] ltac:(lia))
    as (replies & self & Hrun & _ & _ & Hle & _).
  exists self. split; [|exact Hle].
  rewrite Hrun. vm_compute in Hrun. by injection Hrun as <- <-.
Defined.


Lemma put_then_get_hits_witness :
  returned
    (LRUCache.get "face4"
       (state_of (LRUCache.put "face4" "Alice"
          (state_of (LRUCache.perform_all
             [LRUCache.CallPut "face1" "John"; LRUCache.CallPut "face2" "Jane";
              LRUCache.CallPut "face3" "Bob"]
             (LRUCache.__init__ 3))))))
  = Some (Some "Alice").
Proof.
  exact (proj1 (proj2 (put_then_get_hits 3
    [LRUCache.CallPut "face1" "John"; LRUCache.CallPut "face2" "Jane";
     LRUCache.CallPut "face3" "Bob"] "face4" "Alice" ltac:(lia)))).
Defined.

Lemma remove_then_get_misses_witness :
  returned
    (LRUCache.get "face1"
       (state_of (LRUCache.remove "face1"
          (state_of (LRUCache.perform_all
             [LRUCache.CallPut "face1" "John"; LRUCache.CallPut "face2" "Jane"]
             (LRUCache.__init__ 3))))))
  = Some None.
Proof.
  exact (proj1 (proj2 (remove_then_get_misses 3
    [LRUCache.CallPut "face1" "John"; LRUCache.CallPut "face2" "Jane"]
    "face1" ltac:(lia)))).
Defined.

(* --------------------------------------------------------------------- *)
(** ** The history of the state machine *)
(* --------------------------------------------------------------------- *)

Lemma is_path_snoc (states : list SystemState) (a b : SystemState) :
  StateMachine.is_path states = true ->
  last states = Some a ->
  StateTransition.is_valid_transition a b = true ->
  StateMachine.is_path (states ++ [b]) = true.
Proof.
  induction states as [|x [|y rest] IH]; intros Hp Hl Hv.
  - discriminate Hl.
  - simpl in Hl. injection Hl as ->. simpl. by rewrite Hv.
  - change (StateTransition.is_valid_transition x y
            && StateMachine.is_path (y :: rest) = true) in Hp.
    apply andb_true_iff in Hp as [Hxy Hp].
    change (StateTransition.is_valid_transition x y
            && StateMachine.is_path ((y :: rest) ++ [b]) = true).
    rewrite Hxy. simpl. apply IH; [exact Hp | exact Hl | exact Hv].
Qed.

Lemma history_path_transition_to (m : StateMachine.t) (states : list SystemState)
    (initial : SystemState) target reason ck :
  StateMachine.e_state <$> StateMachine.state_history m = value <$> states ->
  StateMachine.is_path states = true ->
  head states = Some initial ->
  last states = Some (StateMachine.current_state m) ->
  match StateMachine.previous_state m with
  | None => StateMachine.transition_count m = 0 /\ states = [initial]
  | Some p =>
      StateTransition.is_valid_transition p (StateMachine.current_state m) = true
  end ->
  0 <= StateMachine.transition_count m ->
  let m' := (StateMachine.transition_to target reason ck m).1.2 in
  exists states',
    StateMachine.e_state <$> StateMachine.state_history m' = value <$> states' /\
    StateMachine.is_path states' = true /\
    head states' = Some initial /\
    last states' = Some (StateMachine.current_state m') /\
    match StateMachine.previous_state m' with
    | None => StateMachine.transition_count m' = 0 /\ states' = [initial]
    | Some p =>
        StateTransition.is_valid_transition p (StateMachine.current_state m') = true
    end /\
    0 <= StateMachine.transition_count m'.
Proof.
  intros Hh Hp Hhd Hl Hprev Hcount. cbv zeta.
  unfold StateMachine.transition_to.
  destruct (StateTransition.is_valid_transition _ target) eqn:Hv; simpl.
  - exists (states ++ [target]). rewrite !fmap_app, Hh. simpl.
    split; [reflexivity|]. split; [by eapply is_path_snoc|].
    split; [by destruct states|]. split; [by rewrite last_snoc|].
    split; [exact Hv | lia].
  - exists states. repeat (split; [assumption|]). assumption.
Qed.

(** X8. The history of a machine is a walk in the transition graph: after
    any sequence of [transition_to] calls on a machine constructed in state
    [initial], the states recorded in the history, in order, start with
    [initial], end with the current state, and each is followed by one of
    its valid successors (so no state is recorded twice in a row). The
    previous state is unset exactly while no transition has succeeded, and
    otherwise it is a valid predecessor of the current state: the machine is
    in Alarm only coming from Alert, and in Cooldown only coming from
    Alarm. *)
Theorem history_is_walk_in_transition_graph
    (initial : SystemState) (t0 : Q) (ck0 : StateMachine.stamp)
    (calls : list (SystemState * string * StateMachine.stamp)) :
  let m := (StateMachine.transitions calls (StateMachine.__init__ initial t0 ck0)).2 in
  (exists states : list SystemState,
     StateMachine.e_state <$> StateMachine.state_history m = value <$> states /\
     StateMachine.is_path states = true /\
     head states = Some initial /\
     last states = Some (StateMachine.current_state m)) /\
  match StateMachine.previous_state m with
  | None =>
      StateMachine.transition_count m = 0 /\
      StateMachine.current_state m = initial
  | Some p =>
      0 < StateMachine.transition_count m /\
      StateTransition.is_valid_transition p (StateMachine.current_state m) = true /\
      p <> StateMachine.current_state m /\
      (StateMachine.current_state m = ALARM -> p = ALERT) /\
      (StateMachine.current_state m = COOLDOWN -> p = ALARM)
  end.
Proof.
  cbv zeta.
  assert (Hgen : forall calls m states,
    StateMachine.e_state <$> StateMachine.state_history m = value <$> states ->
    StateMachine.is_path states = true ->
    head states = Some initial ->
    last states = Some (StateMachine.current_state m) ->
    match StateMachine.previous_state m with
    | None => StateMachine.transition_count m = 0 /\ states = [initial]
    | Some p =>
        StateTransition.is_valid_transition p (StateMachine.current_state m) = true
    end ->
    0 <= StateMachine.transition_count m ->
    (StateMachine.previous_state m <> None -> 0 < StateMachine.transition_count m) ->
    let m' := (StateMachine.transitions calls m).2 in
    (exists states',
      StateMachine.e_state <$> StateMachine.state_history m' = value <$> states' /\
      StateMachine.is_path states' = true /\
      head states' = Some initial /\
      last states' = Some (StateMachine.current_state m') /\
      match StateMachine.previous_state m' with
      | None => StateMachine.transition_count m' = 0 /\ states' = [initial]
      | Some p =>
          StateTransition.is_valid_transition p (StateMachine.current_state m') = true
      end) /\
    (StateMachine.previous_state m' <> None -> 0 < StateMachine.transition_count m')).
  { clear calls. induction calls as [|[[target reason] ck] calls IH];
      intros m states Hh Hp Hhd Hl Hprev Hc Hpos; cbv zeta.
    { simpl. split; [|exact Hpos]. exists states.
      repeat (split; [assumption|]). assumption. }
    simpl.
    destruct (history_path_transition_to m states initial target reason ck
                Hh Hp Hhd Hl Hprev Hc)
      as (states' & Hh' & Hp' & Hhd' & Hl' & Hprev' & Hc').
    assert (Hpos' : StateMachine.previous_state
                      (StateMachine.transition_to target reason ck m).1.2 <> None ->
                    0 < StateMachine.transition_count
                          (StateMachine.transition_to target reason ck m).1.2).
    { unfold StateMachine.transition_to.
      destruct (negb _); simpl; [exact Hpos | intros _; lia]. }
    destruct (StateMachine.transition_to target reason ck m) as [[ok m1] ev].
    simpl in *.
    specialize (IH m1 states' Hh' Hp' Hhd' Hl' Hprev' Hc' Hpos').
    cbv zeta in IH.
    destruct (StateMachine.transitions calls m1) as [oks m2]. exact IH. }
  specialize (Hgen calls (StateMachine.__init__ initial t0 ck0) [initial]
                eq_refl eq_refl eq_refl eq_refl
                (conj eq_refl eq_refl) ltac:(simpl; lia)
                ltac:(intros H; by destruct H)).
  cbv zeta in Hgen.
  destruct Hgen as ((states & Hh & Hp & Hhd & Hl & Hprev) & Hpos).
  split; [exists states; auto|].
  destruct (StateMachine.previous_state _) as [p|] eqn:Hpv.
  - split; [by apply Hpos|]. split; [exact Hprev|].
    rewrite is_valid_transition_table in Hprev.
    split; [intros ->; by destruct (StateMachine.current_state _)|].
    split; intros Hcur; rewrite Hcur in Hprev; by destruct p.
  - destruct Hprev as (Hz & ->). simpl in Hl. split; [exact Hz | congruence].
Qed.

(* --------------------------------------------------------------------- *)
(** ** Callbacks of the state machine *)
(* --------------------------------------------------------------------- *)


(* --------------------------------------------------------------------- *)
(** ** The alarm never fires twice within a cooldown *)
(* --------------------------------------------------------------------- *)

Lemma alarm_perform_keeps_settings (c : AlarmSystem.call) (self : AlarmSystem.t) :
  AlarmSystem.enabled (AlarmSystem.perform c self) = AlarmSystem.enabled self /\
  AlarmSystem.cooldown_period (AlarmSystem.perform c self)
    = AlarmSystem.cooldown_period self.
Proof.
  destruct c as [t_check t_stamp sound| |]; simpl; auto.
  unfold AlarmSystem.trigger. by destruct (negb _).
Qed.

Lemma alarm_run_spaced (calls : list AlarmSystem.call) : forall self : AlarmSystem.t,
  let final := AlarmSystem.perform_all calls self in
  let firings := AlarmSystem.fired calls self in
  AlarmSystem.enabled final = AlarmSystem.enabled self /\
  AlarmSystem.cooldown_period final = AlarmSystem.cooldown_period self /\
  AlarmSystem.trigger_count final
    = AlarmSystem.trigger_count self + Z.of_nat (length firings) /\
  AlarmSystem.spaced (AlarmSystem.cooldown_period self)
    (AlarmSystem.last_trigger_time self) firings /\
  AlarmSystem.last_trigger_time final
    = from_option snd (AlarmSystem.last_trigger_time self) (last firings) /\
  (AlarmSystem.enabled self = false -> firings = []).
Proof.
  induction calls as [|c calls IH]; intros self; cbv zeta.
  { simpl. repeat split; lia. }
  specialize (IH (AlarmSystem.perform c self)). cbv zeta in IH.
  destruct IH as (IHe & IHp & IHn & IHs & IHl & IHd).
  destruct (alarm_perform_keeps_settings c self) as (He & Hp).
  rewrite He, Hp in *.
  destruct c as [t_check t_stamp sound| |]; simpl in *.
  - destruct (AlarmSystem.can_trigger t_check self) eqn:Hcan.
    + pose proof (trigger_fires self t_check t_stamp sound Hcan)
        as (_ & Hs & Hn & _).
      cbv zeta in Hs, Hn. rewrite Hs, Hn in *.
      apply can_trigger_iff in Hcan as [Hen Hgap].
      split; [exact IHe|]. split; [exact IHp|].
      split; [simpl; lia|]. split; [simpl; split; [exact Hgap | exact IHs]|].
      split.
      * rewrite IHl, last_cons.
        by destruct (last (AlarmSystem.fired calls _)).
      * intros Hoff. congruence.
    + rewrite (trigger_blocked self t_check t_stamp sound Hcan) in *.
      repeat (split; [assumption|]). assumption.
  - repeat (split; [assumption|]). assumption.
  - repeat (split; [assumption|]). assumption.
Qed.

(** X10. Over any sequence of [trigger] calls, with alarm threads ending and
    [stop] calls in between: [trigger_count] grows by the number of calls
    that fired; each firing was checked at least a cooldown period after the
    time stamped by the firing before it (for the first, after the
    [last_trigger_time] the run started with); [last_trigger_time] is the
    stamp of the last firing; and a disabled alarm never fires. *)
Theorem alarm_firings_are_spaced
    (calls : list AlarmSystem.call) (self : AlarmSystem.t) :
  let final := AlarmSystem.perform_all calls self in
  let firings := AlarmSystem.fired calls self in
  AlarmSystem.trigger_count final
    = AlarmSystem.trigger_count self + Z.of_nat (length firings) /\
  AlarmSystem.spaced (AlarmSystem.cooldown_period self)
    (AlarmSystem.last_trigger_time self) firings /\
  AlarmSystem.last_trigger_time final
    = from_option snd (AlarmSystem.last_trigger_time self) (last firings) /\
  (AlarmSystem.enabled self = false ->
   firings = [] /\ AlarmSystem.trigger_count final = AlarmSystem.trigger_count self).
Proof.
  cbv zeta.
  pose proof (alarm_run_spaced calls self) as H. cbv zeta in H.
  destruct H as (_ & _ & Hn & Hs & Hl & Hd).
  split; [exact Hn|]. split; [exact Hs|]. split; [exact Hl|].
  intros Hoff. specialize (Hd Hoff). rewrite Hd in Hn. simpl in Hn.
  split; [exact Hd | lia].
Qed.

(** A disabled alarm, asked to fire three times. *)
Lemma alarm_firings_are_spaced_witness :
  AlarmSystem.trigger_count
    (AlarmSystem.perform_all
       [AlarmSystem.Trigger 1000 1000 false; AlarmSystem.ThreadFinished;
        AlarmSystem.Trigger 1020 1020 false; AlarmSystem.Trigger 1040 1040 false]
       (AlarmSystem.__init__
          (AlarmSystem.mk_config (Some false) None None None) false))
  = 0.
Proof.
  pose proof (alarm_firings_are_spaced
    [AlarmSystem.Trigger 1000 1000 false; AlarmSystem.ThreadFinished;
     AlarmSystem.Trigger 1020 1020 false; AlarmSystem.Trigger 1040 1040 false]
    (AlarmSystem.__init__
       (AlarmSystem.mk_config (Some false) None None None) false)) as H.
  cbv zeta in H. destruct H as (_ & _ & _ & Hoff).
  exact (proj2 (Hoff eq_refl)).
Defined.

(* --------------------------------------------------------------------- *)
(** ** The comparator and the gates *)
(* --------------------------------------------------------------------- *)




(* --------------------------------------------------------------------- *)
(** ** The bookkeeping of the motion detector *)
(* --------------------------------------------------------------------- *)

Section MotionBookkeeping.
Context {Frame Gray Contour : Type}.
Variable cv2_gray_blur : Z -> Frame -> Gray.
Variable cv2_absdiff : Gray -> Gray -> Gray.
Variable cv2_threshold : Q -> Gray -> Gray.
Variable cv2_dilate : Z -> Gray -> Gray.
Variable cv2_findContours : Gray -> list Contour.
Variable cv2_contourArea : Contour -> Q.

Abbreviation detect_motion_ :=
  (MotionDetector.detect_motion cv2_gray_blur cv2_absdiff cv2_threshold
     cv2_dilate cv2_findContours cv2_contourArea).
Abbreviation detect_all_ :=
  (MotionDetector.detect_all cv2_gray_blur cv2_absdiff cv2_threshold
     cv2_dilate cv2_findContours cv2_contourArea).





Lemma detect_all_cons (frame : Frame) (t0 t1 : Q) (frames : list (Frame * Q * Q))
    (self : MotionDetector.t Gray) :
  detect_all_ ((frame, t0, t1) :: frames) self
  = let r := detect_motion_ frame t0 t1 self in
    let r' := detect_all_ frames r.2 in
    (r.1.1 :: r'.1, r'.2).
Proof.
  simpl. destruct (detect_motion_ frame t0 t1 self) as [[b info] self1].
  simpl. by destruct (detect_all_ frames self1).
Qed.



End MotionBookkeeping.

(* --------------------------------------------------------------------- *)
(** ** The window and the output of the temporal smoothing *)
(* --------------------------------------------------------------------- *)

Lemma smoothing_step (self : FaceRecognizer.t) (raw : list string * list FaceRecognizer.location) :
  FaceRecognizer.history_length self = 5 ->
  FaceRecognizer.min_confidence_frames self = 3 ->
  let r := FaceRecognizer._apply_temporal_smoothing raw.1 raw.2 self in
  let history := FaceRecognizer.face_history self ++ [FaceRecognizer.observation raw] in
  FaceRecognizer.history_length r.2 = 5 /\
  FaceRecognizer.min_confidence_frames r.2 = 3 /\
  FaceRecognizer.face_history r.2
    = (if bool_decide (FaceRecognizer.len history > 5) then drop 1 history else history) /\
  r.1 = (FaceRecognizer.last_stable_names r.2, FaceRecognizer.last_stable_faces r.2) /\
  (r.1 = raw \/
   r.1 = (FaceRecognizer.last_stable_names self, FaceRecognizer.last_stable_faces self)) /\
  (FaceRecognizer.len (FaceRecognizer.face_history r.2) < 3 -> r.1 = raw).
Proof.
  intros Hl Hm. cbv zeta. destruct raw as [names locs].
  unfold FaceRecognizer._apply_temporal_smoothing, FaceRecognizer.observation.
  simpl. rewrite Hl, Hm.
  set (h0 := FaceRecognizer.face_history self ++ _).
  set (history := if bool_decide (FaceRecognizer.len h0 > 5) then drop 1 h0 else h0).
  case_bool_decide as Hshort; [|case_bool_decide as Hnear]; cbn;
    repeat split; auto; lia.
Qed.

Lemma last_five_snoc {A} (seen : list A) (x : A) :
  let history := drop (length seen - 5) seen ++ [x] in
  (if bool_decide (FaceRecognizer.len history > 5) then drop 1 history else history)
  = drop (length (seen ++ [x]) - 5) (seen ++ [x]).
Proof.
  cbv zeta. unfold FaceRecognizer.len.
  rewrite !length_app, length_drop. simpl.
  destruct (decide (length seen < 5)%nat) as [Hlt|Hge].
  - rewrite bool_decide_eq_false_2 by lia.
    replace (length seen - 5)%nat with 0%nat by lia.
    replace (length seen + 1 - 5)%nat with 0%nat by lia. reflexivity.
  - rewrite bool_decide_eq_true_2 by lia.
    replace (length seen + 1 - 5)%nat with (S (length seen - 5)) by lia.
    rewrite (drop_app_le seen [x] (S (length seen - 5))) by lia.
    rewrite (drop_app_le (drop (length seen - 5) seen) [x] 1)
      by (rewrite length_drop; lia).
    rewrite drop_drop. do 2 f_equal. lia.
Qed.

Lemma smooth_all_cons (raw : list string * list FaceRecognizer.location)
    (rest : list (list string * list FaceRecognizer.location)) (self : FaceRecognizer.t) :
  FaceRecognizer.smooth_all (raw :: rest) self
  = let r := FaceRecognizer._apply_temporal_smoothing raw.1 raw.2 self in
    let r' := FaceRecognizer.smooth_all rest r.2 in
    (r.1 :: r'.1, r'.2).
Proof.
  destruct raw as [n l]. simpl.
  destruct (FaceRecognizer._apply_temporal_smoothing n l self) as [out self1].
  simpl. by destruct (FaceRecognizer.smooth_all rest self1).
Qed.

Lemma smooth_all_invariant (raw : list (list string * list FaceRecognizer.location)) :
  forall (self : FaceRecognizer.t) (seen : list (list string * list FaceRecognizer.location)),
  FaceRecognizer.history_length self = 5 ->
  FaceRecognizer.min_confidence_frames self = 3 ->
  FaceRecognizer.face_history self
    = FaceRecognizer.observation <$> drop (length seen - 5) seen ->
  let r := FaceRecognizer.smooth_all raw self in
  length r.1 = length raw /\
  FaceRecognizer.face_history r.2
    = FaceRecognizer.observation <$> drop (length (seen ++ raw) - 5) (seen ++ raw) /\
  (FaceRecognizer.last_stable_names r.2, FaceRecognizer.last_stable_faces r.2)
    = default (FaceRecognizer.last_stable_names self,
               FaceRecognizer.last_stable_faces self) (last r.1) /\
  (forall i, (length seen + i < 2)%nat -> r.1 !! i = raw !! i) /\
  (forall i out, r.1 !! i = Some out ->
     raw !! i = Some out \/
     out = default (FaceRecognizer.last_stable_names self,
                    FaceRecognizer.last_stable_faces self)
             (match i with O => None | S j => r.1 !! j end)).
Proof.
  induction raw as [|x raw IH]; intros self seen Hl Hm Hh; cbv zeta.
  { simpl. rewrite app_nil_r. split; [reflexivity|]. split; [exact Hh|].
    split; [reflexivity|]. split; [reflexivity|]. intros i out Hi.
    by rewrite lookup_nil in Hi. }
  rewrite smooth_all_cons. cbv zeta.
  pose proof (smoothing_step self x Hl Hm) as Hs. cbv zeta in Hs.
  set (r1 := FaceRecognizer._apply_temporal_smoothing x.1 x.2 self) in *.
  clearbody r1. destruct r1 as [out self1]. cbn [fst snd] in *.
  destruct Hs as (Hl1 & Hm1 & Hh1 & Hout & Hor & Hshort).
  assert (Hh1' : FaceRecognizer.face_history self1
                 = FaceRecognizer.observation <$>
                   drop (length (seen ++ [x]) - 5) (seen ++ [x])).
  { rewrite Hh1, Hh. rewrite <- last_five_snoc. cbv zeta.
    change [FaceRecognizer.observation x] with (FaceRecognizer.observation <$> [x]).
    rewrite <- fmap_app. unfold FaceRecognizer.len. rewrite length_fmap.
    repeat case_bool_decide; first [reflexivity | symmetry; apply fmap_drop]. }
  specialize (IH self1 (seen ++ [x]) Hl1 Hm1 Hh1'). cbv zeta in IH.
  destruct (FaceRecognizer.smooth_all raw self1) as [outs self2].
  cbn [fst snd] in *.
  destruct IH as (IHlen & IHh & IHst & IHfirst & IHor).
  rewrite <- app_assoc in IHh. simpl in IHh.
  split; [simpl; lia|]. split; [exact IHh|]. split.
  { rewrite IHst, last_cons. rewrite <- Hout.
    by destruct (last outs). }
  split.
  - intros [|i] Hi; simpl.
    + f_equal. apply Hshort. rewrite Hh1'. unfold FaceRecognizer.len.
      rewrite length_fmap, length_drop, length_app. simpl. lia.
    + apply IHfirst. rewrite length_app. simpl. lia.
  - intros [|i] o Hi; simpl in Hi |- *.
    + injection Hi as <-. destruct Hor as [->|Hprev]; [by left | by right].
    + destruct (IHor i o Hi) as [Hraw|Hprev]; [by left|right].
      rewrite Hprev. rewrite <- Hout.
      destruct i as [|j]; [reflexivity|].
      simpl. destruct (outs !! j) as [o'|] eqn:Hj; [reflexivity|].
      apply lookup_lt_Some in Hi. apply lookup_ge_None in Hj. lia.
Qed.

(** X13. Fed any sequence of raw detections from the start, the smoothing
    keeps as its window exactly the last five observations; it passes the
    first two detections through unchanged; after every call the result it
    returned is the stable result it has stored; and every result is either
    the raw detection of that call or the result of the call before (never
    a mix of the two, never an older one). *)
Theorem smoothing_window_and_output
    (raw : list (list string * list FaceRecognizer.location)) :
  let r := FaceRecognizer.smooth_all raw FaceRecognizer.__init__ in
  let outs := r.1 in
  let self := r.2 in
  length outs = length raw /\
  FaceRecognizer.face_history self
    = FaceRecognizer.observation <$> drop (length raw - 5) raw /\
  Z.of_nat (length (FaceRecognizer.face_history self)) <= 5 /\
  take 2 outs = take 2 raw /\
  (FaceRecognizer.last_stable_names self, FaceRecognizer.last_stable_faces self)
    = default ([], []) (last outs) /\
  (forall i out, outs !! S i = Some out ->
     raw !! S i = Some out \/ outs !! i = Some out).
Proof.
  cbv zeta.
  pose proof (smooth_all_invariant raw FaceRecognizer.__init__ []
                eq_refl eq_refl eq_refl) as H.
  cbv zeta in H. simpl in H.
  destruct (FaceRecognizer.smooth_all raw FaceRecognizer.__init__) as [outs self].
  cbn [fst snd] in *.
  destruct H as (Hlen & Hh & Hst & Hfirst & Hor).
  split; [exact Hlen|]. split; [exact Hh|]. split.
  { rewrite Hh, length_fmap, length_drop. lia. }
  split.
  { apply list_eq. intros i. rewrite !lookup_take.
    destruct (decide (i < 2)%nat) as [Hi|Hi]; [|reflexivity].
    by apply Hfirst. }
  split; [exact Hst|].
  intros i out Hi. destruct (Hor (S i) out Hi) as [Hraw|Hprev]; [by left|right].
  destruct (outs !! i) as [o|] eqn:Ho; [by rewrite Hprev|].
  apply lookup_lt_Some in Hi. apply lookup_ge_None in Ho. lia.
Qed.

(* --------------------------------------------------------------------- *)
(** ** The detection interval of the recognizer *)
(* --------------------------------------------------------------------- *)

Lemma smoothing_output_is_stored (names_ : list string)
    (locations_ : list FaceRecognizer.location) (self : FaceRecognizer.t) :
  let r := FaceRecognizer._apply_temporal_smoothing names_ locations_ self in
  FaceRecognizer.stable r.2 = r.1.
Proof.
  cbv zeta. unfold FaceRecognizer._apply_temporal_smoothing, FaceRecognizer.stable.
  repeat case_bool_decide; reflexivity.
Qed.

Lemma recognize_faces_returns (raw : list string * list FaceRecognizer.location)
    (start_time end_time : Q) (s : FaceRecognizer.recognizer) :
  FaceRecognizer.detection_interval s <> 0 ->
  FaceRecognizer.recognize_faces raw start_time end_time s
  = if bool_decide ((FaceRecognizer.frame_counter s + 1)
                      mod FaceRecognizer.detection_interval s = 0)
    then
      let r := FaceRecognizer._apply_temporal_smoothing raw.1 raw.2
                 (FaceRecognizer.smoothing s) in
      Return r.1
        (FaceRecognizer.mk_recognizer r.2 (FaceRecognizer.detection_interval s)
           (FaceRecognizer.frame_counter s + 1)
           (FaceRecognizer.total_recognitions s + 1)
           (FaceRecognizer.recognition_time_total s + (end_time - start_time))%Q)
    else
      Return (FaceRecognizer.stable (FaceRecognizer.smoothing s))
        (FaceRecognizer.mk_recognizer (FaceRecognizer.smoothing s)
           (FaceRecognizer.detection_interval s)
           (FaceRecognizer.frame_counter s + 1)
           (FaceRecognizer.total_recognitions s)
           (FaceRecognizer.recognition_time_total s)).
Proof.
  intros Hn. unfold FaceRecognizer.recognize_faces, py_mod, modify, this, ret, raise.
  unfold mbind, M_bind, mret, M_ret. simpl.
  rewrite bool_decide_eq_false_2 by exact Hn.
  destruct (decide ((FaceRecognizer.frame_counter s + 1)
                      mod FaceRecognizer.detection_interval s = 0)) as [Hz|Hz].
  - rewrite (bool_decide_eq_true_2 _ Hz).
    rewrite bool_decide_eq_false_2 by (intros H; by apply H).
    by destruct (FaceRecognizer._apply_temporal_smoothing _ _ _).
  - rewrite (bool_decide_eq_false_2 _ Hz).
    by rewrite bool_decide_eq_true_2 by exact Hz.
Qed.

Lemma recognize_faces_zero_interval (raw : list string * list FaceRecognizer.location)
    (start_time end_time : Q) (s : FaceRecognizer.recognizer) :
  FaceRecognizer.detection_interval s = 0 ->
  FaceRecognizer.recognize_faces raw start_time end_time s
  = Raise ZeroDivisionError
      (FaceRecognizer.mk_recognizer (FaceRecognizer.smoothing s)
         (FaceRecognizer.detection_interval s)
         (FaceRecognizer.frame_counter s + 1)
         (FaceRecognizer.total_recognitions s)
         (FaceRecognizer.recognition_time_total s)).
Proof.
  intros Hn. unfold FaceRecognizer.recognize_faces, py_mod, modify, this, ret, raise.
  unfold mbind, M_bind, mret, M_ret. simpl.
  by rewrite bool_decide_eq_true_2 by exact Hn.
Qed.

Lemma recognize_all_cons (f : (list string * list FaceRecognizer.location) * Q * Q)
    (frames : list ((list string * list FaceRecognizer.location) * Q * Q))
    (s : FaceRecognizer.recognizer) :
  FaceRecognizer.recognize_all (f :: frames) s
  = match FaceRecognizer.recognize_faces f.1.1 f.1.2 f.2 s with
    | Return out s1 =>
        match FaceRecognizer.recognize_all frames s1 with
        | Return outs s2 => Return (out :: outs) s2
        | Raise e s2 => Raise e s2
        end
    | Raise e s1 => Raise e s1
    end.
Proof.
  destruct f as [[raw t0] t1]. reflexivity.
Qed.

Lemma div_succ (n c : Z) :
  1 <= n ->
  (c + 1) / n = c / n + (if bool_decide ((c + 1) mod n = 0) then 1 else 0).
Proof.
  intros Hn. pose proof (Z.div_mod (c + 1) n ltac:(lia)) as Hdm.
  pose proof (Z.mod_pos_bound (c + 1) n ltac:(lia)) as Hb.
  case_bool_decide as Hz.
  - assert (c / n = (c + 1) / n - 1) as ->; [|lia].
    symmetry. apply (Z.div_unique c n _ (n - 1)); [lia|]. nia.
  - assert (c / n = (c + 1) / n) as ->; [|lia].
    symmetry. apply (Z.div_unique c n _ ((c + 1) mod n - 1)); [lia|]. nia.
Qed.

Lemma length_sampled {A} (n : Z) (frames : list A) :
  1 <= n ->
  forall c, FaceRecognizer.len (FaceRecognizer.sampled n c frames)
            = (c + FaceRecognizer.len frames) / n - c / n.
Proof.
  intros Hn. unfold FaceRecognizer.len.
  induction frames as [|f frames IH]; intros c; simpl FaceRecognizer.sampled.
  - simpl. rewrite Z.add_0_r. lia.
  - pose proof (div_succ n c Hn) as Hs. specialize (IH (c + 1)).
    replace (c + Z.of_nat (length (f :: frames)))
      with (c + 1 + Z.of_nat (length frames)) by (simpl length; lia).
    case_bool_decide; simpl length; lia.
Qed.

Lemma recognize_all_invariant
    (frames : list ((list string * list FaceRecognizer.location) * Q * Q)) :
  forall s : FaceRecognizer.recognizer,
  FaceRecognizer.detection_interval s <> 0 ->
  exists outs s',
    FaceRecognizer.recognize_all frames s = Return outs s' /\
    length outs = length frames /\
    FaceRecognizer.detection_interval s' = FaceRecognizer.detection_interval s /\
    FaceRecognizer.frame_counter s'
      = FaceRecognizer.frame_counter s + FaceRecognizer.len frames /\
    FaceRecognizer.total_recognitions s'
      = FaceRecognizer.total_recognitions s
        + FaceRecognizer.len
            (FaceRecognizer.sampled (FaceRecognizer.detection_interval s)
               (FaceRecognizer.frame_counter s) frames) /\
    FaceRecognizer.smoothing s'
      = (FaceRecognizer.smooth_all
           ((fun f => f.1.1) <$>
              FaceRecognizer.sampled (FaceRecognizer.detection_interval s)
                (FaceRecognizer.frame_counter s) frames)
           (FaceRecognizer.smoothing s)).2 /\
    FaceRecognizer.stable (FaceRecognizer.smoothing s')
      = default (FaceRecognizer.stable (FaceRecognizer.smoothing s)) (last outs) /\
    (forall i out, outs !! i = Some out ->
       (FaceRecognizer.frame_counter s + Z.of_nat i + 1)
         mod FaceRecognizer.detection_interval s <> 0 ->
       out = default (FaceRecognizer.stable (FaceRecognizer.smoothing s))
               (match i with O => None | S j => outs !! j end)).
Proof.
  induction frames as [|f frames IH]; intros s Hn.
  { exists [], s. simpl. unfold FaceRecognizer.len. simpl.
    split; [reflexivity|]. split; [reflexivity|]. split; [reflexivity|].
    split; [lia|]. split; [lia|]. split; [reflexivity|]. split; [reflexivity|].
    intros i out Hi. by rewrite lookup_nil in Hi. }
  rewrite recognize_all_cons, (recognize_faces_returns _ _ _ _ Hn).
  pose proof (smoothing_output_is_stored f.1.1.1 f.1.1.2 (FaceRecognizer.smoothing s))
    as Hstored. cbv zeta in Hstored.
  simpl FaceRecognizer.sampled.
  destruct (decide ((FaceRecognizer.frame_counter s + 1)
                      mod FaceRecognizer.detection_interval s = 0)) as [Hz|Hz].
  - rewrite !(bool_decide_eq_true_2 _ Hz). cbv zeta.
    rewrite fmap_cons, smooth_all_cons. cbv zeta.
    set (r := FaceRecognizer._apply_temporal_smoothing f.1.1.1 f.1.1.2
                (FaceRecognizer.smoothing s)) in *.
    clearbody r. destruct r as [out sm]. cbn [fst snd] in *.
    set (s1 := FaceRecognizer.mk_recognizer sm _ _ _ _).
    destruct (IH s1 Hn) as (outs & s' & Hrun & Hlen & Hint & Hcnt & Htot & Hsm & Hst & Hskip).
    rewrite Hrun. exists (out :: outs), s'. subst s1. cbn in Hint, Hcnt, Htot, Hsm, Hst, Hskip.
    unfold FaceRecognizer.len in *.
    split; [reflexivity|]. split; [simpl; lia|]. split; [exact Hint|].
    split; [simpl length; lia|]. split; [simpl length; lia|].
    split; [exact Hsm|]. split.
    { rewrite Hst, last_cons, Hstored. by destruct (last outs). }
    intros [|i] o Hi Hnz.
    + exfalso. apply Hnz. by rewrite Z.add_0_r.
    + simpl in Hi. rewrite (Hskip i o Hi) by (by replace
        (FaceRecognizer.frame_counter s + 1 + Z.of_nat i + 1)
        with (FaceRecognizer.frame_counter s + Z.of_nat (S i) + 1) by lia).
      rewrite Hstored. destruct i as [|j]; [reflexivity|].
      simpl. destruct (outs !! j) as [o'|] eqn:Hj; [reflexivity|].
      apply lookup_lt_Some in Hi. apply lookup_ge_None in Hj. lia.
  - rewrite !(bool_decide_eq_false_2 _ Hz).
    set (s1 := FaceRecognizer.mk_recognizer (FaceRecognizer.smoothing s) _ _ _ _).
    destruct (IH s1 Hn) as (outs & s' & Hrun & Hlen & Hint & Hcnt & Htot & Hsm & Hst & Hskip).
    rewrite Hrun. exists (FaceRecognizer.stable (FaceRecognizer.smoothing s) :: outs), s'.
    subst s1. cbn in Hint, Hcnt, Htot, Hsm, Hst, Hskip.
    unfold FaceRecognizer.len in *.
    split; [reflexivity|]. split; [simpl; lia|]. split; [exact Hint|].
    split; [simpl length; lia|]. split; [exact Htot|].
    split; [exact Hsm|]. split.
    { rewrite Hst, last_cons. by destruct (last outs). }
    intros [|i] o Hi Hnz.
    + simpl in Hi. by injection Hi as <-.
    + simpl in Hi. rewrite (Hskip i o Hi) by (by replace
        (FaceRecognizer.frame_counter s + 1 + Z.of_nat i + 1)
        with (FaceRecognizer.frame_counter s + Z.of_nat (S i) + 1) by lia).
      destruct i as [|j]; [reflexivity|].
      simpl. destruct (outs !! j) as [o'|] eqn:Hj; [reflexivity|].
      apply lookup_lt_Some in Hi. apply lookup_ge_None in Hj. lia.
Qed.

(** X14. A recognizer configured with a detection interval [n >= 1] answers
    every call; after any sequence of frames it has counted them all, has
    run the recognition on every [n]-th of them ([k / n] of [k] frames), its
    smoothing state is the one reached by smoothing exactly those frames,
    and on every other frame it repeats the answer of the call before (the
    empty result when there was none). *)
Theorem recognizer_samples_every_nth_frame (n : Z)
    (frames : list ((list string * list FaceRecognizer.location) * Q * Q)) :
  1 <= n ->
  exists outs s',
    FaceRecognizer.recognize_all frames (FaceRecognizer.new_recognizer (Some n))
      = Return outs s' /\
    length outs = length frames /\
    FaceRecognizer.frame_counter s' = FaceRecognizer.len frames /\
    FaceRecognizer.total_recognitions s' = FaceRecognizer.len frames / n /\
    FaceRecognizer.smoothing s'
      = (FaceRecognizer.smooth_all
           ((fun f => f.1.1) <$> FaceRecognizer.sampled n 0 frames)
           FaceRecognizer.__init__).2 /\
    (forall i out, outs !! i = Some out ->
       (Z.of_nat i + 1) mod n <> 0 ->
       out = default ([], []) (match i with O => None | S j => outs !! j end)).
Proof.
  intros Hn.
  destruct (recognize_all_invariant frames (FaceRecognizer.new_recognizer (Some n)))
    as (outs & s' & Hrun & Hlen & _ & Hcnt & Htot & Hsm & _ & Hskip);
    [simpl; lia|].
  simpl in Hcnt, Htot, Hsm, Hskip.
  exists outs, s'. split; [exact Hrun|]. split; [exact Hlen|].
  split; [lia|]. split.
  { rewrite Htot, length_sampled by exact Hn. rewrite Zdiv_0_l, !Z.add_0_l. lia. }
  split; [exact Hsm|]. exact Hskip.
Qed.

Lemma recognizer_samples_every_nth_frame_witness :
  exists outs s',
    FaceRecognizer.recognize_all
      [(([String.EmptyString], [(0, 0, 0, 0)]), 0%Q, 1%Q);
       (([], []), 1%Q, 2%Q)]
      (FaceRecognizer.new_recognizer (Some 2))
      = Return outs s' /\
    FaceRecognizer.total_recognitions s' = 1.
Proof.
  destruct (recognizer_samples_every_nth_frame 2
              [(([String.EmptyString], [(0, 0, 0, 0)]), 0%Q, 1%Q);
               (([], []), 1%Q, 2%Q)] ltac:(lia))
    as (outs & s' & Hrun & _ & _ & Htot & _).
  exists outs, s'. split; [exact Hrun | exact Htot].
Defined.

(** X15. A recognizer whose detection interval is zero fails on the first
    frame it is given with ZeroDivisionError: that frame has been counted,
    no recognition has run, and the smoothing state and the metrics are
    untouched; no later frame is looked at. *)
Theorem zero_interval_fails_on_first_frame
    (s : FaceRecognizer.recognizer)
    (f : (list string * list FaceRecognizer.location) * Q * Q)
    (frames : list ((list string * list FaceRecognizer.location) * Q * Q)) :
  FaceRecognizer.detection_interval s = 0 ->
  FaceRecognizer.recognize_all (f :: frames) s
  = Raise ZeroDivisionError
      (FaceRecognizer.mk_recognizer (FaceRecognizer.smoothing s) 0
         (FaceRecognizer.frame_counter s + 1)
         (FaceRecognizer.total_recognitions s)
         (FaceRecognizer.recognition_time_total s)).
Proof.
  intros Hn. rewrite recognize_all_cons.
  rewrite recognize_faces_zero_interval by exact Hn.
  by rewrite Hn.
Qed.

Lemma zero_interval_fails_on_first_frame_witness :
  FaceRecognizer.recognize_all [(([], []), 0%Q, 1%Q)]
    (FaceRecognizer.new_recognizer (Some 0))
  = Raise ZeroDivisionError
      (FaceRecognizer.mk_recognizer FaceRecognizer.__init__ 0 1 0 0%Q).
Proof.
  exact (zero_interval_fails_on_first_frame
           (FaceRecognizer.new_recognizer (Some 0)) (([], []), 0%Q, 1%Q) []
           eq_refl).
Defined.

(* --------------------------------------------------------------------- *)
(** ** What the temporal smoothing accepts and what it rejects *)
(* --------------------------------------------------------------------- *)

Lemma py_int_bounds (q : Q) (a b : Z) :
  (inject_Z a <= q)%Q -> (q <= inject_Z b)%Q -> a <= py_int q <= b.
Proof.
  destruct q as [p d]. unfold Qle, py_int. simpl. intros Ha Hb.
  rewrite Z.mul_1_r in Ha, Hb.
  destruct (decide (0 <= p)) as [Hp|Hp].
  - rewrite Z.quot_div_nonneg by lia. split.
    + apply Z.div_le_lower_bound; lia.
    + apply Z.div_le_upper_bound; lia.
  - replace p with (- - p) by lia.
    rewrite Z.quot_opp_l by lia. rewrite Z.quot_div_nonneg by lia.
    assert (- b <= (- p) / Z.pos d) by (apply Z.div_le_lower_bound; lia).
    assert ((- p) / Z.pos d <= - a) by (apply Z.div_le_upper_bound; lia).
    lia.
Qed.

Lemma median_bounds (l : list Z) (a b : Z) :
  l <> [] ->
  (forall i x, merge_sort Z.le l !! i = Some x ->
     i = (length l / 2)%nat \/ (Nat.even (length l) = true /\ S i = (length l / 2)%nat) ->
     a <= x <= b) ->
  a <= py_int (np_median l) <= b.
Proof.
  intros Hne Hmid.
  assert (Hlen : length (merge_sort Z.le l) = length l)
    by (apply Permutation_length, merge_sort_Permutation).
  assert (Hpos : (0 < length l)%nat) by (destruct l; [done | simpl; lia]).
  unfold np_median. cbv zeta. rewrite Hlen.
  assert (Hhi : exists x, merge_sort Z.le l !! (length l / 2)%nat = Some x).
  { apply lookup_lt_is_Some. rewrite Hlen. apply Nat.div_lt; lia. }
  assert (Hhalf : (length l / 2 < length l)%nat) by (apply Nat.div_lt; lia).
  destruct Hhi as [x Hx].
  pose proof (Hmid _ _ Hx (or_introl eq_refl)) as Hxb.
  rewrite (nth_lookup _ (length l / 2)), Hx. simpl default.
  destruct (Nat.even (length l)) eqn:Heven.
  - assert (Hlo : exists y, merge_sort Z.le l !! (length l / 2 - 1)%nat = Some y).
    { apply lookup_lt_is_Some. rewrite Hlen.
      generalize dependent (length l / 2)%nat. intros; lia. }
    destruct Hlo as [y Hy].
    assert (Hdiv : (1 <= length l / 2)%nat).
    { apply Nat.even_spec in Heven. destruct Heven as [m Hm]. rewrite Hm in *.
      rewrite (Nat.mul_comm 2 m), Nat.div_mul by lia. lia. }
    assert (Hprev : S (length l / 2 - 1) = (length l / 2)%nat) by lia.
    pose proof (Hmid _ _ Hy (or_intror (conj eq_refl Hprev))) as Hyb.
    rewrite (nth_lookup _ (length l / 2 - 1)), Hy. simpl default.
    apply py_int_bounds.
    + apply Qle_shift_div_l; [reflexivity|].
      rewrite <- inject_Z_plus. change 2%Q with (inject_Z 2).
      rewrite <- inject_Z_mult, <- Zle_Qle. lia.
    + apply Qle_shift_div_r; [reflexivity|].
      rewrite <- inject_Z_plus. change 2%Q with (inject_Z 2).
      rewrite <- inject_Z_mult, <- Zle_Qle. lia.
  - apply py_int_bounds; rewrite <- Zle_Qle; lia.
Qed.

Lemma window_nonempty (self : FaceRecognizer.t) (fd : FaceRecognizer.frame_data) :
  1 <= FaceRecognizer.history_length self ->
  let h0 := FaceRecognizer.face_history self ++ [fd] in
  let history :=
    if bool_decide (FaceRecognizer.len h0 > FaceRecognizer.history_length self)
    then drop 1 h0 else h0 in
  history <> [] /\ (forall x, x ∈ history -> x ∈ h0).
Proof.
  intros Hl. cbv zeta. unfold FaceRecognizer.len.
  case_bool_decide as Hlong.
  - split.
    + intros Hnil. apply (f_equal length) in Hnil.
      rewrite length_drop in Hnil. simpl in Hnil. lia.
    + intros x Hx. apply list_elem_of_lookup in Hx as [i Hi].
      rewrite lookup_drop in Hi. by eapply list_elem_of_lookup_2.
  - split; [|done]. by destruct (FaceRecognizer.face_history self).
Qed.

(** X16. A detection whose number of faces is within one of every count in
    the stored window is passed through unchanged, and becomes the stored
    stable result. *)
Theorem steady_detection_is_accepted (names_ : list string)
    (locations_ : list FaceRecognizer.location) (self : FaceRecognizer.t) :
  1 <= FaceRecognizer.history_length self ->
  Forall (fun fd => Z.abs (FaceRecognizer.count fd - FaceRecognizer.len names_) <= 1)
    (FaceRecognizer.face_history self) ->
  let r := FaceRecognizer._apply_temporal_smoothing names_ locations_ self in
  r.1 = (names_, locations_) /\
  FaceRecognizer.stable r.2 = (names_, locations_).
Proof.
  intros Hl Hnear. cbv zeta.
  pose proof (window_nonempty self
    (FaceRecognizer.mk_frame_data names_ locations_ (FaceRecognizer.len names_)) Hl)
    as Hw. cbv zeta in Hw.
  unfold FaceRecognizer._apply_temporal_smoothing, FaceRecognizer.stable.
  cbv zeta. cbn [FaceRecognizer.history_length FaceRecognizer.min_confidence_frames
                 FaceRecognizer.last_stable_names FaceRecognizer.last_stable_faces].
  set (h0 := FaceRecognizer.face_history self ++ _) in *.
  set (history := if bool_decide (FaceRecognizer.len h0 > _) then drop 1 h0 else h0) in *.
  destruct Hw as [Hne Hsub].
  case_bool_decide as Hshort; [done|].
  rewrite bool_decide_eq_true_2; [done|].
  assert (Hb : FaceRecognizer.len names_ - 1
               <= py_int (np_median (map FaceRecognizer.count history))
               <= FaceRecognizer.len names_ + 1); [|lia].
  apply median_bounds.
  { by destruct history. }
  intros i x Hi _.
  assert (Hx : x ∈ map FaceRecognizer.count history).
  { rewrite <- (merge_sort_Permutation Z.le). by eapply list_elem_of_lookup_2. }
  apply list_elem_of_fmap in Hx as (fd & -> & Hfd).
  apply Hsub in Hfd. subst h0. apply elem_of_app in Hfd as [Hfd|Hfd].
  - rewrite Forall_forall in Hnear. specialize (Hnear fd Hfd). simpl in Hnear. lia.
  - apply list_elem_of_singleton in Hfd as ->. simpl. lia.
Qed.

Lemma steady_detection_is_accepted_witness :
  let self := FaceRecognizer.mk
    [FaceRecognizer.mk_frame_data [] [] 0; FaceRecognizer.mk_frame_data [] [] 0;
     FaceRecognizer.mk_frame_data [] [] 0] 5 3 [] [] in
  (FaceRecognizer._apply_temporal_smoothing [String.EmptyString] [(0, 0, 0, 0)] self).1
  = ([String.EmptyString], [(0, 0, 0, 0)]).
Proof.
  cbv zeta.
  refine (proj1 (steady_detection_is_accepted [String.EmptyString] [(0, 0, 0, 0)]
                   (FaceRecognizer.mk
                      [FaceRecognizer.mk_frame_data [] [] 0;
                       FaceRecognizer.mk_frame_data [] [] 0;
                       FaceRecognizer.mk_frame_data [] [] 0] 5 3 [] []) _ _)).
  - simpl. lia.
  - repeat constructor; vm_compute; discriminate.
Defined.

Lemma sorted_steady_window (k : nat) (c0 c : Z) :
  merge_sort Z.le (replicate k c0 ++ [c])
  = if bool_decide (c <= c0) then c :: replicate k c0 else replicate k c0 ++ [c].
Proof.
  apply (Sorted_unique Z.le).
  - apply Sorted_merge_sort. apply _.
  - assert (Hrep : forall v, Sorted Z.le (replicate k v)).
    { intros v. induction k as [|k IH]; simpl; [constructor|].
      constructor; [exact IH|]. destruct k; simpl; constructor. lia. }
    case_bool_decide as Hle.
    + constructor; [apply Hrep|]. destruct k; simpl; constructor. lia.
    + apply Sorted_snoc; [apply Hrep|].
      destruct k as [|k]; [constructor|].
      rewrite replicate_S_end. constructor. lia.
  - rewrite merge_sort_Permutation. case_bool_decide; [|done].
    by rewrite Permutation_app_comm.
Qed.

Lemma median_of_steady_window (k : nat) (c0 c : Z) :
  (2 <= k)%nat -> py_int (np_median (replicate k c0 ++ [c])) = c0.
Proof.
  intros Hk.
  assert (Hb : c0 <= py_int (np_median (replicate k c0 ++ [c])) <= c0); [|lia].
  apply median_bounds; [by destruct k|].
  rewrite sorted_steady_window, length_app, length_replicate. simpl length.
  intros i x Hi Hmid.
  assert (Hrange : (1 <= i < k)%nat).
  { destruct Hmid as [->|[Heven Hi2]].
    - split; [apply Nat.div_le_lower_bound; lia|].
      apply Nat.Div0.div_lt_upper_bound; lia.
    - apply Nat.even_spec in Heven. destruct Heven as [m Hm]. rewrite Hm in Hi2.
      rewrite (Nat.mul_comm 2 m), Nat.div_mul in Hi2 by lia. lia. }
  assert (x = c0); [|lia].
  case_bool_decide.
  - destruct i as [|j]; [lia|]. simpl in Hi.
    apply lookup_replicate in Hi. by destruct Hi.
  - rewrite lookup_app_l in Hi by (rewrite length_replicate; lia).
    apply lookup_replicate in Hi. by destruct Hi.
Qed.

Lemma steady_counts (h : list FaceRecognizer.frame_data) (c0 : Z) :
  Forall (fun fd => FaceRecognizer.count fd = c0) h ->
  map FaceRecognizer.count h = replicate (length h) c0.
Proof.
  induction 1 as [|fd h Hfd _ IH]; simpl; [reflexivity|]. by rewrite Hfd, IH.
Qed.

(** X17. Against a steady window (at least two stored observations, all with
    the same number of faces) a detection whose number of faces differs from
    it by two or more is rejected: the call returns the stored stable result
    and leaves it in place. *)
Theorem sudden_jump_is_rejected (names_ : list string)
    (locations_ : list FaceRecognizer.location) (self : FaceRecognizer.t) (c0 : Z) :
  FaceRecognizer.history_length self = 5 ->
  FaceRecognizer.min_confidence_frames self = 3 ->
  (2 <= length (FaceRecognizer.face_history self))%nat ->
  Forall (fun fd => FaceRecognizer.count fd = c0) (FaceRecognizer.face_history self) ->
  Z.abs (FaceRecognizer.len names_ - c0) > 1 ->
  let r := FaceRecognizer._apply_temporal_smoothing names_ locations_ self in
  r.1 = FaceRecognizer.stable self /\
  FaceRecognizer.stable r.2 = FaceRecognizer.stable self.
Proof.
  intros Hl Hm Hlen Hsteady Hjump. cbv zeta.
  unfold FaceRecognizer._apply_temporal_smoothing, FaceRecognizer.stable.
  cbv zeta. cbn [FaceRecognizer.history_length FaceRecognizer.min_confidence_frames
                 FaceRecognizer.last_stable_names FaceRecognizer.last_stable_faces].
  rewrite Hl, Hm.
  set (fd := FaceRecognizer.mk_frame_data names_ locations_ (FaceRecognizer.len names_)).
  assert (Hwin : exists h',
    (if bool_decide (FaceRecognizer.len (FaceRecognizer.face_history self ++ [fd]) > 5)
     then drop 1 (FaceRecognizer.face_history self ++ [fd])
     else FaceRecognizer.face_history self ++ [fd]) = h' ++ [fd] /\
    (2 <= length h')%nat /\
    Forall (fun fd => FaceRecognizer.count fd = c0) h').
  { unfold FaceRecognizer.len. rewrite length_app. simpl length.
    case_bool_decide as Hlong.
    - exists (drop 1 (FaceRecognizer.face_history self)).
      split; [by rewrite drop_app_le by lia|].
      split; [rewrite length_drop; lia|]. by apply Forall_drop.
    - by exists (FaceRecognizer.face_history self). }
  destruct Hwin as (h' & -> & Hlen' & Hsteady').
  rewrite bool_decide_eq_false_2
    by (unfold FaceRecognizer.len; rewrite length_app; simpl; lia).
  rewrite map_app, (steady_counts h' c0 Hsteady'). simpl map.
  rewrite median_of_steady_window by exact Hlen'.
  by rewrite bool_decide_eq_false_2 by lia.
Qed.

Lemma sudden_jump_is_rejected_witness :
  let self := FaceRecognizer.mk
    [FaceRecognizer.mk_frame_data [] [] 0; FaceRecognizer.mk_frame_data [] [] 0]
    5 3 [] [] in
  (FaceRecognizer._apply_temporal_smoothing
     [String.EmptyString; String.EmptyString] [(0, 0, 0, 0); (0, 0, 0, 0)] self).1
  = ([], []).
Proof.
  cbv zeta.
  refine (proj1 (sudden_jump_is_rejected
                   [String.EmptyString; String.EmptyString]
                   [(0, 0, 0, 0); (0, 0, 0, 0)]
                   (FaceRecognizer.mk
                      [FaceRecognizer.mk_frame_data [] [] 0;
                       FaceRecognizer.mk_frame_data [] [] 0] 5 3 [] [])
                   0 eq_refl eq_refl _ _ _)).
  - simpl. lia.
  - repeat constructor.
  - vm_compute. reflexivity.
Defined.

(* --------------------------------------------------------------------- *)
(** ** The control step of the main loop *)
(* --------------------------------------------------------------------- *)

Lemma process_all_cons (f : bool * list string * AntiTheftSystem.answers)
    (frames : list (bool * list string * AntiTheftSystem.answers))
    (self : AntiTheftSystem.t) :
  AntiTheftSystem.process_all (f :: frames) self
  = let r := AntiTheftSystem._process_frame f.1.1 f.1.2 f.2 self in
    let r' := AntiTheftSystem.process_all frames r.1 in
    (r'.1, r.2 ++ r'.2).
Proof.
  destruct f as [[m n] env]. simpl.
  destruct (AntiTheftSystem._process_frame m n env self) as [self1 ev].
  simpl. by destruct (AntiTheftSystem.process_all frames self1).
Qed.

Lemma trigger_keeps_settings (t_check t_stamp : Q) (sound : bool) (a : AlarmSystem.t) :
  let a' := (AlarmSystem.trigger t_check t_stamp sound a).1 in
  AlarmSystem.enabled a' = AlarmSystem.enabled a /\
  AlarmSystem.cooldown_period a' = AlarmSystem.cooldown_period a /\
  AlarmSystem.trigger_count a <= AlarmSystem.trigger_count a'
    <= AlarmSystem.trigger_count a + 1.
Proof.
  cbv zeta. unfold AlarmSystem.trigger.
  destruct (AlarmSystem.can_trigger t_check a); simpl; repeat split; lia.
Qed.

Lemma process_frame_step (motion : bool) (names_ : list string)
    (env : AntiTheftSystem.answers) (self : AntiTheftSystem.t) :
  resting (StateMachine.current_state (AntiTheftSystem.state_machine self)) = true ->
  let r := AntiTheftSystem._process_frame motion names_ env self in
  resting (StateMachine.current_state (AntiTheftSystem.state_machine r.1)) = true /\
  AntiTheftSystem.system_armed r.1 = AntiTheftSystem.system_armed self /\
  AlarmSystem.enabled (AntiTheftSystem.alarm_system r.1)
    = AlarmSystem.enabled (AntiTheftSystem.alarm_system self) /\
  AlarmSystem.cooldown_period (AntiTheftSystem.alarm_system r.1)
    = AlarmSystem.cooldown_period (AntiTheftSystem.alarm_system self) /\
  AlarmSystem.trigger_count (AntiTheftSystem.alarm_system self)
    <= AlarmSystem.trigger_count (AntiTheftSystem.alarm_system r.1)
    <= AlarmSystem.trigger_count (AntiTheftSystem.alarm_system self) + 1.
Proof.
  intros Hrest. cbv zeta.
  destruct self as [[cur prev enter hist cnt cbs] alarm armed].
  unfold AntiTheftSystem._process_frame, AntiTheftSystem._handle_detection,
    AntiTheftSystem._trigger_alarm, AntiTheftSystem.with_machine,
    StateMachine.get_current_state.
  cbn [AntiTheftSystem.state_machine AntiTheftSystem.alarm_system
       AntiTheftSystem.system_armed StateMachine.current_state] in *.
  pose proof (trigger_keeps_settings (AntiTheftSystem.trigger_check env)
                (AntiTheftSystem.trigger_stamp env)
                (AntiTheftSystem.sound_exists env) alarm) as Ht.
  cbv zeta in Ht.
  destruct (AlarmSystem.trigger _ _ _ alarm) as [alarm' ev_alarm].
  cbn [fst] in Ht.
  destruct (BooleanLogic.alarm_condition _ _ _);
    destruct cur; try discriminate Hrest; simpl;
    repeat match goal with
    | |- context [Qgtb ?x ?y] => destruct (Qgtb x y); simpl
    end;
    repeat split; try reflexivity; try lia; tauto.
Qed.

Lemma process_all_invariant
    (frames : list (bool * list string * AntiTheftSystem.answers)) :
  forall self : AntiTheftSystem.t,
  resting (StateMachine.current_state (AntiTheftSystem.state_machine self)) = true ->
  let r := AntiTheftSystem.process_all frames self in
  resting (StateMachine.current_state (AntiTheftSystem.state_machine r.1)) = true /\
  AntiTheftSystem.system_armed r.1 = AntiTheftSystem.system_armed self /\
  AlarmSystem.enabled (AntiTheftSystem.alarm_system r.1)
    = AlarmSystem.enabled (AntiTheftSystem.alarm_system self) /\
  AlarmSystem.cooldown_period (AntiTheftSystem.alarm_system r.1)
    = AlarmSystem.cooldown_period (AntiTheftSystem.alarm_system self) /\
  AlarmSystem.trigger_count (AntiTheftSystem.alarm_system self)
    <= AlarmSystem.trigger_count (AntiTheftSystem.alarm_system r.1)
    <= AlarmSystem.trigger_count (AntiTheftSystem.alarm_system self)
       + Z.of_nat (length frames).
Proof.
  induction frames as [|f frames IH]; intros self Hrest; cbv zeta.
  { simpl. repeat split; try done; lia. }
  rewrite process_all_cons. cbv zeta.
  pose proof (process_frame_step f.1.1 f.1.2 f.2 self Hrest) as Hs. cbv zeta in Hs.
  destruct (AntiTheftSystem._process_frame f.1.1 f.1.2 f.2 self) as [self1 ev].
  cbn [fst snd] in *.
  destruct Hs as (Hr1 & Ha1 & He1 & Hc1 & Ht1).
  specialize (IH self1 Hr1). cbv zeta in IH.
  destruct (AntiTheftSystem.process_all frames self1) as [self2 ev'].
  cbn [fst snd] in *.
  destruct IH as (Hr2 & Ha2 & He2 & Hc2 & Ht2).
  split; [exact Hr2|]. split; [congruence|]. split; [congruence|].
  split; [congruence|]. simpl length. lia.
Qed.

(** X18. Between frames the controller is never in the Alarm state: started
    in Monitoring, Alert or Cooldown, after any number of processed frames
    it is again in one of these three states (a confirmed threat passes
    through Alarm into Cooldown within one step). Processing frames never
    changes the armed flag or the alarm's settings, and the alarm fires at
    most once per frame. *)
Theorem control_loop_rests_outside_alarm
    (frames : list (bool * list string * AntiTheftSystem.answers))
    (self : AntiTheftSystem.t) :
  resting (StateMachine.current_state (AntiTheftSystem.state_machine self)) = true ->
  let after := (AntiTheftSystem.process_all frames self).1 in
  StateMachine.current_state (AntiTheftSystem.state_machine after)
    ∈ [MONITORING; ALERT; COOLDOWN] /\
  AntiTheftSystem.system_armed after = AntiTheftSystem.system_armed self /\
  AlarmSystem.enabled (AntiTheftSystem.alarm_system after)
    = AlarmSystem.enabled (AntiTheftSystem.alarm_system self) /\
  AlarmSystem.cooldown_period (AntiTheftSystem.alarm_system after)
    = AlarmSystem.cooldown_period (AntiTheftSystem.alarm_system self) /\
  AlarmSystem.trigger_count (AntiTheftSystem.alarm_system self)
    <= AlarmSystem.trigger_count (AntiTheftSystem.alarm_system after)
    <= AlarmSystem.trigger_count (AntiTheftSystem.alarm_system self)
       + Z.of_nat (length frames).
Proof.
  intros Hrest. cbv zeta.
  destruct (process_all_invariant frames self Hrest) as (Hr & Ha & He & Hc & Ht).
  split; [|tauto].
  revert Hr.
  generalize (StateMachine.current_state
                (AntiTheftSystem.state_machine
                   (AntiTheftSystem.process_all frames self).1)).
  intros [] Hr; try discriminate Hr;
    repeat (apply list_elem_of_here || apply list_elem_of_further).
Qed.

Lemma control_loop_rests_outside_alarm_witness :
  let tick := StateMachine.mk_stamp 20 "2024-01-01 00:00:20" 20 in
  let machine :=
    (StateMachine.transitions
       [(MONITORING, "System started", tick); (ALERT, "Threat detected", tick)]
       (StateMachine.__init__ IDLE 0 tick)).2 in
  let alarm := AlarmSystem.__init__ (AlarmSystem.mk_config None None None None) false in
  let self := AntiTheftSystem.mk machine alarm true in
  let later := StateMachine.mk_stamp 1000 "2024-01-01 00:16:40" 1000 in
  let env := AntiTheftSystem.mk_answers 1000 later 1000 1000 false None later in
  StateMachine.current_state
    (AntiTheftSystem.state_machine
       (AntiTheftSystem.process_all [(true, [], env)] self).1)
    ∈ [MONITORING; ALERT; COOLDOWN].
Proof.
  cbv zeta.
  refine (proj1 (control_loop_rests_outside_alarm _ _ _)). reflexivity.
Defined.

Lemma disarmed_step (motion : bool) (names_ : list string)
    (env : AntiTheftSystem.answers) (self : AntiTheftSystem.t) :
  AntiTheftSystem.system_armed self = false ->
  let r := AntiTheftSystem._process_frame motion names_ env self in
  AntiTheftSystem.system_armed r.1 = false /\
  AntiTheftSystem.alarm_system r.1 = AntiTheftSystem.alarm_system self /\
  Forall (fun e => alarm_action e = false) r.2 /\
  (StateMachine.current_state (AntiTheftSystem.state_machine r.1) = MONITORING \/
   AntiTheftSystem.state_machine r.1 = AntiTheftSystem.state_machine self).
Proof.
  intros Harmed. cbv zeta.
  destruct self as [[cur prev enter hist cnt cbs] alarm armed].
  simpl in Harmed. subst armed.
  unfold AntiTheftSystem._process_frame, BooleanLogic.alarm_condition,
    BooleanLogic.AND, BooleanLogic.OR.
  cbn [AntiTheftSystem.system_armed]. rewrite andb_false_r.
  unfold AntiTheftSystem._handle_detection, AntiTheftSystem.with_machine,
    StateMachine.get_current_state.
  destruct cur; simpl;
    repeat match goal with
    | |- context [Qgtb ?x ?y] => destruct (Qgtb x y); simpl
    end;
    repeat match goal with
    | |- context [cbs ?s] => destruct (cbs s); simpl
    end;
    (split; [reflexivity|]); (split; [reflexivity|]);
    (split; [repeat constructor | tauto]).
Qed.

Lemma disarmed_run (frames : list (bool * list string * AntiTheftSystem.answers)) :
  forall self : AntiTheftSystem.t,
  AntiTheftSystem.system_armed self = false ->
  let r := AntiTheftSystem.process_all frames self in
  AntiTheftSystem.alarm_system r.1 = AntiTheftSystem.alarm_system self /\
  Forall (fun e => alarm_action e = false) r.2 /\
  (StateMachine.current_state (AntiTheftSystem.state_machine r.1) = MONITORING \/
   AntiTheftSystem.state_machine r.1 = AntiTheftSystem.state_machine self).
Proof.
  induction frames as [|f frames IH]; intros self Harmed; cbv zeta.
  { simpl. split; [reflexivity|]. split; [constructor | by right]. }
  rewrite process_all_cons. cbv zeta.
  pose proof (disarmed_step f.1.1 f.1.2 f.2 self Harmed) as Hs. cbv zeta in Hs.
  destruct (AntiTheftSystem._process_frame f.1.1 f.1.2 f.2 self) as [self1 ev].
  cbn [fst snd] in *.
  destruct Hs as (Ha1 & Hal1 & Hev1 & Hst1).
  specialize (IH self1 Ha1). cbv zeta in IH.
  destruct (AntiTheftSystem.process_all frames self1) as [self2 ev'].
  cbn [fst snd] in *.
  destruct IH as (Hal2 & Hev2 & Hst2).
  split; [congruence|]. split; [by apply Forall_app|].
  destruct Hst2 as [Hm|Hsame]; [by left|].
  rewrite Hsame. exact Hst1.
Qed.

(** X19. A disarmed system never raises the alarm: whatever the detectors
    report over any number of frames, the alarm object is left exactly as it
    was, no sound thread is started, no image is saved and no e-mail is
    sent; the state machine is either untouched or has fallen back to
    Monitoring. *)
Theorem disarmed_system_never_alarms
    (frames : list (bool * list string * AntiTheftSystem.answers))
    (self : AntiTheftSystem.t) :
  AntiTheftSystem.system_armed self = false ->
  let r := AntiTheftSystem.process_all frames self in
  AntiTheftSystem.alarm_system r.1 = AntiTheftSystem.alarm_system self /\
  Forall (fun e => alarm_action e = false) r.2 /\
  (StateMachine.current_state (AntiTheftSystem.state_machine r.1) = MONITORING \/
   AntiTheftSystem.state_machine r.1 = AntiTheftSystem.state_machine self).
Proof.
  intros Harmed. exact (disarmed_run frames self Harmed).
Qed.

Lemma disarmed_system_never_alarms_witness :
  let tick := StateMachine.mk_stamp 20 "2024-01-01 00:00:20" 20 in
  let machine :=
    (StateMachine.transitions
       [(MONITORING, "System started", tick); (ALERT, "Threat detected", tick)]
       (StateMachine.__init__ IDLE 0 tick)).2 in
  let alarm := AlarmSystem.__init__ (AlarmSystem.mk_config None None None None) false in
  let self := AntiTheftSystem.mk machine alarm false in
  let later := StateMachine.mk_stamp 1000 "2024-01-01 00:16:40" 1000 in
  let env := AntiTheftSystem.mk_answers 1000 later 1000 1000 false None later in
  AntiTheftSystem.alarm_system
    (AntiTheftSystem.process_all [(true, ["Unknown"], env); (true, [], env)] self).1
  = alarm.
Proof.
  cbv zeta.
  refine (proj1 (disarmed_system_never_alarms _ _ _)). reflexivity.
Defined.

(** X20. One control step touches the alarm object, or starts a sound
    thread, saves an image or sends an e-mail, only when the system is
    armed, the frame shows motion or an unknown face, the controller is in
    the Alert state, and it has been there for more than two seconds. *)
Theorem alarm_needs_confirmed_alert (motion : bool) (names_ : list string)
    (env : AntiTheftSystem.answers) (self : AntiTheftSystem.t) :
  let r := AntiTheftSystem._process_frame motion names_ env self in
  AntiTheftSystem.alarm_system r.1 <> AntiTheftSystem.alarm_system self \/
  Exists (fun e => alarm_action e = true) r.2 ->
  AntiTheftSystem.system_armed self = true /\
  (motion = true \/ "Unknown" ∈ names_) /\
  StateMachine.current_state (AntiTheftSystem.state_machine self) = ALERT /\
  (2 < AntiTheftSystem.now env
       - StateMachine.state_enter_time (AntiTheftSystem.state_machine self))%Q.
Proof.
  cbv zeta.
  destruct self as [[cur prev enter hist cnt cbs] alarm armed].
  unfold AntiTheftSystem._process_frame, BooleanLogic.alarm_condition,
    BooleanLogic.AND, BooleanLogic.OR, FaceRecognizer.is_unknown_face_detected.
  cbn [AntiTheftSystem.system_armed AntiTheftSystem.state_machine
       AntiTheftSystem.alarm_system StateMachine.current_state
       StateMachine.state_enter_time].
  assert (Hquiet : forall (a : AlarmSystem.t) (ev : list event),
            a = alarm ->
            Forall (fun e => alarm_action e = false) ev ->
            a <> alarm \/ Exists (fun e => alarm_action e = true) ev -> False).
  { intros a ev Ha Hev [Hne|Hex]; [by apply Hne|].
    apply Exists_exists in Hex as (e & He & Hact).
    rewrite Forall_forall in Hev. specialize (Hev e He). congruence. }
  destruct armed; [|rewrite andb_false_r];
    (destruct (motion || bool_decide ("Unknown" ∈ names_)) eqn:Hthreat;
      cbn [andb];
      unfold AntiTheftSystem._handle_detection, AntiTheftSystem.with_machine,
        StateMachine.get_current_state, StateMachine.get_time_in_state;
      destruct cur; simpl;
      repeat match goal with
      | |- context [Qgtb ?x ?y] => destruct (Qgtb x y) eqn:?; simpl
      end;
      repeat match goal with
      | |- context [cbs ?s] => destruct (cbs s); simpl
      end;
      try (intros Hact; exfalso; revert Hact; apply Hquiet;
           [reflexivity | repeat constructor])).
  all: intros _; split; [reflexivity|]; split;
    [apply orb_true_iff in Hthreat as [Hm|Hu];
       [by left | right; by apply bool_decide_eq_true in Hu]
    |split; [reflexivity|];
     match goal with H : Qgtb _ _ = true |- _ => by apply Qgtb_lt in H end].
Qed.

Lemma alarm_needs_confirmed_alert_witness :
  let tick := StateMachine.mk_stamp 20 "2024-01-01 00:00:20" 20 in
  let machine :=
    (StateMachine.transitions
       [(MONITORING, "System started", tick); (ALERT, "Threat detected", tick)]
       (StateMachine.__init__ IDLE 0 tick)).2 in
  let alarm := AlarmSystem.__init__ (AlarmSystem.mk_config None None None None) false in
  let self := AntiTheftSystem.mk machine alarm true in
  let later := StateMachine.mk_stamp 1000 "2024-01-01 00:16:40" 1000 in
  let env := AntiTheftSystem.mk_answers 1000 later 1000 1000 false None later in
  AlarmSystem.trigger_count
    (AntiTheftSystem.alarm_system
       (AntiTheftSystem._process_frame true [] env self).1) = 1 /\
  (2 < AntiTheftSystem.now env - StateMachine.state_enter_time machine)%Q.
Proof.
  intros tick machine alarm self later env. split; [reflexivity|].
  refine (proj2 (proj2 (proj2 (alarm_needs_confirmed_alert true [] env self _)))).
  left. intros H. apply (f_equal AlarmSystem.trigger_count) in H.
  vm_compute in H. discriminate H.
Defined.



(* --------------------------------------------------------------------- *)
(** ** The statistics of the cache and of the memory hierarchy *)
(* --------------------------------------------------------------------- *)

(** X22. [LRUCache.get_stats] never answers. On a cache of capacity zero it
    raises ZeroDivisionError while computing the utilization; on every
    other cache it asks [get_hit_rate] for the hit rate from inside its own
    [with self.lock:] block, and waits for ever for the lock it holds
    ([get_hit_rate] called on its own does answer). *)
Theorem cache_statistics_never_answer {K V : Type} (self : LRUCache.t K V) :
  LRUCache.get_stats false self
  = (if bool_decide (LRUCache.capacity self = 0)
     then Failed ZeroDivisionError else Waits) /\
  (forall s, LRUCache.get_stats false self <> Unlocked s) /\
  LRUCache.get_hit_rate_locked false self = Unlocked (LRUCache.get_hit_rate self).
Proof.
  unfold LRUCache.get_stats, LRUCache.get_hit_rate_locked, with_lock.
  split; [|split].
  - by case_bool_decide.
  - intros s. by case_bool_decide.
  - reflexivity.
Qed.

(** X23. [MemoryHierarchy.get_memory_stats], which the shutdown report of
    the system calls, never answers either: it raises ZeroDivisionError
    when the frame buffer or the cache has capacity zero, and otherwise
    waits for ever inside the statistics of the cache. *)
Theorem memory_report_never_answers {Frame K V : Type}
    (self : MemoryHierarchy.t Frame K V) :
  MemoryHierarchy.get_memory_stats self
  = (if bool_decide (CircularFrameBuffer.capacity (MemoryHierarchy.l1_cache self) = 0
                     \/ LRUCache.capacity (MemoryHierarchy.l2_cache self) = 0)
     then Failed ZeroDivisionError else Waits).
Proof.
  unfold MemoryHierarchy.get_memory_stats, CircularFrameBuffer.get_stats,
    LRUCache.get_stats, LRUCache.get_hit_rate_locked, with_lock, py_truediv,
    this, ret, raise.
  unfold mbind, M_bind, mret, M_ret. simpl.
  repeat case_bool_decide; try reflexivity; tauto.
Qed.

(* --------------------------------------------------------------------- *)
(** ** Resetting the motion detector *)
(* --------------------------------------------------------------------- *)

Section MotionReset.
Context {Frame Gray Contour : Type}.
Variable cv2_gray_blur : Z -> Frame -> Gray.
Variable cv2_absdiff : Gray -> Gray -> Gray.
Variable cv2_threshold : Q -> Gray -> Gray.
Variable cv2_dilate : Z -> Gray -> Gray.
Variable cv2_findContours : Gray -> list Contour.
Variable cv2_contourArea : Contour -> Q.

Abbreviation run_detect_motion :=
  (MotionDetector.detect_motion cv2_gray_blur cv2_absdiff cv2_threshold
     cv2_dilate cv2_findContours cv2_contourArea).
Abbreviation run_detect_all :=
  (MotionDetector.detect_all cv2_gray_blur cv2_absdiff cv2_threshold
     cv2_dilate cv2_findContours cv2_contourArea).

(** The settings of a detector. *)
Abbreviation settings self :=
  (MotionDetector.threshold self, MotionDetector.min_contour_area self,
   MotionDetector.blur_kernel_size self, MotionDetector.dilation_iterations self).

Lemma detect_motion_keeps_settings (self : MotionDetector.t Gray) frame t0 t1 :
  settings (run_detect_motion frame t0 t1 self).2 = settings self.
Proof.
  unfold MotionDetector.detect_motion, MotionDetector.compute_frame_difference.
  by destruct (MotionDetector.previous_frame self).
Qed.

Lemma detect_all_keeps_settings (frames : list (Frame * Q * Q)) :
  forall self : MotionDetector.t Gray,
  settings (run_detect_all frames self).2 = settings self.
Proof.
  induction frames as [|[[frame t0] t1] frames IH]; intros self; [reflexivity|].
  rewrite (detect_all_cons cv2_gray_blur cv2_absdiff cv2_threshold
             cv2_dilate cv2_findContours cv2_contourArea). cbv zeta.
  cbn [snd]. by rewrite IH, detect_motion_keeps_settings.
Qed.

(** X24. [reset] after any number of frames brings a detector back to the
    state its constructor gave it, so that the next frame is again a first
    frame and reports no motion. [reset_metrics] clears the three counters
    only: the metrics read as before any frame, and the frame kept for the
    next comparison stays. *)
Theorem reset_restores_fresh_detector
    (cfg : MotionDetector.config) (frames : list (Frame * Q * Q)) :
  let used := (run_detect_all frames (MotionDetector.__init__ cfg)).2 in
  MotionDetector.reset used = MotionDetector.__init__ cfg /\
  (forall frame t0 t1,
     (run_detect_motion frame t0 t1 (MotionDetector.reset used)).1.1 = false) /\
  MotionDetector.get_performance_metrics (MotionDetector.reset_metrics used)
    = MotionDetector.no_frames_processed /\
  MotionDetector.previous_frame (MotionDetector.reset_metrics used)
    = MotionDetector.previous_frame used /\
  settings (MotionDetector.reset_metrics used)
    = settings (MotionDetector.__init__ cfg : MotionDetector.t Gray).
Proof.
  cbv zeta.
  pose proof (detect_all_keeps_settings frames (MotionDetector.__init__ cfg)) as Hs.
  set (used := (run_detect_all frames (MotionDetector.__init__ cfg)).2) in *.
  clearbody used. destruct used as [th mca bks di pf n tt m].
  simpl in Hs. injection Hs as -> -> -> ->.
  assert (Hreset : MotionDetector.reset
                     (MotionDetector.mk
                        (default 25%Q (MotionDetector.cfg_threshold cfg))
                        (default 500%Q (MotionDetector.cfg_min_contour_area cfg))
                        (default 21 (MotionDetector.cfg_blur_kernel_size cfg))
                        (default 2 (MotionDetector.cfg_dilation_iterations cfg))
                        pf n tt m)
                   = MotionDetector.__init__ cfg) by reflexivity.
  split; [exact Hreset|]. split; [|by repeat split].
  intros frame t0 t1. rewrite Hreset. reflexivity.
Qed.

End MotionReset.
